(** * sync_diff_inspector: the chunk pipeline and the continuous validator

    A shallow embedding of [sync_diff_inspector/diff.go] and
    [sync_diff_inspector/continuous/validate.go].

    Conventions of the embedding.
    - Go [int64] values are [Z]; an addition of two [int64] is written with
      its wrap-around ([int64_add]).  The counters [rowsAdd]/[rowsDelete]
      are incremented once per element appended to a slice, whose length is
      itself a Go [int], so they never wrap and are plain [Z].
    - A Go [error] is the message it carries; [errors.Trace] only decorates
      an error with a stack and is the identity here.
    - [map[string]*T] is a [gmap string T]; a [nil] pointer or interface is
      [None].  On the validator's side the rows of a table change are
      pointers that [validateTableChange] may leave [nil]: there a row is an
      [option rowChange].
    - Go ranges over a map in an order it does not specify.  Where the
      order can matter (a panic, the order of a query's arguments) it is a
      parameter of the model, any permutation of the map's entries.
    - A goroutine's loop is one turn per message it receives; the turns of
      the goroutines interleave in any order.
    - The collaborators that are not part of the two files ([source.Source],
      [utils.CompareData], [splitter.RangeInfo], ...) are Section variables:
      every theorem holds for any behaviour of theirs, unless it says so. *)

From Stdlib Require Import ZArith String Ascii List Lia Bool Permutation Sorted
  DecimalString.
From stdpp Require Import gmap strings list.
Import ListNotations.
Local Open Scope string_scope.
Local Open Scope list_scope.
Local Open Scope Z_scope.

(** ** Go primitives used by the two files *)

Definition error := string.

(** [errors.Trace(err)]. *)
Definition Trace (e : error) : error := e.

(** Two's complement wrap-around of a 64-bit signed integer. *)
Definition wrap64 (z : Z) : Z := (z + 2 ^ 63) mod 2 ^ 64 - 2 ^ 63.

Definition int64_add (a b : Z) : Z := wrap64 (a + b).

(** [strconv.Atoi] on decimal numerals that fit an [int]: an optional sign and
    at least one digit. *)
Definition digitOf (c : ascii) : option Z :=
  let n := Z.of_N (N_of_ascii c) in
  if (48 <=? n) && (n <=? 57) then Some (n - 48) else None.

Fixpoint parseDigits (s : string) (acc : Z) : option Z :=
  match s with
  | EmptyString => Some acc
  | String c s' =>
    match digitOf c with
    | Some d => parseDigits s' (10 * acc + d)
    | None => None
    end
  end.

Definition Atoi (s : string) : option Z :=
  match s with
  | EmptyString => None
  | String c s' =>
    if Ascii.eqb c "-" then
      match s' with
      | EmptyString => None
      | _ => option_map Z.opp (parseDigits s' 0)
      end
    else if Ascii.eqb c "+" then
      match s' with
      | EmptyString => None
      | _ => parseDigits s' 0
      end
    else parseDigits s 0
  end.

(** ** Batch mode: checksum, bisection, row reconciliation, [consume] *)

Module Batch.

(** [source.ChecksumInfo]. *)
Record ChecksumInfo := mkChecksumInfo {
  Checksum : Z;
  Count : Z;
  Err : option error
}.

(** [checkpoints.Node.State]. *)
Inductive NodeState := SuccessState | FailedState | IgnoreState | UnsetState.

(** [chunk.ChunkType]. *)
Inductive ChunkType :=
  chunk_Bucket | chunk_Random | chunk_Limit | chunk_Others | chunk_Empty.

Section Checksum.

Context {RangeInfo : Type}.

(** [df.upstream.GetCountAndCrc32] and [df.downstream.GetCountAndCrc32]. *)
Variables upstream_GetCountAndCrc32 downstream_GetCountAndCrc32 :
  RangeInfo -> ChecksumInfo.

(** [Diff.compareChecksumAndGetCount].  The upstream query runs in a
    goroutine that is joined ([wg.Wait]) before either result is read, so the
    two calls are independent and the result is that of the sequence. *)
Definition compareChecksumAndGetCount (tableRange : RangeInfo)
  : bool * Z * option error :=
  let upstreamInfo := upstream_GetCountAndCrc32 tableRange in
  let downstreamInfo := downstream_GetCountAndCrc32 tableRange in
  match Err upstreamInfo with
  | Some e => (false, -1, Some (Trace e))
  | None =>
    match Err downstreamInfo with
    | Some e => (false, -1, Some (Trace e))
    | None =>
      if (Count upstreamInfo =? Count downstreamInfo)
         && (Checksum upstreamInfo =? Checksum downstreamInfo)
      then (true, Count upstreamInfo, None)
      else (false, Count upstreamInfo, None)
    end
  end.

(** Both sides answered, with the same row count and the same CRC32. *)
Definition checksumsAgree (tableRange : RangeInfo) : Prop :=
  Err (upstream_GetCountAndCrc32 tableRange) = None /\
  Err (downstream_GetCountAndCrc32 tableRange) = None /\
  Count (upstream_GetCountAndCrc32 tableRange)
    = Count (downstream_GetCountAndCrc32 tableRange) /\
  Checksum (upstream_GetCountAndCrc32 tableRange)
    = Checksum (downstream_GetCountAndCrc32 tableRange).

Lemma compareChecksum_equal_iff (tableRange : RangeInfo) :
  (compareChecksumAndGetCount tableRange).1.1 = true <-> checksumsAgree tableRange.
Proof.
  unfold compareChecksumAndGetCount, checksumsAgree.
  destruct (Err (upstream_GetCountAndCrc32 tableRange)) as [eu|];
    [ cbn; split; [discriminate | intros [? _]; discriminate] | ].
  destruct (Err (downstream_GetCountAndCrc32 tableRange)) as [ed|];
    [ cbn; split; [discriminate | intros (_ & ? & _); discriminate] | ].
  destruct (Z.eqb_spec (Count (upstream_GetCountAndCrc32 tableRange))
                       (Count (downstream_GetCountAndCrc32 tableRange))) as [Hc|Hc];
  destruct (Z.eqb_spec (Checksum (upstream_GetCountAndCrc32 tableRange))
                       (Checksum (downstream_GetCountAndCrc32 tableRange))) as [Hs|Hs];
    cbn; split; try discriminate; try tauto.
Qed.

Lemma compareChecksum_no_error (tableRange : RangeInfo) :
  (compareChecksumAndGetCount tableRange).2 = None <->
  Err (upstream_GetCountAndCrc32 tableRange) = None /\
  Err (downstream_GetCountAndCrc32 tableRange) = None.
Proof.
  unfold compareChecksumAndGetCount.
  destruct (Err (upstream_GetCountAndCrc32 tableRange)) as [eu|];
    [ cbn; split; [discriminate | intros [? _]; discriminate] | ].
  destruct (Err (downstream_GetCountAndCrc32 tableRange)) as [ed|];
    [ cbn; split; [discriminate | intros [_ ?]; discriminate] | ].
  split; [tauto | intros _].
  destruct (_ && _); reflexivity.
Qed.

(** C7.  [compareChecksumAndGetCount] answers [equal = true] exactly when
    both sides' [GetCountAndCrc32] succeed with the same [Count] and the same
    [Checksum]; when a side reports an error the answer is [(false, -1, err)]
    for that error (the upstream one first); and without any error the count
    returned is the upstream count. *)
Theorem compareChecksumAndGetCount_spec (tableRange : RangeInfo) :
  ((compareChecksumAndGetCount tableRange).1.1 = true
     <-> checksumsAgree tableRange) /\
  (forall e, Err (upstream_GetCountAndCrc32 tableRange) = Some e ->
     compareChecksumAndGetCount tableRange = (false, -1, Some e)) /\
  (forall e, Err (upstream_GetCountAndCrc32 tableRange) = None ->
     Err (downstream_GetCountAndCrc32 tableRange) = Some e ->
     compareChecksumAndGetCount tableRange = (false, -1, Some e)) /\
  (Err (upstream_GetCountAndCrc32 tableRange) = None ->
   Err (downstream_GetCountAndCrc32 tableRange) = None ->
     (compareChecksumAndGetCount tableRange).1.2
       = Count (upstream_GetCountAndCrc32 tableRange) /\
     (compareChecksumAndGetCount tableRange).2 = None).
Proof.
  split; [apply compareChecksum_equal_iff | ].
  unfold compareChecksumAndGetCount.
  split; [ | split].
  - intros e ->. reflexivity.
  - intros e -> ->. reflexivity.
  - intros -> ->. destruct (_ && _); split; reflexivity.
Qed.

End Checksum.

(** ** The chunk pipeline over the [source.Source] contract *)

(** What a Go function that returns [(T, error)] and may call [log.Fatal]
    ends with: a value, an error, or the exit of the process. *)
Inductive outcome (A : Type) :=
| Ret (a : A)
| ErrorOf (e : error)
| FatalExit.
Arguments Ret {A} a.
Arguments ErrorOf {A} e.
Arguments FatalExit {A}.

(** [checkpoints.Node]: the range it stands for and its state. *)
Record Node (R : Type) := mkNode {
  ChunkRange : R;
  State : NodeState
}.
Arguments mkNode {R}.
Arguments ChunkRange {R}.
Arguments State {R}.

(** [ChunkDML]. *)
Record ChunkDML (R : Type) := mkChunkDML {
  node : Node R;
  sqls : list string;
  rowAdd : Z;
  rowDelete : Z
}.
Arguments mkChunkDML {R}.
Arguments node {R}.
Arguments sqls {R}.
Arguments rowAdd {R}.
Arguments rowDelete {R}.

(** The [kind] argument of [GenerateFixSQL]. *)
Inductive DMLType := Insert | Delete | Replace.

(** [model.IndexInfo], as far as [BinGenerate] reads it. *)
Record IndexInfo := mkIndexInfo {
  ID : Z;
  Primary : bool;
  Unique : bool
}.

(** What an iterator's [Next] hands out before it is exhausted. *)
Inductive NextResult (Row : Type) :=
| NextRow (r : Row)
| NextErr (e : error).
Arguments NextRow {Row} r.
Arguments NextErr {Row} e.

(** A [RowDataIterator] is the sequence of results its [Next] will give;
    past the end [Next] returns [(nil, nil)]. *)
Definition RowDataIterator (Row : Type) := list (NextResult Row).

(** The calls into [df.report]. *)
Inductive ReportEvent :=
| SetTableMeetError (err : error)
| SetTableDataCheckResult (isEqual : bool) (rowAdd rowDelete : Z).

(** One append to [dml.sqls] by [compareRows]: the kind handed to
    [GenerateFixSQL] ([None] when the statement appended is the empty string
    that no [GenerateFixSQL] call produced) and the statement.  This log is
    ghost state: the Go code keeps only the statements. *)
Definition FixRecord := (option DMLType * string)%type.

(** The variables [compareRows] updates while it merges. *)
Record fixAcc := mkFixAcc {
  a_sqls : list string;
  a_fixes : list FixRecord;
  a_rowsAdd : Z;
  a_rowsDelete : Z;
  a_equal : bool
}.

Definition emitFix (kind : DMLType) (sql : string) (acc : fixAcc) : fixAcc :=
  {| a_sqls := a_sqls acc ++ [sql];
     a_fixes := a_fixes acc ++ [(Some kind, sql)];
     a_rowsAdd := match kind with Delete => a_rowsAdd acc | _ => a_rowsAdd acc + 1 end;
     a_rowsDelete := match kind with Insert => a_rowsDelete acc | _ => a_rowsDelete acc + 1 end;
     a_equal := false |}.

(** [equal = false; sql := ""; switch cmp { } ; dml.sqls = append(dml.sqls, sql)]
    when [cmp] is none of 1, -1, 0. *)
Definition emitNothing (acc : fixAcc) : fixAcc :=
  {| a_sqls := a_sqls acc ++ [""];
     a_fixes := a_fixes acc ++ [(None, "")];
     a_rowsAdd := a_rowsAdd acc;
     a_rowsDelete := a_rowsDelete acc;
     a_equal := false |}.

Definition DMLType_eqb (a b : DMLType) : bool :=
  match a, b with
  | Insert, Insert | Delete, Delete | Replace, Replace => true
  | _, _ => false
  end.

Definition isKind (kind : DMLType) (f : FixRecord) : bool :=
  match fst f with
  | Some k => DMLType_eqb kind k
  | None => false
  end.

(** The number of fixes of one kind among the appends. *)
Definition countKind (kind : DMLType) (fixes : list FixRecord) : Z :=
  Z.of_nat (length (List.filter (isKind kind) fixes)).

(** What the variables of [compareRows] satisfy at every point of the
    merge, [sqls0] being [dml.sqls] on entry. *)
Definition accInv (sqls0 : list string) (acc : fixAcc) : Prop :=
  a_sqls acc = sqls0 ++ map snd (a_fixes acc) /\
  a_rowsAdd acc = countKind Insert (a_fixes acc) + countKind Replace (a_fixes acc) /\
  a_rowsDelete acc = countKind Delete (a_fixes acc) + countKind Replace (a_fixes acc) /\
  (a_equal acc = true <-> a_fixes acc = []).

(** What [compareRows] leaves behind: the [ChunkDML] it updated, the log of
    its appends, and its two results. *)
Record rowsResult (R : Type) := mkRowsResult {
  r_dml : ChunkDML R;
  r_fixes : list FixRecord;
  r_equal : bool;
  r_err : option error
}.
Arguments mkRowsResult {R}.
Arguments r_dml {R}.
Arguments r_fixes {R}.
Arguments r_equal {R}.
Arguments r_err {R}.

(** What one [consume] task ends with: the [ChunkDML] its deferred send puts
    on [df.sqlCh], its return value and its calls into the report; or the
    exit of the process ([log.Fatal] in [binSearch]), which sends nothing. *)
Inductive consumeResult (R : Type) :=
| Emitted (dml : ChunkDML R) (isEqual : bool) (report : list ReportEvent)
| Exited.
Arguments Emitted {R}.
Arguments Exited {R}.

(** *** The invariant of the merge *)

Lemma countKind_snoc (kind : DMLType) (fixes : list FixRecord) (f : FixRecord) :
  countKind kind (fixes ++ [f])
    = countKind kind fixes + (if isKind kind f then 1 else 0).
Proof.
  unfold countKind. rewrite List.filter_app, List.length_app. cbn [List.filter].
  destruct (isKind kind f); cbn [length]; lia.
Qed.

Lemma accInv_emitFix (sqls0 : list string) (kind : DMLType) (sql : string)
  (acc : fixAcc) : accInv sqls0 acc -> accInv sqls0 (emitFix kind sql acc).
Proof.
  intros (Hsqls & Hadd & Hdel & Heq). unfold accInv, emitFix; cbn.
  rewrite !countKind_snoc, Hsqls, List.map_app, app_assoc. cbn.
  repeat split.
  - destruct kind; cbn; lia.
  - destruct kind; cbn; lia.
  - discriminate.
  - intros Hnil. destruct (a_fixes acc); discriminate.
Qed.

Lemma accInv_emitNothing (sqls0 : list string) (acc : fixAcc) :
  accInv sqls0 acc -> accInv sqls0 (emitNothing acc).
Proof.
  intros (Hsqls & Hadd & Hdel & Heq). unfold accInv, emitNothing; cbn.
  rewrite !countKind_snoc, Hsqls, List.map_app, app_assoc. cbn.
  repeat split.
  - lia.
  - lia.
  - discriminate.
  - intros Hnil. destruct (a_fixes acc); discriminate.
Qed.

Section Pipeline.

Context {RangeInfo RowData TableDiff ColumnInfo : Type}.

(** [splitter.SplitThreshold]. *)
Variable SplitThreshold : Z.

(** [df.exportFixSQL]. *)
Variable exportFixSQL : bool.

(** [rangeInfo.ChunkRange.Type], [rangeInfo.IndexID], [rangeInfo.ToNode()]. *)
Variable ChunkRange_Type : RangeInfo -> ChunkType.
Variable IndexID : RangeInfo -> Z.
Variable ToNode : RangeInfo -> Node RangeInfo.

(** [targetSource.GetTables()[tableRange.GetTableIndex()]] for the work
    source; the range iterator only yields ranges of these tables. *)
Variable workSource_table : RangeInfo -> TableDiff.

(** [dbutil.FindAllIndex(tableDiff.Info)] and
    [utils.GetColumnsFromIndex(index, tableDiff.Info)]. *)
Variable FindAllIndex : TableDiff -> list IndexInfo.
Variable GetColumnsFromIndex : IndexInfo -> TableDiff -> list ColumnInfo.

(** [column.Name.O]. *)
Variable Name_O : ColumnInfo -> string.

(** [utils.GetApproximateMidBySize] over the limits of [tableRange]. *)
Variable GetApproximateMidBySize :
  TableDiff -> list ColumnInfo -> RangeInfo -> Z -> gmap string string + error.

(** [r.Update(column, lower, upper, updateLower, updateUpper, collation,
    limits)] on a copy of [r], for the table's collation and limits. *)
Variable Update :
  TableDiff -> RangeInfo -> string -> string -> string -> bool -> bool -> RangeInfo.

Variables upstream_GetCountAndCrc32 downstream_GetCountAndCrc32 :
  RangeInfo -> ChecksumInfo.

(** [GetRowsIterator(ctx, rangeInfo)] of both sides. *)
Variables upstream_GetRowsIterator downstream_GetRowsIterator :
  RangeInfo -> RowDataIterator RowData + error.

(** [df.downstream.GenerateFixSQL(kind, upstreamRow, downstreamRow,
    rangeInfo.GetTableIndex())]. *)
Variable GenerateFixSQL :
  DMLType -> option RowData -> option RowData -> RangeInfo -> string.

(** [utils.CompareData(up, down, orderKeyCols, tableInfo.Columns)] for the
    table of the range: [(equal, cmp, err)]. *)
Variable CompareData : RangeInfo -> RowData -> RowData -> bool * Z * option error.

Abbreviation checksum := (compareChecksumAndGetCount
  upstream_GetCountAndCrc32 downstream_GetCountAndCrc32).

(** *** [Diff.binSearch] *)

(** A map lookup [midValues[name]]: the empty string when absent. *)
Definition midValue (midValues : gmap string string) (name : string) : string :=
  default "" (midValues !! name).

(** The two halves [binSearch] builds from copies of [tableRange]. *)
Definition tableRange1 (tableDiff : TableDiff) (indexColumns : list ColumnInfo)
  (midValues : gmap string string) (tableRange : RangeInfo) : RangeInfo :=
  fold_left (fun r c =>
    Update tableDiff r (Name_O c) "" (midValue midValues (Name_O c)) false true)
    indexColumns tableRange.

Definition tableRange2 (tableDiff : TableDiff) (indexColumns : list ColumnInfo)
  (midValues : gmap string string) (tableRange : RangeInfo) : RangeInfo :=
  fold_left (fun r c =>
    Update tableDiff r (Name_O c) (midValue midValues (Name_O c)) "" true false)
    indexColumns tableRange.

(** [c, err := df.binSearch(...); if err != nil { return nil, errors.Trace(err) };
    return c, nil]. *)
Definition traced (res : option (outcome RangeInfo)) : option (outcome RangeInfo) :=
  match res with
  | Some (ErrorOf err) => Some (ErrorOf (Trace err))
  | other => other
  end.

(** [fuel] bounds the depth of the recursion, which the Go code leaves to
    the counts the sources report; [None] is "not done within [fuel]". *)
Fixpoint binSearch (fuel : nat) (tableRange : RangeInfo) (count : Z)
  (tableDiff : TableDiff) (indexColumns : list ColumnInfo)
  : option (outcome RangeInfo) :=
  match fuel with
  | O => None
  | S fuel' =>
    if count <=? SplitThreshold then Some (Ret tableRange) else
    match GetApproximateMidBySize tableDiff indexColumns tableRange count with
    | inr err => Some (ErrorOf (Trace err))
    | inl midValues =>
      let range1 := tableRange1 tableDiff indexColumns midValues tableRange in
      let range2 := tableRange2 tableDiff indexColumns midValues tableRange in
      match checksum range1 with
      | (_, _, Some err) => Some (ErrorOf (Trace err))
      | (isEqual1, count1, None) =>
        match checksum range2 with
        | (_, _, Some err) => Some (ErrorOf (Trace err))
        | (isEqual2, count2, None) =>
          if negb (int64_add count1 count2 =? count) then Some FatalExit
          else if negb isEqual1 && negb isEqual2 then Some (Ret tableRange)
          else if negb isEqual1 then
            traced (binSearch fuel' range1 count1 tableDiff indexColumns)
          else if negb isEqual2 then
            traced (binSearch fuel' range2 count2 tableDiff indexColumns)
          else Some FatalExit
        end
      end
    end
  end.

(** *** [Diff.BinGenerate] *)

Definition BinGenerate (fuel : nat) (tableRange : RangeInfo) (count : Z)
  : option (outcome RangeInfo) :=
  if count <=? SplitThreshold then Some (Ret tableRange) else
  let tableDiff := workSource_table tableRange in
  let indices := FindAllIndex tableDiff in
  if (Z.of_nat (length indices) =? 0) then Some (Ret tableRange) else
  match List.find (fun i => IndexID tableRange =? ID i) indices with
  | None => Some (Ret tableRange)
  | Some index =>
    if negb (Primary index || Unique index) then Some (Ret tableRange) else
    let indexColumns := GetColumnsFromIndex index tableDiff in
    if (Z.of_nat (length indexColumns) =? 0) then Some (Ret tableRange) else
    binSearch fuel tableRange count tableDiff indexColumns
  end.

(** *** [Diff.compareRows] *)

(** [row, err = it.Next()] when the variable holding the last row is [nil]:
    the row now held and the iterator that remains, or the error. *)
Definition fetch (last : option RowData) (it : RowDataIterator RowData)
  : option RowData * RowDataIterator RowData + error :=
  match last with
  | Some r => inl (Some r, it)
  | None =>
    match it with
    | [] => inl (None, [])
    | NextRow r :: it' => inl (Some r, it')
    | NextErr e :: _ => inr e
    end
  end.

(** [for lastDownstreamData != nil { ... Delete ... ; lastDownstreamData, err =
    downstreamRowsIterator.Next() }], entered with a row in hand. *)
Fixpoint deleteRest (rangeInfo : RangeInfo) (lastDownstreamData : RowData)
  (it : RowDataIterator RowData) (acc : fixAcc) : fixAcc * option error :=
  let sql := GenerateFixSQL Delete None (Some lastDownstreamData) rangeInfo in
  let acc := emitFix Delete sql acc in
  match it with
  | [] => (acc, None)
  | NextRow r :: it' => deleteRest rangeInfo r it' acc
  | NextErr e :: _ => (acc, Some e)
  end.

(** [for lastUpstreamData != nil { ... Insert ... ; lastUpstreamData, err =
    upstreamRowsIterator.Next() }], entered with a row in hand. *)
Fixpoint insertRest (rangeInfo : RangeInfo) (lastUpstreamData : RowData)
  (it : RowDataIterator RowData) (acc : fixAcc) : fixAcc * option error :=
  let sql := GenerateFixSQL Insert (Some lastUpstreamData) None rangeInfo in
  let acc := emitFix Insert sql acc in
  match it with
  | [] => (acc, None)
  | NextRow r :: it' => insertRest rangeInfo r it' acc
  | NextErr e :: _ => (acc, Some e)
  end.

(** The merge loop.  One unit of [fuel] is one turn of the outer [for]; a
    [Some e] beside the accumulator is [return false, err]. *)
Fixpoint compareRowsLoop (fuel : nat) (rangeInfo : RangeInfo)
  (lastUpstreamData lastDownstreamData : option RowData)
  (upstreamRowsIterator downstreamRowsIterator : RowDataIterator RowData)
  (acc : fixAcc) : option (fixAcc * option error) :=
  match fuel with
  | O => None
  | S fuel' =>
    match fetch lastUpstreamData upstreamRowsIterator with
    | inr err => Some (acc, Some err)
    | inl (lastUp, upIt) =>
      match fetch lastDownstreamData downstreamRowsIterator with
      | inr err => Some (acc, Some err)
      | inl (lastDown, downIt) =>
        match lastUp, lastDown with
        | None, None => Some (acc, None)
        | None, Some d => Some (deleteRest rangeInfo d downIt acc)
        | Some u, None => Some (insertRest rangeInfo u upIt acc)
        | Some u, Some d =>
          match CompareData rangeInfo u d with
          | (_, _, Some err) => Some (acc, Some (Trace err))
          | (true, _, None) =>
            compareRowsLoop fuel' rangeInfo None None upIt downIt acc
          | (false, cmp, None) =>
            if cmp =? 1 then
              let sql := GenerateFixSQL Delete (Some u) (Some d) rangeInfo in
              compareRowsLoop fuel' rangeInfo (Some u) None upIt downIt
                (emitFix Delete sql acc)
            else if cmp =? -1 then
              let sql := GenerateFixSQL Insert (Some u) (Some d) rangeInfo in
              compareRowsLoop fuel' rangeInfo None (Some d) upIt downIt
                (emitFix Insert sql acc)
            else if cmp =? 0 then
              let sql := GenerateFixSQL Replace (Some u) (Some d) rangeInfo in
              compareRowsLoop fuel' rangeInfo None None upIt downIt
                (emitFix Replace sql acc)
            else
              compareRowsLoop fuel' rangeInfo (Some u) (Some d) upIt downIt
                (emitNothing acc)
          end
        end
      end
    end
  end.

Definition startAcc (dml : ChunkDML RangeInfo) : fixAcc :=
  {| a_sqls := sqls dml; a_fixes := []; a_rowsAdd := 0; a_rowsDelete := 0;
     a_equal := true |}.

(** [dml.sqls] is appended to as the merge goes; [dml.rowAdd] and
    [dml.rowDelete] are assigned after the loop only. *)
Definition compareRows (fuel : nat) (rangeInfo : RangeInfo)
  (dml : ChunkDML RangeInfo) : option (rowsResult RangeInfo) :=
  match upstream_GetRowsIterator rangeInfo with
  | inr err => Some (mkRowsResult dml [] false (Some (Trace err)))
  | inl upstreamRowsIterator =>
    match downstream_GetRowsIterator rangeInfo with
    | inr err => Some (mkRowsResult dml [] false (Some (Trace err)))
    | inl downstreamRowsIterator =>
      match compareRowsLoop fuel rangeInfo None None
              upstreamRowsIterator downstreamRowsIterator (startAcc dml) with
      | None => None
      | Some (acc, Some err) =>
        Some (mkRowsResult
                (mkChunkDML (node dml) (a_sqls acc) (rowAdd dml) (rowDelete dml))
                (a_fixes acc) false (Some err))
      | Some (acc, None) =>
        Some (mkRowsResult
                (mkChunkDML (node dml) (a_sqls acc) (a_rowsAdd acc) (a_rowsDelete acc))
                (a_fixes acc) (a_equal acc) None)
      end
    end
  end.

(** *** [Diff.consume] *)

Definition setState (state : NodeState) (dml : ChunkDML RangeInfo)
  : ChunkDML RangeInfo :=
  mkChunkDML (mkNode (ChunkRange (node dml)) state)
    (sqls dml) (rowAdd dml) (rowDelete dml).

(** The last three statements of [consume], shared by every path that
    passed the [chunk.Empty] test. *)
Definition finish (state : NodeState) (isEqual : bool)
  (dml : ChunkDML RangeInfo) (report : list ReportEvent)
  : consumeResult RangeInfo :=
  Emitted (setState state dml) isEqual
    (report ++ [SetTableDataCheckResult isEqual (rowAdd dml) (rowDelete dml)]).

Definition consume (fuel : nat) (rangeInfo : RangeInfo)
  : option (consumeResult RangeInfo) :=
  let dml := mkChunkDML (ToNode rangeInfo) [] 0 0 in
  match ChunkRange_Type rangeInfo with
  | chunk_Empty => Some (Emitted (setState IgnoreState dml) true [])
  | _ =>
    match checksum rangeInfo with
    | (isEqual, _, Some err) =>
      Some (finish FailedState isEqual dml [SetTableMeetError err])
    | (isEqual, count, None) =>
      if negb isEqual && exportFixSQL then
        let generated :=
          if count >? SplitThreshold then
            match BinGenerate fuel rangeInfo count with
            | None => None
            | Some FatalExit => Some None
            | Some (ErrorOf err) => Some (Some (rangeInfo, [SetTableMeetError err]))
            | Some (Ret info) => Some (Some (info, []))
            end
          else Some (Some (rangeInfo, [])) in
        match generated with
        | None => None
        | Some None => Some Exited
        | Some (Some (info, report)) =>
          match compareRows fuel info dml with
          | None => None
          | Some res =>
            let report :=
              match r_err res with
              | Some err => report ++ [SetTableMeetError err]
              | None => report
              end in
            Some (finish FailedState (isEqual && r_equal res) (r_dml res) report)
          end
        end
      else Some (finish SuccessState isEqual dml [])
    end
  end.

(** *** Properties of [binSearch] *)

Lemma traced_id (res : option (outcome RangeInfo)) : traced res = res.
Proof. destruct res as [[a|e|]|]; reflexivity. Qed.

(** More fuel does not change what [binSearch] returns. *)
Lemma binSearch_fuel_mono (fuel : nat) :
  forall tableRange count tableDiff indexColumns res,
    binSearch fuel tableRange count tableDiff indexColumns = Some res ->
    binSearch (S fuel) tableRange count tableDiff indexColumns = Some res.
Proof.
  induction fuel as [|fuel IH]; intros tableRange count tableDiff indexColumns res;
    [discriminate | ].
  remember (S fuel) as more eqn:Hmore.
  rewrite Hmore at 1. cbn [binSearch].
  destruct (count <=? SplitThreshold); [trivial | ].
  destruct (GetApproximateMidBySize _ _ _ _) as [mid|err]; [ | trivial].
  cbv zeta.
  destruct (checksum (tableRange1 _ _ mid _)) as [[e1 c1] [err1|]]; [trivial | ].
  destruct (checksum (tableRange2 _ _ mid _)) as [[e2 c2] [err2|]]; [trivial | ].
  destruct (negb (int64_add c1 c2 =? count)); [trivial | ].
  destruct (negb e1 && negb e2); [trivial | ].
  rewrite !traced_id. subst more.
  destruct (negb e1); [apply IH | ].
  destruct (negb e2); [apply IH | trivial].
Qed.

(** C2 (amended).  Once [binSearch] has split a range whose count exceeds
    the threshold and both halves were checksummed without error: if the two
    counts do not add up to the parent's count the run is fatal; if they do,
    then with both halves unequal the parent range is returned unchanged,
    with exactly one half unequal the result is that of the recursion on
    that half, and with both halves equal the run is fatal. *)
Theorem binSearch_split_cases (fuel : nat) (tableRange : RangeInfo) (count : Z)
  (tableDiff : TableDiff) (indexColumns : list ColumnInfo)
  (midValues : gmap string string) (isEqual1 isEqual2 : bool) (count1 count2 : Z) :
  SplitThreshold < count ->
  GetApproximateMidBySize tableDiff indexColumns tableRange count = inl midValues ->
  checksum (tableRange1 tableDiff indexColumns midValues tableRange)
    = (isEqual1, count1, None) ->
  checksum (tableRange2 tableDiff indexColumns midValues tableRange)
    = (isEqual2, count2, None) ->
  (int64_add count1 count2 <> count ->
     binSearch (S fuel) tableRange count tableDiff indexColumns = Some FatalExit) /\
  (int64_add count1 count2 = count ->
     (isEqual1 = false -> isEqual2 = false ->
        binSearch (S fuel) tableRange count tableDiff indexColumns
          = Some (Ret tableRange)) /\
     (isEqual1 = false -> isEqual2 = true ->
        binSearch (S fuel) tableRange count tableDiff indexColumns
          = binSearch fuel (tableRange1 tableDiff indexColumns midValues tableRange)
              count1 tableDiff indexColumns) /\
     (isEqual1 = true -> isEqual2 = false ->
        binSearch (S fuel) tableRange count tableDiff indexColumns
          = binSearch fuel (tableRange2 tableDiff indexColumns midValues tableRange)
              count2 tableDiff indexColumns) /\
     (isEqual1 = true -> isEqual2 = true ->
        binSearch (S fuel) tableRange count tableDiff indexColumns = Some FatalExit)).
Proof.
  intros Hcount Hmid Hsum1 Hsum2.
  assert (Hle : (count <=? SplitThreshold) = false) by (apply Z.leb_gt; exact Hcount).
  cbn [binSearch]. rewrite Hle, Hmid. cbv zeta. rewrite Hsum1, Hsum2.
  split.
  - intros Hne. apply Z.eqb_neq in Hne. rewrite Hne. reflexivity.
  - intros Heq. apply Z.eqb_eq in Heq. rewrite Heq. cbn [negb].
    repeat split; intros -> ->; cbn [negb andb]; try reflexivity; apply traced_id.
Qed.

(** *** Properties of [compareRows] *)

Lemma accInv_startAcc (dml : ChunkDML RangeInfo) : accInv (sqls dml) (startAcc dml).
Proof.
  unfold accInv, startAcc; cbn. rewrite app_nil_r. repeat split; reflexivity.
Qed.

Lemma deleteRest_inv (sqls0 : list string) (rangeInfo : RangeInfo)
  (it : RowDataIterator RowData) :
  forall d acc, accInv sqls0 acc -> accInv sqls0 (deleteRest rangeInfo d it acc).1.
Proof.
  induction it as [|[r|e] it IH]; intros d acc Hinv; cbn [deleteRest].
  - apply accInv_emitFix, Hinv.
  - apply IH, accInv_emitFix, Hinv.
  - apply accInv_emitFix, Hinv.
Qed.

Lemma insertRest_inv (sqls0 : list string) (rangeInfo : RangeInfo)
  (it : RowDataIterator RowData) :
  forall u acc, accInv sqls0 acc -> accInv sqls0 (insertRest rangeInfo u it acc).1.
Proof.
  induction it as [|[r|e] it IH]; intros u acc Hinv; cbn [insertRest].
  - apply accInv_emitFix, Hinv.
  - apply IH, accInv_emitFix, Hinv.
  - apply accInv_emitFix, Hinv.
Qed.

Lemma compareRowsLoop_inv (sqls0 : list string) (fuel : nat) :
  forall rangeInfo lastUp lastDown upIt downIt acc acc' err,
    accInv sqls0 acc ->
    compareRowsLoop fuel rangeInfo lastUp lastDown upIt downIt acc = Some (acc', err) ->
    accInv sqls0 acc'.
Proof.
  induction fuel as [|fuel IH]; intros rangeInfo lastUp lastDown upIt downIt acc acc' err Hinv;
    [discriminate | ].
  cbn [compareRowsLoop].
  destruct (fetch lastUp upIt) as [[u upIt']|e]; [ | intros [= <- _]; exact Hinv].
  destruct (fetch lastDown downIt) as [[d downIt']|e]; [ | intros [= <- _]; exact Hinv].
  destruct u as [u|], d as [d|].
  - destruct (CompareData rangeInfo u d) as [[eq cmp] oe].
    destruct eq, oe as [e|];
      try (intros [= <- _]; exact Hinv); [apply IH; exact Hinv | ].
    destruct (cmp =? 1); [apply IH; apply accInv_emitFix; exact Hinv | ].
    destruct (cmp =? -1); [apply IH; apply accInv_emitFix; exact Hinv | ].
    destruct (cmp =? 0); [apply IH; apply accInv_emitFix; exact Hinv | ].
    apply IH; apply accInv_emitNothing; exact Hinv.
  - intros [= Hrest]. pose proof (insertRest_inv sqls0 rangeInfo upIt' u acc Hinv) as Hi.
    rewrite Hrest in Hi. exact Hi.
  - intros [= Hrest]. pose proof (deleteRest_inv sqls0 rangeInfo downIt' d acc Hinv) as Hi.
    rewrite Hrest in Hi. exact Hi.
  - intros [= <- _]. exact Hinv.
Qed.

(** The error paths of the merge return [false]. *)
Lemma compareRows_error_false (fuel : nat) (rangeInfo : RangeInfo)
  (dml : ChunkDML RangeInfo) (res : rowsResult RangeInfo) :
  compareRows fuel rangeInfo dml = Some res ->
  r_err res <> None -> r_equal res = false.
Proof.
  unfold compareRows.
  destruct (upstream_GetRowsIterator rangeInfo) as [upIt|e]; [ | intros [= <-]; reflexivity].
  destruct (downstream_GetRowsIterator rangeInfo) as [downIt|e]; [ | intros [= <-]; reflexivity].
  destruct (compareRowsLoop _ _ _ _ _ _ _) as [[acc [e|]]|]; [ | | discriminate].
  - intros [= <-]. reflexivity.
  - intros [= <-]. cbn. congruence.
Qed.

(** C3 (amended).  Whenever [compareRows] returns without error, the
    [ChunkDML] it filled satisfies [rowAdd] = INSERT fixes + REPLACE fixes and
    [rowDelete] = DELETE fixes + REPLACE fixes, and the flag it returns is
    [true] exactly when it appended no fix; the statements in [dml.sqls] are
    those that were there followed by the appended ones; and when it returns
    an error the flag is [false]. *)
Theorem compareRows_counts (fuel : nat) (rangeInfo : RangeInfo)
  (dml : ChunkDML RangeInfo) (res : rowsResult RangeInfo) :
  compareRows fuel rangeInfo dml = Some res ->
  sqls (r_dml res) = sqls dml ++ map snd (r_fixes res) /\
  (r_err res = None ->
     rowAdd (r_dml res)
       = countKind Insert (r_fixes res) + countKind Replace (r_fixes res) /\
     rowDelete (r_dml res)
       = countKind Delete (r_fixes res) + countKind Replace (r_fixes res) /\
     (r_equal res = true <-> r_fixes res = [])) /\
  (r_err res <> None -> r_equal res = false).
Proof.
  intros Hrun.
  split; [ | split; [ | exact (compareRows_error_false _ _ _ _ Hrun)]];
    revert Hrun; unfold compareRows;
    destruct (upstream_GetRowsIterator rangeInfo) as [upIt|e];
    try (intros [= <-]; cbn; first [symmetry; apply app_nil_r | discriminate]);
    destruct (downstream_GetRowsIterator rangeInfo) as [downIt|e];
    try (intros [= <-]; cbn; first [symmetry; apply app_nil_r | discriminate]);
    destruct (compareRowsLoop _ _ _ _ _ _ _) as [[acc err]|] eqn:Hloop;
    try discriminate;
    pose proof (compareRowsLoop_inv _ _ _ _ _ _ _ _ _ _ (accInv_startAcc dml) Hloop)
      as (Hsqls & Hadd & Hdel & Heq);
    destruct err as [e|]; intros [= <-]; cbn; try discriminate; auto.
Qed.

(** The merge ends: when [CompareData] answers 1, -1 or 0 for rows it finds
    different, one unit of fuel per row of the two iterators (and one more)
    is enough for [compareRows] to return. *)
Definition held (last : option RowData) : nat :=
  match last with Some _ => 1%nat | None => 0%nat end.

Definition cmpIsSign : Prop :=
  forall rangeInfo u d cmp,
    CompareData rangeInfo u d = (false, cmp, None) -> cmp = 1 \/ cmp = -1 \/ cmp = 0.

Lemma fetch_measure (last : option RowData) (it : RowDataIterator RowData)
  (last' : option RowData) (it' : RowDataIterator RowData) :
  fetch last it = inl (last', it') ->
  (held last' + length it' <= held last + length it)%nat.
Proof.
  unfold fetch. destruct last as [r|].
  - intros [= <- <-]. lia.
  - destruct it as [|[r|e] it0]; intros [= <- <-]; cbn; lia.
Qed.

Lemma compareRowsLoop_returns (Hsign : cmpIsSign) (fuel : nat) :
  forall rangeInfo lastUp lastDown upIt downIt acc,
    (held lastUp + held lastDown + length upIt + length downIt < fuel)%nat ->
    exists out,
      compareRowsLoop fuel rangeInfo lastUp lastDown upIt downIt acc = Some out.
Proof.
  induction fuel as [|fuel IH]; intros rangeInfo lastUp lastDown upIt downIt acc Hfuel;
    [lia | ].
  cbn [compareRowsLoop].
  destruct (fetch lastUp upIt) as [[u upIt']|e] eqn:Hup; [ | eauto].
  destruct (fetch lastDown downIt) as [[d downIt']|e] eqn:Hdown; [ | eauto].
  apply fetch_measure in Hup, Hdown.
  destruct u as [u|], d as [d|]; eauto.
  destruct (CompareData rangeInfo u d) as [[eq cmp] oe] eqn:Hcmp.
  cbn [held] in Hup, Hdown.
  destruct eq, oe as [e|]; eauto.
  - apply IH. cbn [held]. lia.
  - destruct (Hsign _ _ _ _ Hcmp) as [-> | [-> | ->]]; cbn;
      apply IH; cbn [held]; lia.
Qed.

(** [compareRows] returns: with more fuel than the two iterators hold
    results, and a [CompareData] that answers 1, -1 or 0 for rows it finds
    different, the merge loop ends. *)
Theorem compareRows_returns (Hsign : cmpIsSign) (fuel : nat)
  (rangeInfo : RangeInfo) (dml : ChunkDML RangeInfo) :
  (forall upIt downIt,
     upstream_GetRowsIterator rangeInfo = inl upIt ->
     downstream_GetRowsIterator rangeInfo = inl downIt ->
     (length upIt + length downIt < fuel)%nat) ->
  exists res, compareRows fuel rangeInfo dml = Some res.
Proof.
  intros Hfuel. unfold compareRows.
  destruct (upstream_GetRowsIterator rangeInfo) as [upIt|e]; [ | eauto].
  destruct (downstream_GetRowsIterator rangeInfo) as [downIt|e]; [ | eauto].
  destruct (compareRowsLoop_returns Hsign fuel rangeInfo None None upIt downIt
              (startAcc dml)) as [[acc err] Hout].
  - cbn [held]. specialize (Hfuel upIt downIt eq_refl eq_refl). lia.
  - rewrite Hout. destruct err; eauto.
Qed.

(** *** Properties of [consume] *)

(** The state [consume] gives the node, read off the checksum stage. *)
Definition stateOf (rangeInfo : RangeInfo) : NodeState :=
  match ChunkRange_Type rangeInfo with
  | chunk_Empty => IgnoreState
  | _ =>
    match checksum rangeInfo with
    | (_, _, Some _) => FailedState
    | (isEqual, _, None) =>
      if negb isEqual && exportFixSQL then FailedState else SuccessState
    end
  end.

Lemma consume_emits (fuel : nat) (rangeInfo : RangeInfo)
  (dml : ChunkDML RangeInfo) (isEqual : bool) (report : list ReportEvent) :
  consume fuel rangeInfo = Some (Emitted dml isEqual report) ->
  State (node dml) = stateOf rangeInfo /\
  (sqls dml <> [] -> State (node dml) = FailedState).
Proof.
  unfold consume, stateOf, finish.
  assert (Hempty : forall st,
             sqls (setState st (mkChunkDML (ToNode rangeInfo) [] 0 0)) <> [] -> False)
    by (intros st Hne; apply Hne; reflexivity).
  destruct (checksum rangeInfo) as [[eq count] [err|]];
    [ destruct (ChunkRange_Type rangeInfo); intros [= <- _ _]; cbn;
      (split; [reflexivity | first [reflexivity | intros Hne; destruct (Hne eq_refl)]])
    | ].
  destruct (negb eq && exportFixSQL);
    [ | destruct (ChunkRange_Type rangeInfo); intros [= <- _ _]; cbn;
        (split; [reflexivity | intros Hne; destruct (Hne eq_refl)]) ].
  destruct (ChunkRange_Type rangeInfo);
    try (intros [= <- _ _]; cbn; split; [reflexivity | intros Hne; destruct (Hne eq_refl)]);
    (destruct (count >? SplitThreshold);
     [ destruct (BinGenerate fuel rangeInfo count) as [[info|err|]|]; try discriminate | ];
     (destruct (compareRows fuel _ _) as [res|]; [ | discriminate ]);
     intros [= <- _ _]; cbn; split; reflexivity).
Qed.

(** Without an error of the checksum stage, and unless the checksums differ
    with [ExportFixSQL] on, [consume] reads no row: it sends the [ChunkDML]
    as it built it, with a [Success] node, returns what the checksum stage
    answered and reports that answer with no row added or deleted. *)
Lemma consume_skips_rows (fuel : nat) (rangeInfo : RangeInfo)
  (dml : ChunkDML RangeInfo) (isEqual : bool) (report : list ReportEvent) :
  consume fuel rangeInfo = Some (Emitted dml isEqual report) ->
  ChunkRange_Type rangeInfo <> chunk_Empty ->
  (checksum rangeInfo).2 = None ->
  negb (checksum rangeInfo).1.1 && exportFixSQL = false ->
  dml = setState SuccessState (mkChunkDML (ToNode rangeInfo) [] 0 0) /\
  isEqual = (checksum rangeInfo).1.1 /\
  report = [SetTableDataCheckResult (checksum rangeInfo).1.1 0 0].
Proof.
  unfold consume, finish.
  destruct (checksum rangeInfo) as [[eq count] [err|]]; cbn [fst snd];
    intros Hrun Htype Herr Hskip; [discriminate | ].
  rewrite Hskip in Hrun.
  destruct (ChunkRange_Type rangeInfo); try congruence;
    injection Hrun as <- <- <-; repeat split.
Qed.

(** C1 (amended).  For every [ChunkDML] that [consume] emits, the node is
    [Failed] exactly when the range is not [Empty] and the checksum stage
    either returned an error or found a mismatch with [ExportFixSQL] on
    (whether or not the row comparison then appended a fix); a non-empty
    [sqls] always comes with a [Failed] node; the node is [Success] exactly
    when the range is not [Empty], the checksum stage returned no error and
    either found no mismatch or [ExportFixSQL] is off, so that with
    [ExportFixSQL] off a mismatch leaves the node [Success], with an empty
    [sqls]; and the node is [Ignore] exactly when the range is [Empty]. *)
Theorem consume_failed_iff (fuel : nat) (rangeInfo : RangeInfo)
  (dml : ChunkDML RangeInfo) (isEqual : bool) (report : list ReportEvent) :
  consume fuel rangeInfo = Some (Emitted dml isEqual report) ->
  (State (node dml) = FailedState <->
     ChunkRange_Type rangeInfo <> chunk_Empty /\
     ((checksum rangeInfo).2 <> None \/
      ((checksum rangeInfo).1.1 = false /\ exportFixSQL = true))) /\
  (sqls dml <> [] -> State (node dml) = FailedState) /\
  (State (node dml) = SuccessState <->
     ChunkRange_Type rangeInfo <> chunk_Empty /\
     (checksum rangeInfo).2 = None /\
     ((checksum rangeInfo).1.1 = true \/ exportFixSQL = false)) /\
  (ChunkRange_Type rangeInfo <> chunk_Empty ->
   (checksum rangeInfo).2 = None ->
   (checksum rangeInfo).1.1 = false ->
   exportFixSQL = false ->
     State (node dml) = SuccessState /\ sqls dml = []) /\
  (State (node dml) = IgnoreState <-> ChunkRange_Type rangeInfo = chunk_Empty).
Proof.
  intros Hrun. destruct (consume_emits _ _ _ _ _ Hrun) as [Hstate Hsqls].
  split; [ | split; [exact Hsqls | split; [ | split]]].
  - rewrite Hstate. unfold stateOf.
    destruct (checksum rangeInfo) as [[eq count] [err|]]; cbn [fst snd];
      destruct (ChunkRange_Type rangeInfo); try destruct eq; try destruct exportFixSQL;
      cbn; split; try discriminate; try tauto; try (intros _; split; [discriminate | ]);
      try (left; discriminate); try (right; split; reflexivity);
      intros [_ [Hc | [Hc1 Hc2]]]; congruence.
  - rewrite Hstate. unfold stateOf.
    destruct (checksum rangeInfo) as [[eq count] [err|]]; cbn [fst snd];
      destruct (ChunkRange_Type rangeInfo); try destruct eq; try destruct exportFixSQL;
      cbn; split; try discriminate; try tauto;
      try (intros _; split; [discriminate | split; [reflexivity | auto]]);
      try (intros (_ & Hc & _); discriminate);
      intros (_ & _ & [Hc | Hc]); discriminate.
  - intros Htype Herr Heq Hexport.
    destruct (consume_skips_rows _ _ _ _ _ Hrun Htype Herr) as (-> & _ & _);
      [rewrite Hexport; apply andb_false_r | split; reflexivity].
  - rewrite Hstate. unfold stateOf.
    destruct (checksum rangeInfo) as [[eq count] [err|]]; cbn [fst snd];
      destruct (ChunkRange_Type rangeInfo); try destruct eq; try destruct exportFixSQL;
      cbn; split; try discriminate; try reflexivity.
Qed.


(** *** Further properties of the pipeline *)

(** [consume] returns [true] exactly for an [Empty] range and for a range on
    which both sides answered the same count and CRC32. *)
Theorem consume_returns_equal (fuel : nat) (rangeInfo : RangeInfo)
  (dml : ChunkDML RangeInfo) (isEqual : bool) (report : list ReportEvent) :
  consume fuel rangeInfo = Some (Emitted dml isEqual report) ->
  (isEqual = true <->
     ChunkRange_Type rangeInfo = chunk_Empty \/
     checksumsAgree upstream_GetCountAndCrc32 downstream_GetCountAndCrc32 rangeInfo).
Proof.
  rewrite <- compareChecksum_equal_iff. unfold consume, finish.
  assert (Herr : forall e, (checksum rangeInfo).2 = Some e -> (checksum rangeInfo).1.1 = false).
  { unfold compareChecksumAndGetCount.
    destruct (Err (upstream_GetCountAndCrc32 rangeInfo)); [reflexivity | ].
    destruct (Err (downstream_GetCountAndCrc32 rangeInfo)); [reflexivity | ].
    destruct (_ && _); discriminate. }
  destruct (checksum rangeInfo) as [[eq count] [err|]]; cbn [fst snd] in *.
  - rewrite (Herr err eq_refl).
    destruct (ChunkRange_Type rangeInfo); intros [= _ <- _];
      split; auto; intros [? | ?]; congruence.
  - destruct eq, exportFixSQL; cbn [negb andb].
    1, 2, 4: destruct (ChunkRange_Type rangeInfo); intros [= _ <- _];
      split; auto; intros [? | ?]; congruence.
    destruct (ChunkRange_Type rangeInfo);
      try (intros [= _ <- _]; split; auto; intros [? | ?]; congruence).
    all: destruct (count >? SplitThreshold).
    all: try (destruct (BinGenerate fuel rangeInfo count) as [[info|err|]|];
              try discriminate).
    all: (destruct (compareRows fuel _ _) as [res|]; [ | discriminate ]).
    all: intros [= _ <- _]; split; [discriminate | intros [? | ?]; congruence].
Qed.

(** A range reached from [tableRange] by taking halves. *)
Inductive descends (tableDiff : TableDiff) (indexColumns : list ColumnInfo)
  : RangeInfo -> RangeInfo -> Prop :=
| descends_here (r : RangeInfo) : descends tableDiff indexColumns r r
| descends_half1 (r r' : RangeInfo) (midValues : gmap string string) :
    descends tableDiff indexColumns (tableRange1 tableDiff indexColumns midValues r) r' ->
    descends tableDiff indexColumns r r'
| descends_half2 (r r' : RangeInfo) (midValues : gmap string string) :
    descends tableDiff indexColumns (tableRange2 tableDiff indexColumns midValues r) r' ->
    descends tableDiff indexColumns r r'.

(** The checksum of the range was computed without error and differs. *)
Definition mismatched (r : RangeInfo) : Prop :=
  (checksum r).1.1 = false /\ (checksum r).2 = None.

(** The range [binSearch] returns is reached from its argument by taking
    halves, and unless it is the argument itself its two sides were
    checksummed without error and found different. *)
Lemma binSearch_descends (fuel : nat) :
  forall tableRange count tableDiff indexColumns found,
    binSearch fuel tableRange count tableDiff indexColumns = Some (Ret found) ->
    descends tableDiff indexColumns tableRange found /\
    (found = tableRange \/ mismatched found).
Proof.
  induction fuel as [|fuel IH]; intros tableRange count tableDiff indexColumns found;
    [discriminate | ].
  cbn [binSearch].
  destruct (count <=? SplitThreshold);
    [intros [= <-]; split; [constructor | auto] | ].
  destruct (GetApproximateMidBySize _ _ _ _) as [mid|err]; [ | discriminate].
  cbv zeta.
  destruct (checksum (tableRange1 _ _ mid _)) as [[e1 c1] [err1|]] eqn:H1; [discriminate | ].
  destruct (checksum (tableRange2 _ _ mid _)) as [[e2 c2] [err2|]] eqn:H2; [discriminate | ].
  destruct (negb (int64_add c1 c2 =? count)); [discriminate | ].
  destruct e1, e2; cbn [negb andb]; try discriminate; rewrite ?traced_id.
  - intros Hrec. destruct (IH _ _ _ _ _ Hrec) as [Hd [-> | Hm]].
    + split; [eapply descends_half2; exact Hd | right].
      unfold mismatched. rewrite H2. auto.
    + split; [eapply descends_half2; exact Hd | auto].
  - intros Hrec. destruct (IH _ _ _ _ _ Hrec) as [Hd [-> | Hm]].
    + split; [eapply descends_half1; exact Hd | right].
      unfold mismatched. rewrite H1. auto.
    + split; [eapply descends_half1; exact Hd | auto].
  - intros [= <-]. split; [constructor | auto].
Qed.

(** [BinGenerate] hands back the range it was given or a mismatched range
    reached from it by taking halves along the columns of the range's own
    index, which then is a primary or unique index of the table; a range
    of at most [SplitThreshold] rows comes back as it is. *)
Theorem BinGenerate_result (fuel : nat) (tableRange : RangeInfo) (count : Z)
  (found : RangeInfo) :
  BinGenerate fuel tableRange count = Some (Ret found) ->
  (count <= SplitThreshold -> found = tableRange) /\
  (found = tableRange \/
   mismatched found /\
   exists index,
     In index (FindAllIndex (workSource_table tableRange)) /\
     ID index = IndexID tableRange /\
     (Primary index = true \/ Unique index = true) /\
     descends (workSource_table tableRange)
       (GetColumnsFromIndex index (workSource_table tableRange)) tableRange found).
Proof.
  unfold BinGenerate.
  destruct (Z.leb_spec count SplitThreshold) as [Hle|Hgt];
    [intros [= <-]; auto | ].
  intros Hrun. split; [lia | ]. revert Hrun.
  destruct (Z.of_nat (length (FindAllIndex (workSource_table tableRange))) =? 0);
    [intros [= <-]; auto | ].
  destruct (List.find _ _) as [index|] eqn:Hfind; [ | intros [= <-]; auto].
  apply List.find_some in Hfind as [Hin Hid]. apply Z.eqb_eq in Hid.
  destruct (Primary index || Unique index) eqn:Hpu; cbn [negb];
    [ | intros [= <-]; auto].
  destruct (Z.of_nat (length (GetColumnsFromIndex index (workSource_table tableRange))) =? 0);
    [intros [= <-]; auto | ].
  intros Hrun. destruct (binSearch_descends _ _ _ _ _ _ Hrun) as [Hd [-> | Hm]]; [auto | ].
  right. split; [exact Hm | ]. exists index. repeat split; auto.
  apply orb_true_iff in Hpu. exact Hpu.
Qed.

(** *** The row counts and the flag of [compareRows] *)

Lemma deleteRest_counts (rangeInfo : RangeInfo) (it : RowDataIterator RowData) :
  forall d acc acc',
    deleteRest rangeInfo d it acc = (acc', None) ->
    a_rowsAdd acc' = a_rowsAdd acc /\
    a_rowsDelete acc' = a_rowsDelete acc + 1 + Z.of_nat (length it) /\
    a_equal acc' = false.
Proof.
  induction it as [|[r|e] it IH]; intros d acc acc'; cbn [deleteRest].
  - intros [= <-]. cbn. repeat split; lia.
  - intros Hrest. destruct (IH _ _ _ Hrest) as (Ha & Hd & He).
    rewrite Ha, Hd, He. cbn [emitFix a_rowsAdd a_rowsDelete length]. repeat split; lia.
  - discriminate.
Qed.

Lemma insertRest_counts (rangeInfo : RangeInfo) (it : RowDataIterator RowData) :
  forall u acc acc',
    insertRest rangeInfo u it acc = (acc', None) ->
    a_rowsAdd acc' = a_rowsAdd acc + 1 + Z.of_nat (length it) /\
    a_rowsDelete acc' = a_rowsDelete acc /\
    a_equal acc' = false.
Proof.
  induction it as [|[r|e] it IH]; intros u acc acc'; cbn [insertRest].
  - intros [= <-]. cbn. repeat split; lia.
  - intros Hrest. destruct (IH _ _ _ Hrest) as (Ha & Hd & He).
    rewrite Ha, Hd, He. cbn [emitFix a_rowsAdd a_rowsDelete length]. repeat split; lia.
  - discriminate.
Qed.

Lemma fetch_length (last : option RowData) (it : RowDataIterator RowData)
  (last' : option RowData) (it' : RowDataIterator RowData) :
  fetch last it = inl (last', it') ->
  (held last' + length it' = held last + length it)%nat.
Proof.
  unfold fetch. destruct last as [r|].
  - intros [= <- <-]. reflexivity.
  - destruct it as [|[r|e] it0]; intros [= <- <-]; cbn; lia.
Qed.

Lemma fetch_none (last : option RowData) (it it' : RowDataIterator RowData) :
  fetch last it = inl (None, it') -> last = None /\ it = [] /\ it' = [].
Proof.
  unfold fetch. destruct last as [r|]; [discriminate | ].
  destruct it as [|[r|e] it0]; intros [=]; subst; auto.
Qed.

Lemma compareRowsLoop_balance (fuel : nat) :
  forall rangeInfo lastUp lastDown upIt downIt acc acc',
    compareRowsLoop fuel rangeInfo lastUp lastDown upIt downIt acc = Some (acc', None) ->
    a_rowsAdd acc' - a_rowsDelete acc'
      = a_rowsAdd acc - a_rowsDelete acc
        + Z.of_nat (held lastUp + length upIt)
        - Z.of_nat (held lastDown + length downIt).
Proof.
  induction fuel as [|fuel IH]; intros rangeInfo lastUp lastDown upIt downIt acc acc';
    [discriminate | ].
  cbn [compareRowsLoop].
  destruct (fetch lastUp upIt) as [[u upIt']|e] eqn:Hup; [ | discriminate].
  destruct (fetch lastDown downIt) as [[d downIt']|e] eqn:Hdown; [ | discriminate].
  pose proof (fetch_length _ _ _ _ Hup) as Hlu.
  pose proof (fetch_length _ _ _ _ Hdown) as Hld.
  rewrite <- Hlu, <- Hld.
  destruct u as [u|], d as [d|]; cbn [held].
  - destruct (CompareData rangeInfo u d) as [[eq cmp] oe].
    destruct eq, oe as [e|]; try discriminate.
    + intros Hrec. rewrite (IH _ _ _ _ _ _ _ Hrec). cbn [held]. lia.
    + destruct (cmp =? 1); [ | destruct (cmp =? -1); [ | destruct (cmp =? 0)]];
        intros Hrec; rewrite (IH _ _ _ _ _ _ _ Hrec);
        cbn [held emitFix emitNothing a_rowsAdd a_rowsDelete]; lia.
  - destruct (fetch_none _ _ _ Hdown) as (_ & _ & ->).
    intros [= Hrest]. destruct (insertRest_counts _ _ _ _ _ Hrest) as (Ha & Hd & _).
    cbn [length]. lia.
  - destruct (fetch_none _ _ _ Hup) as (_ & _ & ->).
    intros [= Hrest]. destruct (deleteRest_counts _ _ _ _ _ Hrest) as (Ha & Hd & _).
    cbn [length]. lia.
  - destruct (fetch_none _ _ _ Hup) as (_ & _ & ->).
    destruct (fetch_none _ _ _ Hdown) as (_ & _ & ->).
    intros [= <-]. cbn [length]. lia.
Qed.

(** When [compareRows] returns without error, [rowAdd - rowDelete] is the
    number of rows the upstream iterator yielded minus the number the
    downstream iterator yielded. *)
Theorem compareRows_balance (fuel : nat) (rangeInfo : RangeInfo)
  (dml : ChunkDML RangeInfo) (res : rowsResult RangeInfo)
  (upIt downIt : RowDataIterator RowData) :
  upstream_GetRowsIterator rangeInfo = inl upIt ->
  downstream_GetRowsIterator rangeInfo = inl downIt ->
  compareRows fuel rangeInfo dml = Some res ->
  r_err res = None ->
  rowAdd (r_dml res) - rowDelete (r_dml res)
    = Z.of_nat (length upIt) - Z.of_nat (length downIt).
Proof.
  intros Hup Hdown. unfold compareRows. rewrite Hup, Hdown.
  destruct (compareRowsLoop _ _ _ _ _ _ _) as [[acc [e|]]|] eqn:Hloop;
    intros [= <-]; cbn; try discriminate. intros _.
  rewrite (compareRowsLoop_balance _ _ _ _ _ _ _ _ Hloop). cbn. lia.
Qed.

(** The rows in hand and to come, as an iterator. *)
Definition ahead (last : option RowData) (it : RowDataIterator RowData)
  : RowDataIterator RowData :=
  match last with
  | Some r => NextRow r :: it
  | None => it
  end.

(** Two results of [Next] are rows that [CompareData] finds equal. *)
Definition sameRow (rangeInfo : RangeInfo) (a b : NextResult RowData) : Prop :=
  match a, b with
  | NextRow u, NextRow d => exists cmp, CompareData rangeInfo u d = (true, cmp, None)
  | _, _ => False
  end.

Lemma fetch_ahead (last : option RowData) (it : RowDataIterator RowData)
  (last' : option RowData) (it' : RowDataIterator RowData) :
  fetch last it = inl (last', it') -> ahead last it = ahead last' it'.
Proof.
  unfold fetch, ahead. destruct last as [r|].
  - intros [= <- <-]. reflexivity.
  - destruct it as [|[r|e] it0]; intros [= <- <-]; reflexivity.
Qed.

Lemma compareRowsLoop_equal (fuel : nat) :
  forall rangeInfo lastUp lastDown upIt downIt acc acc',
    compareRowsLoop fuel rangeInfo lastUp lastDown upIt downIt acc = Some (acc', None) ->
    (a_equal acc' = true <->
     a_equal acc = true /\
     List.Forall2 (sameRow rangeInfo) (ahead lastUp upIt) (ahead lastDown downIt)).
Proof.
  induction fuel as [|fuel IH]; intros rangeInfo lastUp lastDown upIt downIt acc acc';
    [discriminate | ].
  cbn [compareRowsLoop].
  destruct (fetch lastUp upIt) as [[u upIt']|e] eqn:Hup; [ | discriminate].
  destruct (fetch lastDown downIt) as [[d downIt']|e] eqn:Hdown; [ | discriminate].
  rewrite (fetch_ahead _ _ _ _ Hup), (fetch_ahead _ _ _ _ Hdown).
  destruct u as [u|], d as [d|]; cbn [ahead].
  - destruct (CompareData rangeInfo u d) as [[eq cmp] oe] eqn:Hcmp.
    destruct eq, oe as [e|]; try discriminate.
    + intros Hrec. rewrite (IH _ _ _ _ _ _ _ Hrec). cbn [ahead].
      split; intros [He Hall]; (split; [exact He | ]).
      * constructor; [exists cmp; exact Hcmp | exact Hall].
      * inversion Hall; assumption.
    + assert (Hno : ~ List.Forall2 (sameRow rangeInfo)
                      (NextRow u :: upIt') (NextRow d :: downIt')).
      { intros Hall. inversion Hall as [|? ? ? ? Hsame ?]; subst.
        cbn [sameRow] in Hsame. destruct Hsame as [c Hc].
        rewrite Hcmp in Hc. discriminate. }
      destruct (cmp =? 1); [ | destruct (cmp =? -1); [ | destruct (cmp =? 0)]];
        intros Hrec; rewrite (IH _ _ _ _ _ _ _ Hrec);
        cbn [emitFix emitNothing a_equal];
        (split; [intros [[=] _] | intros [_ Hall]; destruct (Hno Hall)]).
  - destruct (fetch_none _ _ _ Hdown) as (_ & _ & ->).
    intros [= Hrest]. destruct (insertRest_counts _ _ _ _ _ Hrest) as (_ & _ & ->).
    split; [discriminate | intros [_ Hall]; inversion Hall].
  - destruct (fetch_none _ _ _ Hup) as (_ & _ & ->).
    intros [= Hrest]. destruct (deleteRest_counts _ _ _ _ _ Hrest) as (_ & _ & ->).
    split; [discriminate | intros [_ Hall]; inversion Hall].
  - destruct (fetch_none _ _ _ Hup) as (_ & _ & ->).
    destruct (fetch_none _ _ _ Hdown) as (_ & _ & ->).
    intros [= <-]. split; [intros He; split; [exact He | constructor] | intros [He _]; exact He].
Qed.

(** When [compareRows] returns without error, it returns [true] exactly when
    the two iterators yielded the same number of rows and [CompareData] found
    the rows at the same position equal, pair by pair. *)
Theorem compareRows_equal_iff (fuel : nat) (rangeInfo : RangeInfo)
  (dml : ChunkDML RangeInfo) (res : rowsResult RangeInfo)
  (upIt downIt : RowDataIterator RowData) :
  upstream_GetRowsIterator rangeInfo = inl upIt ->
  downstream_GetRowsIterator rangeInfo = inl downIt ->
  compareRows fuel rangeInfo dml = Some res ->
  r_err res = None ->
  (r_equal res = true <-> List.Forall2 (sameRow rangeInfo) upIt downIt).
Proof.
  intros Hup Hdown. unfold compareRows. rewrite Hup, Hdown.
  destruct (compareRowsLoop _ _ _ _ _ _ _) as [[acc [e|]]|] eqn:Hloop;
    intros [= <-]; cbn [r_err r_equal]; try discriminate. intros _.
  rewrite (compareRowsLoop_equal _ _ _ _ _ _ _ _ Hloop). cbn [ahead startAcc a_equal].
  split; [intros [_ Hall]; exact Hall | intros Hall; split; [reflexivity | exact Hall]].
Qed.

End Pipeline.

End Batch.

(** ** Batch mode on a concrete table

    Table [t(id, v)] with a unique index on [id]; a range is the pair of its
    bounds on [id], a row the pair [(id, v)]. *)

Module BatchScenario.
Import Batch.

Record Range := mkRange {
  lowerBound : string;
  upperBound : string;
  rangeType : ChunkType
}.

Definition Row := (Z * string)%type.

Definition whole : Range := mkRange "" "" chunk_Others.

Definition threshold : Z := 1000.

Definition updateRange (_ : unit) (r : Range) (column lower upper : string)
  (updateLower updateUpper : bool) : Range :=
  mkRange (if updateLower then lower else lowerBound r)
          (if updateUpper then upper else upperBound r)
          (rangeType r).

(** The approximate median of [id] is 2000 wherever it is asked. *)
Definition midOf (_ : unit) (_ : list string) (_ : Range) (_ : Z)
  : gmap string string + error :=
  inl {[ "id" := "2000" ]}.

Definition leftHalf : Range := mkRange "" "2000" chunk_Others.
Definition rightHalf : Range := mkRange "2000" "" chunk_Others.

(** A source's checksum answers, listed by bounds. *)
Definition answer (answers : list (string * string * ChecksumInfo)) (r : Range)
  : ChecksumInfo :=
  match List.find (fun a => String.eqb a.1.1 (lowerBound r)
                            && String.eqb a.1.2 (upperBound r)) answers with
  | Some a => a.2
  | None => mkChecksumInfo 0 0 None
  end.

(** Rows compare by [id], then by [v]. *)
Definition compareById (_ : Range) (u d : Row) : bool * Z * option error :=
  if (u.1 =? d.1) && String.eqb u.2 d.2 then (true, 0, None)
  else (false, if u.1 <? d.1 then -1 else if d.1 <? u.1 then 1 else 0, None).

Definition fixSQL (kind : DMLType) (_ _ : option Row) (_ : Range) : string :=
  match kind with
  | Insert => "INSERT"
  | Delete => "DELETE"
  | Replace => "REPLACE"
  end.

Definition rowsOf (rows : list Row) (_ : Range) : RowDataIterator Row + error :=
  inl (List.map NextRow rows).

Definition freshDML (r : Range) : ChunkDML Range :=
  mkChunkDML (mkNode r UnsetState) [] 0 0.

Definition runBinSearch (up down : Range -> ChecksumInfo) (fuel : nat)
  (r : Range) (count : Z) : option (outcome Range) :=
  binSearch threshold (fun c : string => c) midOf updateRange up down
    fuel r count tt ["id"].

Definition runCompareRows (up down : Range -> RowDataIterator Row + error)
  (fuel : nat) (r : Range) : option (rowsResult Range) :=
  compareRows up down fixSQL compareById fuel r (freshDML r).

Definition runConsume (exportFixSQL : bool) (up down : Range -> ChecksumInfo)
  (upRows downRows : Range -> RowDataIterator Row + error)
  (fuel : nat) (r : Range) : option (consumeResult Range) :=
  consume threshold exportFixSQL rangeType (fun _ => 1)
    (fun r => mkNode r UnsetState) (fun _ => tt)
    (fun _ => [mkIndexInfo 1 true true]) (fun _ _ => ["id"])
    (fun c : string => c) midOf updateRange up down upRows downRows
    fixSQL compareById fuel r.

(** The index on [id] is unique but nullable: the whole range holds 2001
    rows, one of them with a NULL [id], which neither half (bounded on [id])
    holds; both halves differ between the two sides. *)
Definition nullKeyUp : Range -> ChecksumInfo :=
  answer [("", "", mkChecksumInfo 7 2001 None);
          ("", "2000", mkChecksumInfo 1 1000 None);
          ("2000", "", mkChecksumInfo 2 1000 None)].

Definition nullKeyDown : Range -> ChecksumInfo :=
  answer [("", "", mkChecksumInfo 8 2001 None);
          ("", "2000", mkChecksumInfo 3 1000 None);
          ("2000", "", mkChecksumInfo 4 1000 None)].

(** Two rows on each side with the same count and different CRC32. *)
Definition smallUp : Range -> ChecksumInfo :=
  answer [("", "", mkChecksumInfo 5 2 None)].

Definition smallDown : Range -> ChecksumInfo :=
  answer [("", "", mkChecksumInfo 6 2 None)].

Example nullKey_halves :
  updateRange tt whole "id" "" "2000" false true = leftHalf /\
  updateRange tt whole "id" "2000" "" true false = rightHalf.
Proof. split; reflexivity. Qed.

(** C2, as stated, fails: both halves are checksummed without error and
    both are unequal, yet [binSearch] does not return the parent range, it
    ends the process, because the counts of the halves (1000 and 1000) do not
    add up to the count of the parent (2001). *)
Lemma binSearch_both_unequal_fatal :
  compareChecksumAndGetCount nullKeyUp nullKeyDown whole = (false, 2001, None) /\
  compareChecksumAndGetCount nullKeyUp nullKeyDown leftHalf = (false, 1000, None) /\
  compareChecksumAndGetCount nullKeyUp nullKeyDown rightHalf = (false, 1000, None) /\
  runBinSearch nullKeyUp nullKeyDown 3 whole 2001 = Some FatalExit /\
  runBinSearch nullKeyUp nullKeyDown 3 whole 2001 <> Some (Ret whole).
Proof. repeat split; try reflexivity. vm_compute. discriminate. Qed.

(** The amended C2 at a concrete split: the halves hold 1000 rows each, the
    parent 2000, both halves are unequal, and the parent comes back. *)
Lemma binSearch_split_cases_witness :
  threshold < 2000 /\
  int64_add 1000 1000 = 2000 /\
  runBinSearch nullKeyUp nullKeyDown 1 whole 2000 = Some (Ret whole).
Proof.
  split; [reflexivity | split; [reflexivity | ]].
  refine (proj1 (proj2
    (binSearch_split_cases threshold (fun c : string => c) midOf updateRange
       nullKeyUp nullKeyDown 0 whole 2000 tt ["id"] {[ "id" := "2000" ]}
       false false 1000 1000 _ _ _ _) _) _ _); reflexivity.
Defined.

(** The upstream iterator cannot be opened. *)
Definition brokenRows (_ : Range) : RowDataIterator Row + error :=
  inr "invalid connection".

(** C3, as stated, fails: on a range whose upstream iterator cannot be
    opened [compareRows] appends no fix and still returns [false]. *)
Lemma compareRows_error_not_equal :
  exists res,
    runCompareRows brokenRows (rowsOf [(1, "a")]) 3 whole = Some res /\
    r_fixes res = [] /\ sqls (r_dml res) = [] /\ r_equal res = false.
Proof. eexists. repeat split. Qed.

(** The amended C3 on upstream [(1,a), (2,b)] against downstream [(1,a)]:
    one INSERT, [rowAdd = 1], [rowDelete = 0], not equal. *)
Lemma compareRows_counts_witness :
  exists res,
    runCompareRows (rowsOf [(1, "a"); (2, "b")]) (rowsOf [(1, "a")]) 3 whole
      = Some res /\
    r_err res = None /\
    sqls (r_dml res) = ["INSERT"] /\
    rowAdd (r_dml res) = countKind Insert (r_fixes res) + countKind Replace (r_fixes res) /\
    rowDelete (r_dml res) = countKind Delete (r_fixes res) + countKind Replace (r_fixes res) /\
    (r_equal res = true <-> r_fixes res = []).
Proof.
  eexists. split; [reflexivity | ]. split; [reflexivity | ].
  split; [reflexivity | ].
  exact (proj1 (proj2
    (compareRows_counts (rowsOf [(1, "a"); (2, "b")]) (rowsOf [(1, "a")])
       fixSQL compareById 3 whole (freshDML whole) _ eq_refl)) eq_refl).
Defined.

(** C1, as stated, fails: the checksums differ (same count, different
    CRC32), [ExportFixSQL] is on, the rows read afterwards are the same on
    both sides, so no fix is appended; the checksum stage returned no error;
    and the node is [Failed]. *)
Lemma consume_failed_without_sqls :
  exists dml isEqual report,
    runConsume true smallUp smallDown
      (rowsOf [(1, "a"); (2, "b")]) (rowsOf [(1, "a"); (2, "b")]) 5 whole
      = Some (Emitted dml isEqual report) /\
    (compareChecksumAndGetCount smallUp smallDown whole).2 = None /\
    sqls dml = [] /\
    State (node dml) = FailedState.
Proof. do 3 eexists. repeat split. Qed.

(** The amended C1 on upstream [(1,a), (2,b)] against downstream [(1,a)]:
    the checksums differ, [ExportFixSQL] is on, one INSERT is written and the
    node is [Failed]. *)
Lemma consume_failed_iff_witness :
  exists dml isEqual report,
    runConsume true smallUp smallDown
      (rowsOf [(1, "a"); (2, "b")]) (rowsOf [(1, "a")]) 5 whole
      = Some (Emitted dml isEqual report) /\
    sqls dml = ["INSERT"] /\
    State (node dml) = FailedState /\
    (State (node dml) = FailedState <->
       rangeType whole <> chunk_Empty /\
       ((compareChecksumAndGetCount smallUp smallDown whole).2 <> None \/
        ((compareChecksumAndGetCount smallUp smallDown whole).1.1 = false /\
         true = true))) /\
    (sqls dml <> [] -> State (node dml) = FailedState) /\
    (State (node dml) = SuccessState <->
       rangeType whole <> chunk_Empty /\
       (compareChecksumAndGetCount smallUp smallDown whole).2 = None /\
       ((compareChecksumAndGetCount smallUp smallDown whole).1.1 = true \/
        true = false)) /\
    (rangeType whole <> chunk_Empty ->
     (compareChecksumAndGetCount smallUp smallDown whole).2 = None ->
     (compareChecksumAndGetCount smallUp smallDown whole).1.1 = false ->
     true = false ->
       State (node dml) = SuccessState /\ sqls dml = []) /\
    (State (node dml) = IgnoreState <-> rangeType whole = chunk_Empty).
Proof.
  do 3 eexists. split; [reflexivity | ]. split; [reflexivity | ].
  split; [reflexivity | ].
  exact (consume_failed_iff threshold true rangeType (fun _ => 1)
       (fun r => mkNode r UnsetState) (fun _ => tt)
       (fun _ => [mkIndexInfo 1 true true]) (fun _ _ => ["id"])
       (fun c : string => c) midOf updateRange smallUp smallDown
       (rowsOf [(1, "a"); (2, "b")]) (rowsOf [(1, "a")])
       fixSQL compareById 5 whole _ _ _ eq_refl).
Defined.



(** *** The further properties on the concrete table *)

(** The left half is the same on both sides, the right half differs and
    holds 1000 rows. *)
Definition rightUp : Range -> ChecksumInfo :=
  answer [("", "", mkChecksumInfo 7 2000 None);
          ("", "2000", mkChecksumInfo 1 1000 None);
          ("2000", "", mkChecksumInfo 2 1000 None)].

Definition rightDown : Range -> ChecksumInfo :=
  answer [("", "", mkChecksumInfo 8 2000 None);
          ("", "2000", mkChecksumInfo 1 1000 None);
          ("2000", "", mkChecksumInfo 4 1000 None)].

Definition runBinGenerate (up down : Range -> ChecksumInfo) (fuel : nat)
  (r : Range) (count : Z) : option (outcome Range) :=
  BinGenerate threshold (fun _ => 1) (fun _ => tt)
    (fun _ => [mkIndexInfo 1 true true]) (fun _ _ => ["id"])
    (fun c : string => c) midOf updateRange up down fuel r count.

Lemma compareById_sign : cmpIsSign compareById.
Proof.
  intros r u d cmp. unfold compareById.
  destruct ((u.1 =? d.1) && String.eqb u.2 d.2); [discriminate | ].
  destruct (u.1 <? d.1); [intros [= <-]; auto | ].
  destruct (d.1 <? u.1); intros [= <-]; auto.
Qed.

Lemma consume_returns_equal_witness :
  exists dml isEqual report,
    runConsume true smallUp smallDown
      (rowsOf [(1, "a"); (2, "b")]) (rowsOf [(1, "a")]) 5 whole
      = Some (Emitted dml isEqual report) /\
    (isEqual = true <->
       rangeType whole = chunk_Empty \/ checksumsAgree smallUp smallDown whole).
Proof.
  do 3 eexists. split; [reflexivity | ].
  exact (consume_returns_equal threshold true rangeType (fun _ => 1)
       (fun r => mkNode r UnsetState) (fun _ => tt)
       (fun _ => [mkIndexInfo 1 true true]) (fun _ _ => ["id"])
       (fun c : string => c) midOf updateRange smallUp smallDown
       (rowsOf [(1, "a"); (2, "b")]) (rowsOf [(1, "a")])
       fixSQL compareById 5 whole _ _ _ eq_refl).
Defined.

Lemma BinGenerate_result_witness :
  runBinGenerate rightUp rightDown 3 whole 2000 = Some (Ret rightHalf) /\
  (2000 <= threshold -> rightHalf = whole) /\
  (rightHalf = whole \/
   mismatched rightUp rightDown rightHalf /\
   exists index,
     In index [mkIndexInfo 1 true true] /\
     ID index = 1 /\
     (Primary index = true \/ Unique index = true) /\
     descends (fun c : string => c) updateRange tt ["id"] whole rightHalf).
Proof.
  split; [reflexivity | ].
  exact (BinGenerate_result threshold (fun _ => 1) (fun _ => tt)
           (fun _ => [mkIndexInfo 1 true true]) (fun _ _ => ["id"])
           (fun c : string => c) midOf updateRange rightUp rightDown
           3 whole 2000 rightHalf eq_refl).
Defined.

Lemma compareRows_balance_witness :
  exists res,
    runCompareRows (rowsOf [(1, "a"); (2, "b"); (4, "d")]) (rowsOf [(2, "x"); (3, "c")])
      6 whole = Some res /\
    sqls (r_dml res) = ["INSERT"; "REPLACE"; "DELETE"; "INSERT"] /\
    rowAdd (r_dml res) - rowDelete (r_dml res) = 3 - 2.
Proof.
  eexists. split; [reflexivity | ]. split; [reflexivity | ].
  exact (compareRows_balance
           (rowsOf [(1, "a"); (2, "b"); (4, "d")]) (rowsOf [(2, "x"); (3, "c")])
           fixSQL compareById 6 whole (freshDML whole) _ _ _
           eq_refl eq_refl eq_refl eq_refl).
Defined.

Lemma compareRows_equal_iff_witness :
  exists res,
    runCompareRows (rowsOf [(1, "a"); (2, "b")]) (rowsOf [(1, "a"); (2, "b")])
      4 whole = Some res /\
    (r_equal res = true <->
     List.Forall2 (sameRow compareById whole)
       [NextRow (1, "a"); NextRow (2, "b")] [NextRow (1, "a"); NextRow (2, "b")]).
Proof.
  eexists. split; [reflexivity | ].
  exact (compareRows_equal_iff
           (rowsOf [(1, "a"); (2, "b")]) (rowsOf [(1, "a"); (2, "b")])
           fixSQL compareById 4 whole (freshDML whole) _ _ _
           eq_refl eq_refl eq_refl eq_refl).
Defined.

Lemma compareRows_returns_witness :
  exists res,
    runCompareRows (rowsOf [(1, "a"); (2, "b")]) (rowsOf [(1, "a")]) 4 whole = Some res.
Proof.
  apply (compareRows_returns
           (rowsOf [(1, "a"); (2, "b")]) (rowsOf [(1, "a")])
           fixSQL compareById compareById_sign 4 whole (freshDML whole)).
  intros upIt downIt [= <-] [= <-]. cbn. lia.
Defined.

End BatchScenario.


(** ** Continuous mode *)

Module Continuous.

(** What a Go function ends with when it may panic: its value, or the
    panic (which, uncaught as here, ends the process). *)
Inductive go (A : Type) :=
| Value (a : A)
| Panic (msg : string).
Arguments Value {A} a.
Arguments Panic {A} msg.

Definition bind {A B : Type} (m : go A) (f : A -> go B) : go B :=
  match m with
  | Value a => f a
  | Panic msg => Panic msg
  end.

Notation "'do' x <- m ; k" := (bind m (fun x => k))
  (at level 10, x name, m at level 100, k at level 200).

Definition isPanic {A : Type} (m : go A) : Prop :=
  match m with Panic _ => True | Value _ => False end.

(** [model.ColumnInfo]: its name ([Name.O]) and its position in a row. *)
Record ColumnInfo := mkColumnInfo {
  Name_O : string;
  Offset : nat
}.

(** [model.IndexInfo]: the names ([Name.O]) of its columns, in index order. *)
Record IndexInfo := mkIndexInfo {
  Columns : list string
}.

(** [common.TableDiff], as far as the continuous validator reads it:
    [PrimaryKey] is a pointer and is [nil] for a table without one. *)
Record TableDiff := mkTableDiff {
  Schema : string;
  Table : string;
  Info_Columns : list ColumnInfo;
  PrimaryKey : option IndexInfo;
  ColumnMap : gmap string ColumnInfo
}.

(** [continuous.Cond]. *)
Record Cond := mkCond {
  Cond_Table : TableDiff;
  PkValues : list (list string)
}.

(** *** [Cond.GetWhere] (validate.go) *)

(** [for i := range c.PkValues { if i != 0 { b.WriteString(", ") };
    b.WriteString("?") }] from index [i] on, [b] being the builder. *)
Fixpoint writePlaceholders (i : nat) (pkValues : list (list string)) (b : string)
  : string :=
  match pkValues with
  | [] => b
  | _ :: rest =>
    let b := if Nat.eqb i 0 then b else (b ++ ", ")%string in
    writePlaceholders (S i) rest (b ++ "?")%string
  end.

Definition GetWhere (c : Cond) : go string :=
  match PrimaryKey (Cond_Table c) with
  | None => Panic "invalid memory address or nil pointer dereference"
  | Some pk =>
    if (1 <? length (Columns pk))%nat then Panic "should be one"
    else
      match Columns pk with
      | [] => Panic "index out of range [0] with length 0"
      | column :: _ =>
        let b := (column ++ " in (")%string in
        let b := writePlaceholders 0 (PkValues c) b in
        Value (b ++ ")")%string
      end
  end.

(** One ["?"] per entry, separated by [", "]. *)
Definition placeholders (pkValues : list (list string)) : string :=
  String.concat ", " (List.map (fun _ => "?") pkValues).

Lemma append_assoc (a b c : string) : ((a ++ b) ++ c = a ++ (b ++ c))%string.
Proof.
  induction a as [|ch a IH]; [reflexivity | ].
  change (String ch ((a ++ b) ++ c) = String ch (a ++ (b ++ c)))%string.
  now rewrite IH.
Qed.

Lemma append_empty_r (a : string) : (a ++ "" = a)%string.
Proof.
  induction a as [|ch a IH]; [reflexivity | ].
  change (String ch (a ++ "") = String ch a)%string. now rewrite IH.
Qed.

Lemma placeholders_cons (v w : list string) (rest : list (list string)) :
  placeholders (v :: w :: rest) = ("?" ++ ", " ++ placeholders (w :: rest))%string.
Proof. reflexivity. Qed.

Lemma writePlaceholders_later (pkValues : list (list string)) :
  forall i b, i <> 0%nat -> pkValues <> [] ->
    writePlaceholders i pkValues b = (b ++ ", " ++ placeholders pkValues)%string.
Proof.
  induction pkValues as [|v rest IH]; intros i b Hi Hne; [congruence | ].
  cbn [writePlaceholders]. destruct (Nat.eqb_spec i 0) as [|_]; [congruence | ].
  destruct rest as [|w rest].
  - cbn [writePlaceholders]. change (placeholders [v]) with "?".
    apply append_assoc.
  - rewrite IH by (lia || discriminate).
    rewrite placeholders_cons, !append_assoc. reflexivity.
Qed.

Lemma writePlaceholders_first (pkValues : list (list string)) (b : string) :
  writePlaceholders 0 pkValues b = (b ++ placeholders pkValues)%string.
Proof.
  destruct pkValues as [|v rest]; cbn [writePlaceholders Nat.eqb].
  - change (placeholders []) with "". symmetry. apply append_empty_r.
  - destruct rest as [|w rest]; [reflexivity | ].
    rewrite writePlaceholders_later by (lia || discriminate).
    rewrite placeholders_cons, !append_assoc. reflexivity.
Qed.

(** C9.  The program builds a [Cond] in one place, [validateChanges], over
    the table of a batch entry, and [processEventRows] files an entry only
    for a table that has a primary key (it panics with "no primary index"
    otherwise); an index has at least one column.  Over such a table
    [GetWhere] panics exactly when the primary key has more than one column,
    and the panic is "should be one"; over a single-column primary key it
    returns the column's name, [" in ("], one ["?"] per entry of [PkValues],
    the placeholders separated by a comma and a space, and [")"]. *)
Theorem GetWhere_spec (c : Cond) (pk : IndexInfo) :
  PrimaryKey (Cond_Table c) = Some pk ->
  Columns pk <> [] ->
  (isPanic (GetWhere c) <-> (1 < length (Columns pk))%nat) /\
  ((1 < length (Columns pk))%nat -> GetWhere c = Panic "should be one") /\
  (forall column,
     Columns pk = [column] ->
     GetWhere c = Value (column ++ " in (" ++ placeholders (PkValues c) ++ ")")%string).
Proof.
  intros Hpk Hcolumns. unfold GetWhere. rewrite Hpk.
  destruct pk as [[|column [|column' columns]]];
    cbn [isPanic Columns length Nat.ltb Nat.leb] in *; [congruence | | ].
  - split; [split; [intros [] | lia] | split; [lia | ]].
    intros col [= <-]. rewrite writePlaceholders_first.
    now rewrite !append_assoc.
  - split; [split; [lia | intros _; exact I] | split; [reflexivity | ]].
    intros col [=].
Qed.

(** *** [Cond.GetArgs] (validate.go) *)

(** The values of all entries, entry by entry. *)
Definition GetArgs (c : Cond) : list string :=
  List.fold_left
    (fun (res : list string) v =>
       List.fold_left (fun (res : list string) val => res ++ [val]) v res)
    (PkValues c) [].

Lemma GetArgs_inner (v : list string) :
  forall res : list string,
    List.fold_left (fun (res : list string) val => res ++ [val]) v res = res ++ v.
Proof.
  induction v as [|val v IH]; intros res; cbn [List.fold_left].
  - now rewrite app_nil_r.
  - rewrite IH, <- app_assoc. reflexivity.
Qed.

Lemma GetArgs_concat (c : Cond) : GetArgs c = List.concat (PkValues c).
Proof.
  unfold GetArgs.
  assert (Hgen : forall (vs : list (list string)) (res : list string),
    List.fold_left
      (fun (res : list string) v =>
         List.fold_left (fun (res : list string) val => res ++ [val]) v res) vs res
      = res ++ List.concat vs).
  { induction vs as [|v vs IH]; intros res; cbn [List.fold_left List.concat].
    - now rewrite app_nil_r.
    - rewrite IH, GetArgs_inner, <- app_assoc. reflexivity. }
  exact (Hgen (PkValues c) []).
Qed.

(** The number of occurrences of a character. *)
Fixpoint countOf (ch : ascii) (s : string) : nat :=
  match s with
  | EmptyString => 0
  | String c s' => (if Ascii.eqb c ch then 1 else 0) + countOf ch s'
  end.

Lemma countOf_append (ch : ascii) (a b : string) :
  countOf ch (a ++ b)%string = (countOf ch a + countOf ch b)%nat.
Proof.
  induction a as [|c a IH]; [reflexivity | ].
  change (countOf ch (String c (a ++ b)%string)
          = (countOf ch (String c a) + countOf ch b)%nat).
  cbn [countOf]. rewrite IH. lia.
Qed.

Lemma countOf_placeholders (pkValues : list (list string)) :
  countOf "?" (placeholders pkValues) = length pkValues.
Proof.
  induction pkValues as [|v [|w rest] IH]; [reflexivity | reflexivity | ].
  rewrite placeholders_cons, !countOf_append, IH. reflexivity.
Qed.

(** Over a single-column primary key, with one value per entry of
    [PkValues], the condition [GetWhere] builds has one placeholder for each
    argument [GetArgs] supplies (beyond any ["?"] in the column's name). *)
Theorem GetWhere_GetArgs_arity (c : Cond) (column : string) :
  PrimaryKey (Cond_Table c) = Some (mkIndexInfo [column]) ->
  List.Forall (fun v => length v = 1%nat) (PkValues c) ->
  exists where_,
    GetWhere c = Value where_ /\
    countOf "?" where_ = (countOf "?" column + length (GetArgs c))%nat.
Proof.
  intros Hpk Hone. unfold GetWhere. rewrite Hpk. cbn [Columns length Nat.ltb Nat.leb].
  eexists. split; [reflexivity | ].
  rewrite writePlaceholders_first.
  rewrite !countOf_append, countOf_placeholders, GetArgs_concat.
  assert (Hlen : length (List.concat (PkValues c)) = length (PkValues c)).
  { induction Hone as [|v vs Hv _ IH]; [reflexivity | ].
    cbn [List.concat]. rewrite List.length_app, IH, Hv. reflexivity. }
  rewrite Hlen. cbn. lia.
Qed.

(** *** The change accumulator: [Diff.processEventRows] (diff.go) *)

Inductive rowChangeType := rowInvalidChange | rowInsert | rowDeleted | rowUpdated.

(** The value of a [rowChangeType] as an index. *)
Definition typeIndex (t : rowChangeType) : nat :=
  match t with
  | rowInvalidChange => 0
  | rowInsert => 1
  | rowDeleted => 2
  | rowUpdated => 3
  end.

(** [replication.EventType], as far as [getRowChangeType] tells them apart. *)
Inductive EventType :=
| WRITE_ROWS_EVENTv0 | WRITE_ROWS_EVENTv1 | WRITE_ROWS_EVENTv2
| UPDATE_ROWS_EVENTv0 | UPDATE_ROWS_EVENTv1 | UPDATE_ROWS_EVENTv2
| DELETE_ROWS_EVENTv0 | DELETE_ROWS_EVENTv1 | DELETE_ROWS_EVENTv2
| OTHER_EVENT.

Definition getRowChangeType (t : EventType) : rowChangeType :=
  match t with
  | WRITE_ROWS_EVENTv0 | WRITE_ROWS_EVENTv1 | WRITE_ROWS_EVENTv2 => rowInsert
  | UPDATE_ROWS_EVENTv0 | UPDATE_ROWS_EVENTv1 | UPDATE_ROWS_EVENTv2 => rowUpdated
  | DELETE_ROWS_EVENTv0 | DELETE_ROWS_EVENTv1 | DELETE_ROWS_EVENTv2 => rowDeleted
  | OTHER_EVENT => rowInvalidChange
  end.

Definition batchRowCount : Z := 200.

(** [replication.EventHeader]: [Timestamp] is a [uint32]. *)
Record EventHeader := mkEventHeader {
  Timestamp : Z;
  Header_EventType : EventType
}.

(** [strings.Join(elems, sep)]. *)
Definition Join (elems : list string) (sep : string) : string :=
  String.concat sep elems.

(** [mapM] and [foldM] over [go], left to right. *)
Fixpoint mapGo {A B : Type} (f : A -> go B) (l : list A) : go (list B) :=
  match l with
  | [] => Value []
  | a :: l' => do b <- f a; do bs <- mapGo f l'; Value (b :: bs)
  end.

Fixpoint foldGo {A S : Type} (f : S -> A -> go S) (l : list A) (s : S) : go S :=
  match l with
  | [] => Value s
  | a :: l' => do s' <- f s a; foldGo f l' s'
  end.

(** The elements at the indices [init], [init + step], ... of a slice. *)
Definition selectRows {A : Type} (init step : nat) (rows : list A) : list A :=
  List.map snd
    (List.filter (fun ir : nat * A =>
                    Nat.leb init ir.1 && Nat.eqb (Nat.modulo (ir.1 - init) step) 0)
                 (List.combine (List.seq 0 (length rows)) rows)).

(** Which rows of an event are processed: all of them ([init, step = 0, 1])
    and, for an update, whose rows come as (before, after) pairs, the after
    images only ([init, step = 1, 2]). *)
Lemma selectRows_every {A : Type} (rows : list A) : selectRows 0 1 rows = rows.
Proof.
  unfold selectRows.
  assert (Hgen : forall (l : list A) k,
    List.map snd
      (List.filter (fun ir : nat * A =>
                      Nat.leb 0 ir.1 && Nat.eqb (Nat.modulo (ir.1 - 0) 1) 0)
                   (List.combine (List.seq k (length l)) l)) = l).
  { induction l as [|x l IH]; intros k; [reflexivity | ].
    cbn [length List.seq List.combine List.filter fst].
    rewrite Nat.mod_1_r. cbn [Nat.leb Nat.eqb andb List.map snd].
    now rewrite IH. }
  apply Hgen.
Qed.

Lemma odd_index (j : nat) :
  Nat.leb 1 (2 * j) && Nat.eqb (Nat.modulo (2 * j - 1) 2) 0 = false.
Proof.
  destruct j as [|j]; [reflexivity | ].
  replace (2 * S j - 1)%nat with (1 + j * 2)%nat by lia.
  rewrite Nat.Div0.mod_add. apply andb_false_r.
Qed.

Lemma even_index (j : nat) :
  Nat.leb 1 (S (2 * j)) && Nat.eqb (Nat.modulo (S (2 * j) - 1) 2) 0 = true.
Proof.
  replace (S (2 * j) - 1)%nat with (j * 2)%nat by lia.
  rewrite Nat.Div0.mod_mul. reflexivity.
Qed.

(** Of an update event, whose rows come as (before, after) pairs, the
    row loop of [processEventRows] takes the after images, one per pair, in
    order. *)
Theorem selectRows_after_images {A : Type} (pairs : list (A * A)) :
  selectRows 1 2 (List.flat_map (fun p => [p.1; p.2]) pairs) = List.map snd pairs.
Proof.
  unfold selectRows.
  assert (Hgen : forall (ps : list (A * A)) j,
    List.map snd
      (List.filter (fun ir : nat * A =>
                      Nat.leb 1 ir.1 && Nat.eqb (Nat.modulo (ir.1 - 1) 2) 0)
                   (List.combine
                      (List.seq (2 * j) (length (List.flat_map (fun p => [p.1; p.2]) ps)))
                      (List.flat_map (fun p => [p.1; p.2]) ps)))
    = List.map snd ps).
  { induction ps as [|[b a] ps IH]; intros j; [reflexivity | ].
    cbn [List.flat_map app length List.seq List.combine List.filter fst snd].
    rewrite odd_index, even_index. cbn [List.map snd].
    replace (S (S (2 * j))) with (2 * S j)%nat by lia.
    now rewrite IH. }
  exact (Hgen pairs 0%nat).
Qed.

Section Accumulator.

(** The values of a binlog row other than [nil], and [fmt.Sprintf("%v", x)]
    on them. *)
Context {value : Type}.
Variable fmt_v : value -> string.

(** [fmt.Sprintf("%v", x)] for an [interface{}], [None] being [nil]. *)
Definition Sprintf_v (x : option value) : string :=
  match x with
  | None => "<nil>"
  | Some v => fmt_v v
  end.

Record rowChange := mkRowChange {
  pk : list string;
  data : list (option value);
  theType : rowChangeType;
  lastMeetTs : Z
}.

Record tableChange := mkTableChange {
  table : TableDiff;
  rows : gmap string rowChange
}.

(** [replication.RowsEvent]. *)
Record RowsEvent := mkRowsEvent {
  Event_Schema : string;
  Event_Table : string;
  Event_Rows : list (list (option value));
  SkippedColumns : list (list Z)
}.

(** The fields of [Diff] the accumulator touches; [pendingChangeCh] holds
    the batches sent on the channel, oldest first. *)
Record Diff := mkDiff {
  accumulatedChanges : gmap string tableChange;
  pendingRowCnt : Z;
  changeEventCount : list Z;
  pendingChangeCh : list (gmap string tableChange)
}.

(** [sources.GetTable(schemaName, tableName)]. *)
Variable GetTable : string -> string -> option TableDiff.

Definition getRowCount (c : gmap string tableChange) : Z :=
  map_fold (fun _ v res => res + Z.of_nat (size (rows v))) 0 c.

(** [pkIndices[i] = table.ColumnMap[col.Name.O].Offset]. *)
Definition pkIndicesOf (tbl : TableDiff) (pkColumns : list string) : go (list nat) :=
  mapGo (fun name =>
           match ColumnMap tbl !! name with
           | Some c => Value (Offset c)
           | None => Panic "invalid memory address or nil pointer dereference"
           end) pkColumns.

(** [pkValue := make([]string, len(pk.Columns));
    for _, idx := range pkIndices { pkValue[idx] = fmt.Sprintf("%v", row[idx]) }]:
    both [row] and [pkValue] are indexed by the column's offset. *)
Definition pkValueOf (n : nat) (pkIndices : list nat) (row : list (option value))
  : go (list string) :=
  foldGo (fun pkValue idx =>
            match row !! idx with
            | None => Panic "index out of range"
            | Some x =>
              if Nat.ltb idx (length pkValue)
              then Value (<[idx := Sprintf_v x]> pkValue)
              else Panic "index out of range"
            end)
         pkIndices (replicate n "").

(** The loop-carried state of the row loop: [df] and the local [rowCount];
    the local [change] always is [df.accumulatedChanges[fullTableName]]. *)
Definition rowStep (tbl : TableDiff) (header : EventHeader)
  (changeType : rowChangeType) (n : nat) (pkIndices : list nat)
  (st : Diff * Z) (row : list (option value)) : go (Diff * Z) :=
  let '(df, rowCount) := st in
  let fullTableName := (Schema tbl ++ "." ++ Table tbl)%string in
  do pkValue <- pkValueOf n pkIndices row;
  let change :=
    match accumulatedChanges df !! fullTableName with
    | Some change => change
    | None => mkTableChange tbl ∅
    end in
  let key := Join pkValue "-" in
  let '(val, rowCount, pending) :=
    match rows change !! key with
    | Some val => (val, rowCount, pendingRowCnt df)
    | None => (mkRowChange pkValue [] rowInvalidChange 0, rowCount + 1,
               pendingRowCnt df + 1)
    end in
  let val := mkRowChange (pk val) row changeType (Timestamp header) in
  let change := mkTableChange (table change) (<[key := val]> (rows change)) in
  let accumulated := <[fullTableName := change]> (accumulatedChanges df) in
  if batchRowCount <=? rowCount then
    Value (mkDiff ∅ pending (changeEventCount df)
                  (pendingChangeCh df ++ [accumulated]), 0)
  else
    Value (mkDiff accumulated pending (changeEventCount df) (pendingChangeCh df),
           rowCount).

(** The result is the updated [Diff] and the error returned. *)
Definition processEventRows (df : Diff) (header : EventHeader) (ev : RowsEvent)
  : go (Diff * option error) :=
  match GetTable (Event_Schema ev) (Event_Table ev) with
  | None => Value (df, None)
  | Some tbl =>
    match PrimaryKey tbl with
    | None => Panic "no primary index"
    | Some pk =>
      if List.existsb (fun cols => Nat.ltb 0 (length cols)) (SkippedColumns ev)
      then Value (df, Some "")
      else
        let changeType := getRowChangeType (Header_EventType header) in
        match changeType with
        | rowInvalidChange => Value (df, None)
        | _ =>
          let df := mkDiff (accumulatedChanges df) (pendingRowCnt df)
                      (alter Z.succ (typeIndex changeType) (changeEventCount df))
                      (pendingChangeCh df) in
          let '(init, step) :=
            match changeType with rowUpdated => (1, 2) | _ => (0, 1) end%nat in
          do pkIndices <- pkIndicesOf tbl (Columns pk);
          let rowCount := getRowCount (accumulatedChanges df) in
          do st <- foldGo (rowStep tbl header changeType (length (Columns pk)) pkIndices)
                     (selectRows init step (Event_Rows ev)) (df, rowCount);
          Value (st.1, None)
        end
    end
  end.

(** A table without a primary key never reaches the accumulator:
    [processEventRows] panics before it touches the [Diff]. *)
Lemma processEventRows_no_primary_key (df : Diff) (header : EventHeader)
  (ev : RowsEvent) (tbl : TableDiff) :
  GetTable (Event_Schema ev) (Event_Table ev) = Some tbl ->
  PrimaryKey tbl = None ->
  processEventRows df header ev = Panic "no primary index".
Proof. intros Htbl Hpk. unfold processEventRows. now rewrite Htbl, Hpk. Qed.

(** *** What one row leaves in the accumulator *)

(** The batch a row went to: the accumulator, or, when the row filled the
    batch, the last batch sent. *)
Definition batchOf (before after : Diff) : option (gmap string tableChange) :=
  if Nat.ltb (length (pendingChangeCh before)) (length (pendingChangeCh after))
  then List.last (List.map Some (pendingChangeCh after)) None
  else Some (accumulatedChanges after).

Lemma last_snoc {A : Type} (l : list A) (x d : A) : List.last (l ++ [x]) d = x.
Proof.
  induction l as [|y l IH]; [reflexivity | ].
  cbn [app]. destruct (l ++ [x]) eqn:Hl; [destruct l; discriminate | exact IH].
Qed.

(** Once [pkValue] is computed, the row is recorded under the join of
    [pkValue] in the table's batch entry, with the row's data, the kind of
    the event and its timestamp; the entries of the other keys of the table
    are as they were. *)
Lemma rowStep_records (tbl : TableDiff) (header : EventHeader)
  (changeType : rowChangeType) (n : nat) (pkIndices : list nat)
  (df : Diff) (rowCount : Z) (row : list (option value))
  (pkValue : list string) (df' : Diff) (rowCount' : Z) :
  pkValueOf n pkIndices row = Value pkValue ->
  rowStep tbl header changeType n pkIndices (df, rowCount) row = Value (df', rowCount') ->
  exists batch change val,
    batchOf df df' = Some batch /\
    batch !! (Schema tbl ++ "." ++ Table tbl)%string = Some change /\
    rows change !! Join pkValue "-" = Some val /\
    data val = row /\ theType val = changeType /\
    lastMeetTs val = Timestamp header /\
    (forall key, key <> Join pkValue "-" ->
       rows change !! key
         = match accumulatedChanges df !! (Schema tbl ++ "." ++ Table tbl)%string with
           | Some old => rows old !! key
           | None => None
           end).
Proof.
  intros Hpk. unfold rowStep. rewrite Hpk. cbn [bind].
  set (fullTableName := (Schema tbl ++ "." ++ Table tbl)%string).
  set (change0 := match accumulatedChanges df !! fullTableName with
                  | Some change => change
                  | None => mkTableChange tbl ∅
                  end).
  assert (Hother : forall key,
    rows change0 !! key
      = match accumulatedChanges df !! fullTableName with
        | Some old => rows old !! key
        | None => None
        end).
  { intros key. unfold change0.
    destruct (accumulatedChanges df !! fullTableName); [reflexivity | apply lookup_empty]. }
  destruct (rows change0 !! Join pkValue "-") as [val0|];
    match goal with |- context [batchRowCount <=? ?rc] => destruct (batchRowCount <=? rc) end;
    intros [= <- _]; unfold batchOf; cbn [pendingChangeCh accumulatedChanges];
    rewrite ?List.length_app, ?List.map_app; cbn [length List.map];
    first [ replace (Nat.ltb (length (pendingChangeCh df)) (length (pendingChangeCh df) + 1))
              with true by (symmetry; apply Nat.ltb_lt; lia);
            rewrite last_snoc
          | rewrite Nat.ltb_irrefl ];
    (eexists _, _, _; split; [reflexivity | ];
     split; [apply lookup_insert_eq | ]; cbn [rows];
     split; [apply lookup_insert_eq | ];
     repeat (split; [reflexivity | ]);
     intros key Hkey; rewrite lookup_insert_ne by congruence; apply Hother).
Qed.

(** When the key columns are the first [n] columns of the table, in order,
    [pkValue] holds the text of the key column values, in key order. *)
Lemma pkValueOf_from (row : list (option value)) (m : nat) :
  forall k,
    (k + m <= length row)%nat ->
    foldGo (fun pkValue idx =>
              match row !! idx with
              | None => Panic "index out of range"
              | Some x =>
                if Nat.ltb idx (length pkValue)
                then Value (<[idx := Sprintf_v x]> pkValue)
                else Panic "index out of range"
              end)
           (List.seq k m)
           (List.map Sprintf_v (take k row) ++ replicate m "")
    = Value (List.map Sprintf_v (take (k + m) row)).
Proof.
  induction m as [|m IH]; intros k Hlen; cbn [List.seq foldGo replicate].
  - rewrite app_nil_r, Nat.add_0_r. reflexivity.
  - destruct (lookup_lt_is_Some_2 row k) as [x Hx]; [lia | ].
    rewrite Hx.
    assert (Hk : length (List.map Sprintf_v (take k row)) = k)
      by (rewrite List.length_map, length_take; lia).
    replace (Nat.ltb k (length (List.map Sprintf_v (take k row) ++ "" :: replicate m "")))
      with true
      by (symmetry; apply Nat.ltb_lt; rewrite List.length_app, Hk; cbn; lia).
    cbn [bind].
    rewrite insert_app_r_alt by lia. rewrite Hk, Nat.sub_diag. cbn [insert list_insert].
    replace (List.map Sprintf_v (take k row) ++ Sprintf_v x :: replicate m "")
      with (List.map Sprintf_v (take (S k) row) ++ replicate m "")
      by (rewrite (take_S_r row k x Hx), List.map_app, <- app_assoc; reflexivity).
    rewrite IH by lia. f_equal. f_equal. f_equal. lia.
Qed.

Lemma pkValueOf_leading (n : nat) (row : list (option value)) :
  (n <= length row)%nat ->
  pkValueOf n (List.seq 0 n) row = Value (List.map Sprintf_v (take n row)).
Proof.
  intros Hlen. unfold pkValueOf.
  exact (pkValueOf_from row n 0 Hlen).
Qed.

(** A key column whose offset in the row is not below the number of key
    columns makes [pkValue[idx]] an access out of range. *)
Lemma pkValueOf_offset_panics (n : nat) (pkIndices : list nat)
  (row : list (option value)) (idx : nat) :
  In idx pkIndices -> (n <= idx)%nat -> isPanic (pkValueOf n pkIndices row).
Proof.
  intros Hin Hidx. unfold pkValueOf.
  assert (Hgen : forall pkValue, length pkValue = n ->
    isPanic (foldGo (fun pkValue idx =>
                       match row !! idx with
                       | None => Panic "index out of range"
                       | Some x =>
                         if Nat.ltb idx (length pkValue)
                         then Value (<[idx := Sprintf_v x]> pkValue)
                         else Panic "index out of range"
                       end) pkIndices pkValue)).
  { induction pkIndices as [|i pkIndices IH]; [destruct Hin | ].
    intros pkValue Hlen. cbn [foldGo].
    destruct (row !! i) as [x|]; [ | exact I].
    destruct (Nat.ltb_spec i (length pkValue)) as [Hlt|Hge]; [ | exact I].
    cbn [bind]. destruct Hin as [-> | Hin]; [lia | ].
    apply IH; [exact Hin | ]. rewrite length_insert. exact Hlen. }
  apply Hgen, length_replicate.
Qed.

(** *** What the accumulator keeps from one event to the next *)

Lemma getRowCount_empty : getRowCount ∅ = 0.
Proof. unfold getRowCount. apply map_fold_empty. Qed.

Lemma getRowCount_insert (acc : gmap string tableChange) (name : string)
  (change : tableChange) :
  getRowCount (<[name := change]> acc)
    = getRowCount acc
      - match acc !! name with
        | Some old => Z.of_nat (size (rows old))
        | None => 0
        end
      + Z.of_nat (size (rows change)).
Proof.
  unfold getRowCount.
  assert (Hcomm : forall (m : gmap string tableChange) (j1 j2 : string) z1 z2 (y : Z),
    j1 <> j2 -> m !! j1 = Some z1 -> m !! j2 = Some z2 ->
    y + Z.of_nat (size (rows z2)) + Z.of_nat (size (rows z1))
      = y + Z.of_nat (size (rows z1)) + Z.of_nat (size (rows z2))) by (intros; lia).
  destruct (acc !! name) as [old|] eqn:Hold.
  - rewrite <- insert_delete_eq.
    rewrite map_fold_insert_L; [ | apply Hcomm | apply lookup_delete_eq].
    rewrite (map_fold_delete_L _ _ name old acc); [lia | apply Hcomm | exact Hold].
  - rewrite map_fold_insert_L; [lia | apply Hcomm | exact Hold].
Qed.

(** Every entry is filed under the join of its own [pk]. *)
Definition keyedByPk (c : gmap string tableChange) : Prop :=
  forall name change key r,
    c !! name = Some change -> rows change !! key = Some r -> key = Join (pk r) "-".

(** What holds of [df] and of the local [rowCount] between two rows of an
    event: [sent0], [pending0] and [rowCount0] are the batches sent, the
    pending row count and the row count when the event came in. *)
Definition countInv (sent0 : list (gmap string tableChange))
  (pending0 rowCount0 : Z) (st : Diff * Z) : Prop :=
  st.2 = getRowCount (accumulatedChanges st.1) /\
  st.2 < batchRowCount /\
  exists new,
    pendingChangeCh st.1 = sent0 ++ new /\
    List.Forall (fun b => getRowCount b = batchRowCount) new /\
    pendingRowCnt st.1 + rowCount0
      = pending0 + st.2 + batchRowCount * Z.of_nat (length new).

Definition keyInv (sent0 : list (gmap string tableChange)) (st : Diff * Z) : Prop :=
  keyedByPk (accumulatedChanges st.1) /\
  exists new,
    pendingChangeCh st.1 = sent0 ++ new /\ List.Forall keyedByPk new.

Lemma rowStep_countInv (tbl : TableDiff) (header : EventHeader)
  (changeType : rowChangeType) (n : nat) (pkIndices : list nat)
  (sent0 : list (gmap string tableChange)) (pending0 rowCount0 : Z)
  (st st' : Diff * Z) (row : list (option value)) :
  countInv sent0 pending0 rowCount0 st ->
  rowStep tbl header changeType n pkIndices st row = Value st' ->
  countInv sent0 pending0 rowCount0 st' /\
  changeEventCount st'.1 = changeEventCount st.1.
Proof.
  destruct st as [df rowCount]. unfold countInv. cbn [fst snd].
  intros (Hcount & Hbound & new & Hsent & Hnew & Hpending).
  unfold rowStep.
  destruct (pkValueOf n pkIndices row) as [pkValue|msg]; cbn [bind]; [ | discriminate].
  set (fullTableName := (Schema tbl ++ "." ++ Table tbl)%string).
  set (change0 := match accumulatedChanges df !! fullTableName with
                  | Some change => change
                  | None => mkTableChange tbl ∅
                  end).
  set (key := Join pkValue "-").
  assert (Hsize0 : Z.of_nat (size (rows change0))
                   = match accumulatedChanges df !! fullTableName with
                     | Some old => Z.of_nat (size (rows old))
                     | None => 0
                     end).
  { unfold change0. destruct (accumulatedChanges df !! fullTableName); [reflexivity | ].
    cbn [rows]. now rewrite map_size_empty. }
  destruct (rows change0 !! key) as [val0|] eqn:Hval0.
  - (* the key is known: its entry is overwritten *)
    assert (Hrc : getRowCount
                    (<[fullTableName := mkTableChange (table change0)
                         (<[key := mkRowChange (pk val0) row changeType (Timestamp header)]>
                            (rows change0))]> (accumulatedChanges df)) = rowCount).
    { rewrite getRowCount_insert. cbn [rows].
      rewrite map_size_insert_Some by (rewrite Hval0; eauto).
      rewrite <- Hsize0. lia. }
    destruct (Z.leb_spec batchRowCount rowCount) as [Hfull | _]; [lia | ].
    intros [= <-]. cbn [fst snd accumulatedChanges pendingChangeCh pendingRowCnt
                        changeEventCount].
    split; [ | reflexivity].
    split; [symmetry; exact Hrc | split; [exact Hbound | ]].
    exists new. auto.
  - (* a new key *)
    assert (Hrc : getRowCount
                    (<[fullTableName := mkTableChange (table change0)
                         (<[key := mkRowChange pkValue row changeType (Timestamp header)]>
                            (rows change0))]> (accumulatedChanges df)) = rowCount + 1).
    { rewrite getRowCount_insert. cbn [rows].
      rewrite map_size_insert_None by exact Hval0.
      rewrite <- Hsize0. lia. }
    cbn [pk].
    destruct (Z.leb_spec batchRowCount (rowCount + 1)) as [Hfull | Hroom];
      intros [= <-]; cbn [fst snd accumulatedChanges pendingChangeCh pendingRowCnt
                          changeEventCount];
      (split; [ | reflexivity]).
    + split; [symmetry; apply getRowCount_empty | ].
      split; [reflexivity | ].
      eexists (new ++ [_]). split; [rewrite Hsent, <- app_assoc; reflexivity | ].
      split.
      * apply List.Forall_app. split; [exact Hnew | ].
        constructor; [ | constructor]. rewrite Hrc. lia.
      * rewrite List.length_app. cbn [length]. unfold batchRowCount in *. lia.
    + split; [symmetry; exact Hrc | split; [exact Hroom | ]].
      exists new. split; [exact Hsent | split; [exact Hnew | lia]].
Qed.

Lemma rowStep_keyInv (tbl : TableDiff) (header : EventHeader)
  (changeType : rowChangeType) (n : nat) (pkIndices : list nat)
  (sent0 : list (gmap string tableChange))
  (st st' : Diff * Z) (row : list (option value)) :
  keyInv sent0 st ->
  rowStep tbl header changeType n pkIndices st row = Value st' ->
  keyInv sent0 st'.
Proof.
  destruct st as [df rowCount]. unfold keyInv. cbn [fst snd].
  intros (Hkeyed & new & Hsent & Hnew).
  unfold rowStep.
  destruct (pkValueOf n pkIndices row) as [pkValue|msg]; cbn [bind]; [ | discriminate].
  set (fullTableName := (Schema tbl ++ "." ++ Table tbl)%string).
  set (change0 := match accumulatedChanges df !! fullTableName with
                  | Some change => change
                  | None => mkTableChange tbl ∅
                  end).
  set (key := Join pkValue "-").
  assert (Hkey0 : forall k r, rows change0 !! k = Some r -> k = Join (pk r) "-").
  { unfold change0. intros k r.
    destruct (accumulatedChanges df !! fullTableName) as [old|] eqn:Hold.
    - apply (Hkeyed fullTableName old k r Hold).
    - cbn [rows]. rewrite lookup_empty. discriminate. }
  assert (Hkeyed' : forall val,
    (forall r, rows change0 !! key = Some r -> pk val = pk r) ->
    (rows change0 !! key = None -> pk val = pkValue) ->
    keyedByPk (<[fullTableName := mkTableChange (table change0)
                                    (<[key := val]> (rows change0))]>
                 (accumulatedChanges df))).
  { intros val Hsome Hnone name change k r.
    destruct (decide (fullTableName = name)) as [<- | Hne].
    - rewrite lookup_insert_eq. intros [= <-]. cbn [rows].
      destruct (decide (key = k)) as [<- | Hk].
      + rewrite lookup_insert_eq. intros [= <-].
        destruct (rows change0 !! key) as [r0|] eqn:Hr0.
        * rewrite (Hsome r0 eq_refl). exact (Hkey0 key r0 Hr0).
        * rewrite (Hnone eq_refl). reflexivity.
      + rewrite lookup_insert_ne by exact Hk. apply Hkey0.
    - rewrite lookup_insert_ne by exact Hne. apply Hkeyed. }
  assert (Hempty : keyedByPk ∅)
    by (intros name change k r; rewrite lookup_empty; discriminate).
  destruct (rows change0 !! key) as [val0|] eqn:Hval0; cbn [pk];
    match goal with |- context [batchRowCount <=? ?rc] => destruct (batchRowCount <=? rc) end;
    intros [= <-]; cbn [fst snd accumulatedChanges pendingChangeCh];
    first
      [ split; [exact Hempty | ];
        eexists (new ++ [_]); split; [rewrite Hsent, <- app_assoc; reflexivity | ];
        apply List.Forall_app; split; [exact Hnew | ];
        constructor; [ | constructor ]
      | split; [ | exists new; auto ] ];
    apply Hkeyed'; first [intros r [= <-]; reflexivity | discriminate | reflexivity].
Qed.

Lemma foldGo_inv {A S : Type} (f : S -> A -> go S) (P : S -> Prop)
  (Hstep : forall s a s', P s -> f s a = Value s' -> P s') (l : list A) :
  forall s s', P s -> foldGo f l s = Value s' -> P s'.
Proof.
  induction l as [|a l IH]; intros s s' Hs; cbn [foldGo].
  - intros [= <-]. exact Hs.
  - destruct (f s a) as [s1|msg] eqn:Hf; cbn [bind]; [ | discriminate].
    apply IH. exact (Hstep _ _ _ Hs Hf).
Qed.

(** The state [processEventRows] hands to its row loop, and what it returns
    otherwise. *)
Lemma processEventRows_cases (df : Diff) (header : EventHeader) (ev : RowsEvent)
  (df' : Diff) (err : option error) :
  processEventRows df header ev = Value (df', err) ->
  df' = df \/
  exists tbl changeType n pkIndices counts rowsToDo rc,
    foldGo (rowStep tbl header changeType n pkIndices) rowsToDo
      (mkDiff (accumulatedChanges df) (pendingRowCnt df) counts (pendingChangeCh df),
       getRowCount (accumulatedChanges df))
    = Value (df', rc).
Proof.
  unfold processEventRows.
  destruct (GetTable (Event_Schema ev) (Event_Table ev)) as [tbl|];
    [ | intros [= <- _]; auto].
  destruct (PrimaryKey tbl) as [pkInfo|]; [ | discriminate].
  destruct (List.existsb _ (SkippedColumns ev)); [intros [= <- _]; auto | ].
  destruct (getRowChangeType (Header_EventType header)) eqn:Htype;
    [intros [= <- _]; auto | | | ];
    (destruct (pkIndicesOf tbl (Columns pkInfo)) as [pkIndices|msg]; cbn [bind];
       [ | discriminate];
     cbn [accumulatedChanges];
     match goal with
     | |- context [foldGo ?f ?l ?st] =>
       destruct (foldGo f l st) as [[df1 rc1]|msg] eqn:Hfold; cbn [bind fst];
         [ | discriminate]
     end;
     intros [= <- _]; right; repeat eexists; exact Hfold).
Qed.

(** The counts after an event: the bound on the accumulator, the size of
    the batches sent and the pending row counter. *)
Lemma processEventRows_counts (df : Diff) (header : EventHeader) (ev : RowsEvent)
  (df' : Diff) (err : option error) :
  getRowCount (accumulatedChanges df) < batchRowCount ->
  processEventRows df header ev = Value (df', err) ->
  getRowCount (accumulatedChanges df') < batchRowCount /\
  exists new,
    pendingChangeCh df' = pendingChangeCh df ++ new /\
    List.Forall (fun b => getRowCount b = batchRowCount) new /\
    pendingRowCnt df' - pendingRowCnt df
      = getRowCount (accumulatedChanges df') + batchRowCount * Z.of_nat (length new)
        - getRowCount (accumulatedChanges df).
Proof.
  intros Hbound Hrun.
  destruct (processEventRows_cases _ _ _ _ _ Hrun)
    as [-> | (tbl & changeType & n & pkIndices & counts & rowsToDo & rc & Hfold)].
  - split; [exact Hbound | ]. exists []. rewrite app_nil_r.
    split; [reflexivity | split; [constructor | cbn; lia]].
  - assert (Hinv : countInv (pendingChangeCh df) (pendingRowCnt df)
                     (getRowCount (accumulatedChanges df)) (df', rc)).
    { refine (foldGo_inv _ _ _ _ _ _ _ Hfold).
      - intros s a s' Hs Hstep. exact (proj1 (rowStep_countInv _ _ _ _ _ _ _ _ _ _ _ Hs Hstep)).
      - unfold countInv. cbn [fst snd accumulatedChanges pendingChangeCh pendingRowCnt].
        split; [reflexivity | split; [exact Hbound | ]].
        exists []. rewrite app_nil_r. split; [reflexivity | split; [constructor | cbn; lia]]. }
    unfold countInv in Hinv. cbn [fst snd] in Hinv.
    destruct Hinv as (Hrc & Hlt & new & Hsent & Hnew & Hpending).
    split; [lia | ]. exists new. split; [exact Hsent | split; [exact Hnew | lia]].
Qed.

(** The keys after an event, in the accumulator and in the batches sent. *)
Lemma processEventRows_keyed (df : Diff) (header : EventHeader) (ev : RowsEvent)
  (df' : Diff) (err : option error) :
  keyedByPk (accumulatedChanges df) ->
  processEventRows df header ev = Value (df', err) ->
  keyedByPk (accumulatedChanges df') /\
  exists new,
    pendingChangeCh df' = pendingChangeCh df ++ new /\ List.Forall keyedByPk new.
Proof.
  intros Hkeyed Hrun.
  destruct (processEventRows_cases _ _ _ _ _ Hrun)
    as [-> | (tbl & changeType & n & pkIndices & counts & rowsToDo & rc & Hfold)].
  - split; [exact Hkeyed | ]. exists []. rewrite app_nil_r. split; [reflexivity | constructor].
  - assert (Hinv : keyInv (pendingChangeCh df) (df', rc)).
    { refine (foldGo_inv _ _ _ _ _ _ _ Hfold).
      - intros s a s' Hs Hstep. exact (rowStep_keyInv _ _ _ _ _ _ _ _ _ Hs Hstep).
      - unfold keyInv. cbn [fst accumulatedChanges pendingChangeCh].
        split; [exact Hkeyed | ]. exists []. rewrite app_nil_r.
        split; [reflexivity | constructor]. }
    exact Hinv.
Qed.

(** Started with fewer than [batchRowCount] accumulated rows, each filed
    under the join of its own [pk], [processEventRows] leaves fewer than
    [batchRowCount] rows accumulated, each under the join of its [pk]; every
    batch it sends holds exactly [batchRowCount] rows, each under the join of
    its [pk]; and the pending row counter grows by the number of rows that
    are new to the batches sent and to the accumulator. *)
Theorem processEventRows_batches (df : Diff) (header : EventHeader) (ev : RowsEvent)
  (df' : Diff) (err : option error) :
  getRowCount (accumulatedChanges df) < batchRowCount ->
  keyedByPk (accumulatedChanges df) ->
  processEventRows df header ev = Value (df', err) ->
  getRowCount (accumulatedChanges df') < batchRowCount /\
  keyedByPk (accumulatedChanges df') /\
  exists new,
    pendingChangeCh df' = pendingChangeCh df ++ new /\
    List.Forall (fun b => getRowCount b = batchRowCount /\ keyedByPk b) new /\
    pendingRowCnt df' - pendingRowCnt df
      = getRowCount (accumulatedChanges df') + batchRowCount * Z.of_nat (length new)
        - getRowCount (accumulatedChanges df).
Proof.
  intros Hbound Hkeyed Hrun.
  destruct (processEventRows_counts _ _ _ _ _ Hbound Hrun)
    as (Hbound1 & new1 & Hsent1 & Hfull & Hpending1).
  destruct (processEventRows_keyed _ _ _ _ _ Hkeyed Hrun)
    as (Hkeyed1 & new2 & Hsent2 & Hkeys).
  assert (new2 = new1) as ->
    by (rewrite Hsent1 in Hsent2; exact (app_inv_head _ _ _ (eq_sym Hsent2))).
  split; [exact Hbound1 | split; [exact Hkeyed1 | ]].
  exists new1. split; [exact Hsent1 | split; [ | exact Hpending1]].
  rewrite List.Forall_forall in Hfull, Hkeys |- *.
  intros b Hb. split; [exact (Hfull b Hb) | exact (Hkeys b Hb)].
Qed.

(** *** When [processEventRows] panics *)

Lemma selectRows_subset {A : Type} (init step : nat) (rows : list A) (row : A) :
  In row (selectRows init step rows) -> In row rows.
Proof.
  unfold selectRows. intros Hin.
  apply List.in_map_iff in Hin as ([i row'] & <- & Hin).
  apply List.filter_In in Hin as [Hin _].
  exact (List.in_combine_r _ _ _ _ Hin).
Qed.

Lemma pkValueOf_panics (n : nat) (pkIndices : list nat) (row : list (option value)) :
  (forall idx, In idx pkIndices -> (idx < length row)%nat) ->
  isPanic (pkValueOf n pkIndices row) ->
  exists idx, In idx pkIndices /\ (n <= idx)%nat.
Proof.
  intros Hrow. unfold pkValueOf.
  assert (Hgen : forall pkValue, length pkValue = n ->
    isPanic (foldGo (fun pkValue idx =>
                       match row !! idx with
                       | None => Panic "index out of range"
                       | Some x =>
                         if Nat.ltb idx (length pkValue)
                         then Value (<[idx := Sprintf_v x]> pkValue)
                         else Panic "index out of range"
                       end) pkIndices pkValue) ->
    exists idx, In idx pkIndices /\ (n <= idx)%nat).
  { induction pkIndices as [|i pkIndices IH]; intros pkValue Hlen; cbn [foldGo].
    - intros [].
    - destruct (lookup_lt_is_Some_2 row i) as [x Hx]; [apply Hrow; left; reflexivity | ].
      rewrite Hx. destruct (Nat.ltb_spec i (length pkValue)) as [Hlt | Hge]; cbn [bind].
      + intros Hpanic.
        destruct (IH (fun idx Hin => Hrow idx (or_intror Hin))
                     (<[i := Sprintf_v x]> pkValue)) as (idx & Hin & Hidx);
          [rewrite length_insert; exact Hlen | exact Hpanic | ].
        exists idx. split; [right; exact Hin | exact Hidx].
      + intros _. exists i. split; [left; reflexivity | lia]. }
  apply Hgen, length_replicate.
Qed.

Lemma rowStep_panics (tbl : TableDiff) (header : EventHeader)
  (changeType : rowChangeType) (n : nat) (pkIndices : list nat)
  (st : Diff * Z) (row : list (option value)) :
  isPanic (rowStep tbl header changeType n pkIndices st row)
  <-> isPanic (pkValueOf n pkIndices row).
Proof.
  destruct st as [df rowCount]. unfold rowStep.
  destruct (pkValueOf n pkIndices row) as [pkValue|msg]; cbn [bind isPanic]; [ | tauto].
  destruct (rows _ !! Join pkValue "-");
    match goal with |- context [batchRowCount <=? ?rc] => destruct (batchRowCount <=? rc) end;
    cbn [isPanic]; tauto.
Qed.

Lemma foldGo_panics {A S : Type} (f : S -> A -> go S) (bad : A -> Prop)
  (Hstep : forall s a, isPanic (f s a) <-> bad a) (l : list A) :
  forall s, isPanic (foldGo f l s) <-> exists a, In a l /\ bad a.
Proof.
  induction l as [|a l IH]; intros s; cbn [foldGo].
  - split; [intros [] | intros (a & [] & _)].
  - specialize (Hstep s a). destruct (f s a) as [s'|msg]; cbn [bind isPanic] in *.
    + rewrite IH. split.
      * intros (a' & Hin & Hbad). exists a'. split; [right; exact Hin | exact Hbad].
      * intros (a' & [<- | Hin] & Hbad); [destruct (proj2 Hstep Hbad) | eauto].
    + split; [intros _ | auto]. exists a. split; [left; reflexivity | tauto].
Qed.

(** For an event of a known table that has rows to process, none shorter
    than the key's offsets ask: [processEventRows] panics exactly when some
    primary-key column has an offset in the row that is not below the number
    of primary-key columns, since [pkValue], of that many entries, is indexed
    by the offset. *)
Theorem processEventRows_panics_iff (df : Diff) (header : EventHeader) (ev : RowsEvent)
  (tbl : TableDiff) (pkInfo : IndexInfo) (pkIndices : list nat) :
  GetTable (Event_Schema ev) (Event_Table ev) = Some tbl ->
  PrimaryKey tbl = Some pkInfo ->
  List.existsb (fun cols => Nat.ltb 0 (length cols)) (SkippedColumns ev) = false ->
  pkIndicesOf tbl (Columns pkInfo) = Value pkIndices ->
  (forall row idx, In row (Event_Rows ev) -> In idx pkIndices -> (idx < length row)%nat) ->
  match getRowChangeType (Header_EventType header) with
  | rowInvalidChange => False
  | rowUpdated => selectRows 1 2 (Event_Rows ev) <> []
  | _ => selectRows 0 1 (Event_Rows ev) <> []
  end ->
  (isPanic (processEventRows df header ev)
   <-> exists idx, In idx pkIndices /\ (length (Columns pkInfo) <= idx)%nat).
Proof.
  intros Htbl Hpk Hskip Hidx Hrows Hsome. unfold processEventRows.
  rewrite Htbl, Hpk, Hskip.
  assert (Hloop : forall changeType init step st,
    selectRows init step (Event_Rows ev) <> [] ->
    (isPanic (foldGo (rowStep tbl header changeType (length (Columns pkInfo)) pkIndices)
                     (selectRows init step (Event_Rows ev)) st)
     <-> exists idx, In idx pkIndices /\ (length (Columns pkInfo) <= idx)%nat)).
  { intros changeType init step st Hne.
    rewrite (foldGo_panics _ (fun row => isPanic (pkValueOf (length (Columns pkInfo))
                                                     pkIndices row))
               (fun s a => rowStep_panics _ _ _ _ _ s a)).
    split.
    - intros (row & Hin & Hpanic). apply (pkValueOf_panics _ _ row); [ | exact Hpanic].
      intros idx Hidx'. apply Hrows; [ | exact Hidx'].
      exact (selectRows_subset _ _ _ _ Hin).
    - intros (idx & Hin & Hbig).
      destruct (selectRows init step (Event_Rows ev)) as [|row rest]; [destruct (Hne eq_refl) | ].
      exists row. split; [left; reflexivity | ].
      exact (pkValueOf_offset_panics _ _ _ _ Hin Hbig). }
  destruct (getRowChangeType (Header_EventType header)); [destruct Hsome | | | ];
    rewrite Hidx; cbn [bind];
    match goal with
    | |- context [foldGo (rowStep tbl header ?ct ?n ?idxs) (selectRows ?i ?s ?rs) ?st] =>
      rewrite <- (Hloop ct i s st Hsome);
      destruct (foldGo (rowStep tbl header ct n idxs) (selectRows i s rs) st);
      cbn [bind isPanic]; tauto
    end.
Qed.

(** *** The accumulator routine: [Diff.rowsEventProcessRoutine] (diff.go) *)

(** [case <-df.validationTimer.C]: a non-empty accumulator is sent and
    replaced by an empty one. *)
Definition onValidationTimer (df : Diff) : Diff :=
  let rowCount := getRowCount (accumulatedChanges df) in
  if 0 <? rowCount then
    mkDiff ∅ (pendingRowCnt df) (changeEventCount df)
           (pendingChangeCh df ++ [accumulatedChanges df])
  else df.

(** What the [select] of the routine receives, until the context is done. *)
Inductive routineInput :=
| GotRowsEvent (header : EventHeader) (ev : RowsEvent)
| TimerFired.

(** One turn of the loop; an error of [processEventRows] is logged only. *)
Definition routineStep (df : Diff) (input : routineInput) : go Diff :=
  match input with
  | GotRowsEvent header ev =>
    do res <- processEventRows df header ev; Value res.1
  | TimerFired => Value (onValidationTimer df)
  end.

Definition rowsEventProcessRoutine (inputs : list routineInput) (df : Diff) : go Diff :=
  foldGo routineStep inputs df.

Lemma getRowCount_nonneg (c : gmap string tableChange) : 0 <= getRowCount c.
Proof.
  unfold getRowCount.
  apply (map_fold_weak_ind (fun res _ => 0 <= res)); [lia | ].
  intros name change m res _ Hres. lia.
Qed.

(** The rows of a list of batches. *)
Definition rowsSent (batches : list (gmap string tableChange)) : Z :=
  List.fold_right (fun b res => getRowCount b + res) 0 batches.

Lemma rowsSent_app (a b : list (gmap string tableChange)) :
  rowsSent (a ++ b) = rowsSent a + rowsSent b.
Proof.
  unfold rowsSent. induction a as [|x a IH]; cbn [app List.fold_right]; [reflexivity | ].
  rewrite IH. lia.
Qed.

Lemma rowsSent_full (batches : list (gmap string tableChange)) :
  List.Forall (fun b => getRowCount b = batchRowCount) batches ->
  rowsSent batches = batchRowCount * Z.of_nat (length batches).
Proof.
  induction 1 as [|b batches Hb _ IH]; [reflexivity | ].
  cbn [rowsSent List.fold_right length]. fold (rowsSent batches). rewrite IH, Hb. lia.
Qed.

(** A batch the validator can take: not empty, not above [batchRowCount],
    each row under the join of its [pk]. *)
Definition goodBatch (b : gmap string tableChange) : Prop :=
  0 < getRowCount b <= batchRowCount /\ keyedByPk b.

Definition routineInv (df0 df : Diff) : Prop :=
  getRowCount (accumulatedChanges df) < batchRowCount /\
  keyedByPk (accumulatedChanges df) /\
  exists new,
    pendingChangeCh df = pendingChangeCh df0 ++ new /\
    List.Forall goodBatch new /\
    pendingRowCnt df - pendingRowCnt df0
      = getRowCount (accumulatedChanges df) + rowsSent new
        - getRowCount (accumulatedChanges df0).

Lemma routineStep_inv (df0 df df' : Diff) (input : routineInput) :
  routineInv df0 df -> routineStep df input = Value df' -> routineInv df0 df'.
Proof.
  intros (Hbound & Hkeyed & new & Hsent & Hgood & Hpending).
  destruct input as [header ev|]; cbn [routineStep].
  - destruct (processEventRows df header ev) as [[df1 err]|msg] eqn:Hrun; cbn [bind fst];
      [ | discriminate].
    intros [= <-].
    destruct (processEventRows_counts _ _ _ _ _ Hbound Hrun)
      as (Hbound1 & new1 & Hsent1 & Hfull & Hpending1).
    destruct (processEventRows_keyed _ _ _ _ _ Hkeyed Hrun)
      as (Hkeyed1 & new2 & Hsent2 & Hkeys).
    assert (new2 = new1) as -> by (rewrite Hsent1 in Hsent2; exact (app_inv_head _ _ _ (eq_sym Hsent2))).
    split; [exact Hbound1 | split; [exact Hkeyed1 | ]].
    exists (new ++ new1). split; [rewrite Hsent1, Hsent, app_assoc; reflexivity | ].
    split.
    + apply List.Forall_app. split; [exact Hgood | ].
      rewrite List.Forall_forall in Hfull, Hkeys |- *.
      intros b Hb. split; [rewrite (Hfull b Hb); unfold batchRowCount; lia | exact (Hkeys b Hb)].
    + rewrite rowsSent_app, (rowsSent_full _ Hfull). lia.
  - intros [= <-]. unfold onValidationTimer.
    destruct (Z.ltb_spec 0 (getRowCount (accumulatedChanges df))) as [Hpos | Hzero].
    + unfold routineInv. cbn [accumulatedChanges pendingChangeCh pendingRowCnt].
      split; [rewrite getRowCount_empty; reflexivity | ].
      split; [intros name change k r; rewrite lookup_empty; discriminate | ].
      exists (new ++ [accumulatedChanges df]).
      split; [rewrite Hsent, app_assoc; reflexivity | ].
      split.
      * apply List.Forall_app. split; [exact Hgood | ].
        constructor; [ | constructor]. split; [lia | exact Hkeyed].
      * rewrite rowsSent_app, getRowCount_empty. cbn [rowsSent List.fold_right]. lia.
    + split; [exact Hbound | split; [exact Hkeyed | ]]. exists new. auto.
Qed.

(** Whatever events and timer ticks the routine receives, starting with
    fewer than [batchRowCount] accumulated rows, each filed under the join of
    its [pk]: fewer than [batchRowCount] rows stay accumulated; every batch
    sent to the validator holds at least one row and at most [batchRowCount],
    each under the join of its [pk]; and the pending row counter has grown by
    the rows sent plus the rows accumulated since. *)
Theorem rowsEventProcessRoutine_batches (inputs : list routineInput) (df df' : Diff) :
  getRowCount (accumulatedChanges df) < batchRowCount ->
  keyedByPk (accumulatedChanges df) ->
  rowsEventProcessRoutine inputs df = Value df' ->
  getRowCount (accumulatedChanges df') < batchRowCount /\
  keyedByPk (accumulatedChanges df') /\
  exists new,
    pendingChangeCh df' = pendingChangeCh df ++ new /\
    List.Forall goodBatch new /\
    pendingRowCnt df' - pendingRowCnt df
      = getRowCount (accumulatedChanges df') + rowsSent new
        - getRowCount (accumulatedChanges df).
Proof.
  intros Hbound Hkeyed Hrun.
  refine (foldGo_inv routineStep (routineInv df)
            (fun s a s' => routineStep_inv df s s' a) inputs df df' _ Hrun).
  split; [exact Hbound | split; [exact Hkeyed | ]].
  exists []. rewrite app_nil_r. split; [reflexivity | split; [constructor | cbn; lia]].
Qed.

(** After a tick of the timer nothing is left accumulated. *)
Theorem onValidationTimer_empties (df : Diff) :
  getRowCount (accumulatedChanges (onValidationTimer df)) = 0.
Proof.
  unfold onValidationTimer.
  destruct (Z.ltb_spec 0 (getRowCount (accumulatedChanges df))) as [Hpos | Hzero].
  - apply getRowCount_empty.
  - pose proof (getRowCount_nonneg (accumulatedChanges df)). lia.
Qed.

End Accumulator.

(** *** [Diff.getRowChangeIterator] and [Diff.validateInsertAndUpdateRows] *)

(** [dbutil.ColumnData]. *)
Record ColumnData := mkColumnData {
  Data : string;
  IsNull : bool
}.

(** A row as the sources hand it out: [map[string]*dbutil.ColumnData]. *)
Abbreviation RowData := (gmap string ColumnData).

(** The [less] closure handed to [sort.Slice], on the two [pk] slices: the
    first index where they differ decides, by Go's [<] on strings.  Where the
    Go code would index [right.pk] past its end the answer here is [false];
    every [pk] of one table has [len(pk.Columns)] entries, so that case does
    not arise between rows of one table. *)
Fixpoint pkLess (left right : list string) : bool :=
  match left, right with
  | [], _ => false
  | _ :: _, [] => false
  | l :: left', r :: right' =>
    if String.eqb l r then pkLess left' right' else String.ltb l r
  end.

(** [sort.Slice(rows, less)].  The library's algorithm is not part of the
    repository; it is modelled by insertion from the right, of which only
    two facts are used: the result is a permutation of the slice, and no
    element is [less] than the one before it. *)
Fixpoint insertBy {A : Type} (less : A -> A -> bool) (x : A) (l : list A) : list A :=
  match l with
  | [] => [x]
  | y :: l' => if less y x then y :: insertBy less x l' else x :: y :: l'
  end.

Definition sort_Slice {A : Type} (less : A -> A -> bool) (l : list A) : list A :=
  List.fold_right (insertBy less) [] l.

Lemma insertBy_perm {A : Type} (less : A -> A -> bool) (x : A) (l : list A) :
  Permutation (insertBy less x l) (x :: l).
Proof.
  induction l as [|y l IH]; cbn [insertBy]; [reflexivity | ].
  destruct (less y x); [ | reflexivity].
  rewrite IH. apply perm_swap.
Qed.

Lemma sort_Slice_perm {A : Type} (less : A -> A -> bool) (l : list A) :
  Permutation (sort_Slice less l) l.
Proof.
  induction l as [|x l IH]; cbn; [reflexivity | ].
  fold (sort_Slice less l). rewrite insertBy_perm. now constructor.
Qed.

(** *** [SimpleRowsIterator.Next] (validate.go) *)

(** [Rows] is a slice of maps, of which any may be [nil] ([None]); [Idx] is
    an [int]. *)
Record SimpleRowsIterator := mkSimpleRowsIterator {
  Rows : list (option RowData);
  Idx : Z
}.

(** The row returned (the error is always [nil]) and the iterator after the
    call; [b.Rows[b.Idx]] with a negative [Idx] panics. *)
Definition Next (b : SimpleRowsIterator) : go (option RowData * SimpleRowsIterator) :=
  if Z.of_nat (length (Rows b)) <=? Idx b then Value (None, b)
  else if Idx b <? 0 then Panic "index out of range"
  else
    match Rows b !! Z.to_nat (Idx b) with
    | Some row => Value (row, mkSimpleRowsIterator (Rows b) (Idx b + 1))
    | None => Panic "index out of range"
    end.

(** The results of [k] calls of [Next] in a row. *)
Fixpoint callNext (k : nat) (b : SimpleRowsIterator)
  : go (list (option RowData) * SimpleRowsIterator) :=
  match k with
  | O => Value ([], b)
  | S k' =>
    do r <- Next b;
    do rest <- callNext k' r.2;
    Value (r.1 :: rest.1, rest.2)
  end.

Lemma callNext_from (rows : list (option RowData)) (k : nat) :
  forall i : nat,
    (i <= length rows)%nat ->
    callNext k (mkSimpleRowsIterator rows (Z.of_nat i))
    = Value (take k (drop i rows) ++ replicate (k - (length rows - i)) None,
             mkSimpleRowsIterator rows (Z.of_nat (Nat.min (i + k) (length rows)))).
Proof.
  induction k as [|k IH]; intros i Hi; cbn [callNext].
  - rewrite take_0, Nat.add_0_r, Nat.min_l by exact Hi. reflexivity.
  - unfold Next. cbn [Rows Idx].
    destruct (Z.leb_spec (Z.of_nat (length rows)) (Z.of_nat i)) as [Hend | Hmore].
    + assert (i = length rows) as -> by lia. cbn [bind fst snd].
      rewrite (IH (length rows) (Nat.le_refl _)). cbn [bind fst snd].
      rewrite drop_all, !take_nil, Nat.sub_diag, !Nat.sub_0_r.
      rewrite !Nat.min_r by lia. reflexivity.
    + destruct (Z.ltb_spec (Z.of_nat i) 0) as [Hneg | _]; [lia | ].
      rewrite Nat2Z.id.
      destruct (lookup_lt_is_Some_2 rows i) as [row Hrow]; [lia | ].
      rewrite Hrow. cbn [bind fst snd].
      replace (Z.of_nat i + 1) with (Z.of_nat (S i)) by lia.
      rewrite (IH (S i)) by lia. cbn [bind fst snd].
      rewrite (drop_S rows row i Hrow). cbn [take app].
      replace (S k - (length rows - i))%nat with (k - (length rows - S i))%nat by lia.
      replace (Nat.min (S i + k) (length rows)) with (Nat.min (i + S k) (length rows))
        by (f_equal; lia).
      reflexivity.
Qed.

(** An iterator over [n] rows hands them out in order, as they are, in its
    first [n] calls, and [nil] in every call after that; it does not panic
    and it ends at [Idx = n]. *)
Theorem Next_in_order (rows : list (option RowData)) (more : nat) :
  callNext (length rows + more) (mkSimpleRowsIterator rows 0)
  = Value (rows ++ replicate more None,
           mkSimpleRowsIterator rows (Z.of_nat (length rows))).
Proof.
  change 0 with (Z.of_nat 0).
  rewrite (callNext_from rows (length rows + more) 0) by lia.
  rewrite drop_0, Nat.sub_0_r, take_ge by lia.
  replace (length rows + more - length rows)%nat with more by lia.
  rewrite Nat.min_r by lia. reflexivity.
Qed.

Section Validate.

Context {value : Type}.
Variable fmt_v : value -> string.

(** [df.cfg.UseBinlogForCompare]. *)
Variable UseBinlogForCompare : bool.

(** [GetRows(ctx, cond)] of both sides. *)
Variables upstream_GetRows downstream_GetRows :
  Cond -> Batch.RowDataIterator RowData + error.

(** [utils.CompareData(up, down, orderKeyCols, tableInfo.Columns)] with the
    order key [dbutil.SelectUniqueOrderKey] picks for the table. *)
Variable CompareData : TableDiff -> RowData -> RowData -> bool * Z * option error.

(** The [colMap] built for one row change. *)
Definition colMapOf (tbl : TableDiff) (r : rowChange (value := value)) : go RowData :=
  foldGo (fun (colMap : RowData) c =>
            match data r !! Offset c with
            | None => Panic "index out of range"
            | Some x =>
              let colData := match x with Some v => fmt_v v | None => "" end in
              let isNull := match x with Some _ => false | None => true end in
              Value (<[Name_O c := mkColumnData colData isNull]> colMap)
            end)
         (Info_Columns tbl) ∅.

(** The rows of the [SimpleRowsIterator] returned, in the order [Next]
    yields them. *)
Definition getRowChangeIterator (tbl : TableDiff)
  (rows : list (rowChange (value := value))) : go (list RowData) :=
  let rows := sort_Slice (fun left right => pkLess (pk left) (pk right)) rows in
  mapGo (colMapOf tbl) rows.

Definition getPkValues (data : RowData) (cond : Cond) : go (list string) :=
  match PrimaryKey (Cond_Table cond) with
  | None => Panic "invalid memory address or nil pointer dereference"
  | Some pk =>
    mapGo (fun name =>
             match data !! name with
             | Some column => Value (Data column)
             | None => Panic "invalid memory address or nil pointer dereference"
             end) (Columns pk)
  end.

(** What [validateInsertAndUpdateRows] returns: [(failedRows, err)]. *)
Definition validated := (list (list string) * option error)%type.

(** [for lastUpstreamData != nil { failedRows = append(failedRows,
    getPkValues(lastUpstreamData, cond)); lastUpstreamData, err =
    upstreamRowsIterator.Next() }], entered with a row in hand. *)
Fixpoint failRest (cond : Cond) (lastUpstreamData : RowData)
  (it : Batch.RowDataIterator RowData) (failedRows : list (list string))
  : go validated :=
  do pkValues <- getPkValues lastUpstreamData cond;
  let failedRows := failedRows ++ [pkValues] in
  match it with
  | [] => Value (failedRows, None)
  | Batch.NextRow r :: it' => failRest cond r it' failedRows
  | Batch.NextErr e :: _ => Value ([], Some e)
  end.

(** The merge loop; one unit of [fuel] is one turn of the outer [for]. *)
Fixpoint validateLoop (fuel : nat) (cond : Cond)
  (lastUpstreamData lastDownstreamData : option RowData)
  (upstreamRowsIterator downstreamRowsIterator : Batch.RowDataIterator RowData)
  (failedRows : list (list string)) : option (go validated) :=
  match fuel with
  | O => None
  | S fuel' =>
    match Batch.fetch lastUpstreamData upstreamRowsIterator with
    | inr err => Some (Value ([], Some err))
    | inl (lastUp, upIt) =>
      match Batch.fetch lastDownstreamData downstreamRowsIterator with
      | inr err => Some (Value ([], Some err))
      | inl (lastDown, downIt) =>
        match lastUp, lastDown with
        | None, Some _ => Some (Value (failedRows, None))
        | None, None => Some (Value (failedRows, None))
        | Some u, None => Some (failRest cond u upIt failedRows)
        | Some u, Some d =>
          match CompareData (Cond_Table cond) u d with
          | (_, _, Some err) => Some (Value ([], Some (Trace err)))
          | (true, _, None) =>
            validateLoop fuel' cond None None upIt downIt failedRows
          | (false, cmp, None) =>
            if cmp =? 1 then
              validateLoop fuel' cond (Some u) None upIt downIt failedRows
            else if cmp =? -1 then
              match getPkValues u cond with
              | Panic msg => Some (Panic msg)
              | Value pkValues =>
                validateLoop fuel' cond None (Some d) upIt downIt
                  (failedRows ++ [pkValues])
              end
            else if cmp =? 0 then
              match getPkValues u cond with
              | Panic msg => Some (Panic msg)
              | Value pkValues =>
                validateLoop fuel' cond None None upIt downIt
                  (failedRows ++ [pkValues])
              end
            else
              validateLoop fuel' cond (Some u) (Some d) upIt downIt failedRows
          end
        end
      end
    end
  end.

(** The upstream iterator: the rows of the binlog when
    [UseBinlogForCompare], the rows queried upstream otherwise. *)
Definition upstreamRows (rows : list (rowChange (value := value))) (cond : Cond)
  : go (Batch.RowDataIterator RowData + error) :=
  if UseBinlogForCompare then
    do its <- getRowChangeIterator (Cond_Table cond) rows;
    Value (inl (List.map Batch.NextRow its))
  else Value (upstream_GetRows cond).

Definition validateInsertAndUpdateRows (fuel : nat)
  (rows : list (rowChange (value := value))) (cond : Cond)
  : option (go validated) :=
  match upstreamRows rows cond with
  | Panic msg => Some (Panic msg)
  | Value (inr err) => Some (Value ([], Some (Trace err)))
  | Value (inl upstreamRowsIterator) =>
    match downstream_GetRows cond with
    | inr err => Some (Value ([], Some (Trace err)))
    | inl downstreamRowsIterator =>
      validateLoop fuel cond None None
        upstreamRowsIterator downstreamRowsIterator []
    end
  end.

(** *** What the merge of [validateInsertAndUpdateRows] reports *)

(** The rows an iterator yields. *)
Definition yields (it : Batch.RowDataIterator RowData) (r : RowData) : Prop :=
  In (Batch.NextRow r) it.

(** A row in hand, or still to come. *)
Definition pending (last : option RowData) (it : Batch.RowDataIterator RowData)
  (r : RowData) : Prop :=
  last = Some r \/ yields it r.

(** [CompareData] finds the two rows equal. *)
Definition foundEqual (cond : Cond) (u d : RowData) : Prop :=
  exists cmp, CompareData (Cond_Table cond) u d = (true, cmp, None).

Lemma fetch_pending (last : option RowData) (it : Batch.RowDataIterator RowData)
  (last' : option RowData) (it' : Batch.RowDataIterator RowData) :
  Batch.fetch last it = inl (last', it') ->
  forall r, pending last it r <-> pending last' it' r.
Proof.
  unfold Batch.fetch, pending, yields. destruct last as [r0|].
  - intros [= <- <-]. tauto.
  - destruct it as [|[r0|e] it0]; intros [= <- <-] r; cbn; [tauto | ].
    split; [intros [[=] | [[= ->] | Hin]] | intros [[= ->] | Hin]]; auto.
Qed.

Lemma fetch_exhausted (last : option RowData) (it it' : Batch.RowDataIterator RowData) :
  Batch.fetch last it = inl (None, it') -> forall r, ~ pending last it r.
Proof.
  unfold Batch.fetch, pending, yields. destruct last as [r0|]; [discriminate | ].
  destruct it as [|[r0|e] it0]; intros [=] r [[=] | []].
Qed.

Lemma failRest_reports (cond : Cond) (it : Batch.RowDataIterator RowData) :
  forall u acc failed,
    failRest cond u it acc = Value (failed, None) ->
    (forall p, In p acc -> In p failed) /\
    (forall u', pending (Some u) it u' ->
       exists p, getPkValues u' cond = Value p /\ In p failed) /\
    (forall p, In p failed ->
       In p acc \/ exists u', pending (Some u) it u' /\ getPkValues u' cond = Value p).
Proof.
  unfold pending, yields.
  induction it as [|[r|e] it IH]; intros u acc failed; cbn [failRest];
    destruct (getPkValues u cond) as [p0|msg] eqn:Hpk; cbn [bind]; try discriminate.
  - intros [= <-]. repeat split.
    + intros p Hp. apply in_or_app. auto.
    + intros u' [[= <-] | []]. exists p0. split; [exact Hpk | ].
      apply in_or_app. right. left. reflexivity.
    + intros p Hp. apply in_app_or in Hp as [Hp | [<- | []]]; [auto | ].
      right. exists u. auto.
  - intros Hrest. destruct (IH _ _ _ Hrest) as (Hacc & Hall & Honly). repeat split.
    + intros p Hp. apply Hacc, in_or_app. auto.
    + intros u' [[= <-] | [[= <-] | Hin]].
      * exists p0. split; [exact Hpk | ]. apply Hacc, in_or_app. right. left. reflexivity.
      * apply Hall. auto.
      * apply Hall. auto.
    + intros p Hp. destruct (Honly p Hp) as [Hin | (u' & [[= <-] | Hin] & Hu')].
      * apply in_app_or in Hin as [Hin | [<- | []]]; [auto | ].
        right. exists u. auto.
      * right. exists r. cbn. auto.
      * right. exists u'. cbn. auto.
Qed.

Lemma validateLoop_reports (cond : Cond) (fuel : nat) :
  forall lastUp lastDown upIt downIt acc failed,
    validateLoop fuel cond lastUp lastDown upIt downIt acc = Some (Value (failed, None)) ->
    (forall p, In p acc -> In p failed) /\
    (forall u, pending lastUp upIt u ->
       (forall d, pending lastDown downIt d -> ~ foundEqual cond u d) ->
       exists p, getPkValues u cond = Value p /\ In p failed) /\
    (forall p, In p failed ->
       In p acc \/ exists u, pending lastUp upIt u /\ getPkValues u cond = Value p).
Proof.
  induction fuel as [|fuel IH]; intros lastUp lastDown upIt downIt acc failed;
    [discriminate | ].
  cbn [validateLoop].
  destruct (Batch.fetch lastUp upIt) as [[u upIt']|e] eqn:Hup; [ | discriminate].
  destruct (Batch.fetch lastDown downIt) as [[d downIt']|e] eqn:Hdown; [ | discriminate].
  pose proof (fetch_pending _ _ _ _ Hup) as Hpu.
  pose proof (fetch_pending _ _ _ _ Hdown) as Hpd.
  destruct u as [u|], d as [d|].
  - destruct (CompareData (Cond_Table cond) u d) as [[eq cmp] oe] eqn:Hcmp.
    destruct eq, oe as [e|]; try discriminate.
    + (* equal rows: both advance *)
      intros Hrec. destruct (IH _ _ _ _ _ _ Hrec) as (Hacc & Hall & Honly).
      split; [exact Hacc | split].
      * intros u' Hu' Hno. apply Hpu in Hu'.
        unfold pending, yields in Hu'. destruct Hu' as [[= <-] | Hin].
        -- destruct (Hno d); [apply Hpd; left; reflexivity | exists cmp; exact Hcmp].
        -- apply Hall; [right; exact Hin | ].
           intros d' Hd'. apply Hno, Hpd. destruct Hd' as [[=] | Hd']. right. exact Hd'.
      * intros p Hp. destruct (Honly p Hp) as [Hin | (u' & [[=] | Hin] & Hu')]; [auto | ].
        right. exists u'. split; [apply Hpu; right; exact Hin | exact Hu'].
    + destruct (cmp =? 1); [ | destruct (cmp =? -1); [ | destruct (cmp =? 0)]].
      * (* downstream row skipped *)
        intros Hrec. destruct (IH _ _ _ _ _ _ Hrec) as (Hacc & Hall & Honly).
        split; [exact Hacc | split].
        -- intros u' Hu' Hno. apply Hall; [apply Hpu; exact Hu' | ].
           intros d' Hd'. apply Hno, Hpd. destruct Hd' as [[=] | Hd']. right. exact Hd'.
        -- intros p Hp. destruct (Honly p Hp) as [Hin | (u' & Hu' & Hpk)]; [auto | ].
           right. exists u'. split; [apply Hpu; exact Hu' | exact Hpk].
      * (* upstream row missing downstream *)
        destruct (getPkValues u cond) as [p0|msg] eqn:Hpk; [ | discriminate].
        intros Hrec. destruct (IH _ _ _ _ _ _ Hrec) as (Hacc & Hall & Honly).
        split; [intros p Hp; apply Hacc, in_or_app; auto | split].
        -- intros u' Hu' Hno. apply Hpu in Hu'.
           unfold pending, yields in Hu'. destruct Hu' as [[= <-] | Hin].
           ++ exists p0. split; [exact Hpk | ]. apply Hacc, in_or_app. right. left. reflexivity.
           ++ apply Hall; [right; exact Hin | ].
              intros d' Hd'. apply Hno, Hpd. exact Hd'.
        -- intros p Hp. destruct (Honly p Hp) as [Hin | (u' & [[=] | Hin] & Hu')].
           ++ apply in_app_or in Hin as [Hin | [<- | []]]; [auto | ].
              right. exists u. split; [apply Hpu; left; reflexivity | exact Hpk].
           ++ right. exists u'. split; [apply Hpu; right; exact Hin | exact Hu'].
      * (* same key, different rows *)
        destruct (getPkValues u cond) as [p0|msg] eqn:Hpk; [ | discriminate].
        intros Hrec. destruct (IH _ _ _ _ _ _ Hrec) as (Hacc & Hall & Honly).
        split; [intros p Hp; apply Hacc, in_or_app; auto | split].
        -- intros u' Hu' Hno. apply Hpu in Hu'.
           unfold pending, yields in Hu'. destruct Hu' as [[= <-] | Hin].
           ++ exists p0. split; [exact Hpk | ]. apply Hacc, in_or_app. right. left. reflexivity.
           ++ apply Hall; [right; exact Hin | ].
              intros d' Hd'. apply Hno, Hpd. destruct Hd' as [[=] | Hd']. right. exact Hd'.
        -- intros p Hp. destruct (Honly p Hp) as [Hin | (u' & [[=] | Hin] & Hu')].
           ++ apply in_app_or in Hin as [Hin | [<- | []]]; [auto | ].
              right. exists u. split; [apply Hpu; left; reflexivity | exact Hpk].
           ++ right. exists u'. split; [apply Hpu; right; exact Hin | exact Hu'].
      * (* no case of the switch: nothing moves *)
        intros Hrec. destruct (IH _ _ _ _ _ _ Hrec) as (Hacc & Hall & Honly).
        split; [exact Hacc | split].
        -- intros u' Hu' Hno. apply Hall; [apply Hpu; exact Hu' | ].
           intros d' Hd'. apply Hno, Hpd. exact Hd'.
        -- intros p Hp. destruct (Honly p Hp) as [Hin | (u' & Hu' & Hpk)]; [auto | ].
           right. exists u'. split; [apply Hpu; exact Hu' | exact Hpk].
  - intros [= Hrest]. destruct (failRest_reports _ _ _ _ _ Hrest) as (Hacc & Hall & Honly).
    split; [exact Hacc | split].
    + intros u' Hu' _. apply Hall, Hpu, Hu'.
    + intros p Hp. destruct (Honly p Hp) as [Hin | (u' & Hu' & Hpk)]; [auto | ].
      right. exists u'. split; [apply Hpu; exact Hu' | exact Hpk].
  - intros [= <-]. split; [auto | split; [ | auto]].
    intros u' Hu'. destruct (fetch_exhausted _ _ _ Hup u' Hu').
  - intros [= <-]. split; [auto | split; [ | auto]].
    intros u' Hu'. destruct (fetch_exhausted _ _ _ Hup u' Hu').
Qed.

(** C5 (amended).  When [validateInsertAndUpdateRows] returns without error,
    every primary key present upstream only is among the failed rows, and so
    is every primary key present on both sides whose two rows [CompareData]
    does not find equal; a primary key present downstream only is skipped:
    every failed row is the key of an upstream row.  ([CompareData] is taken
    to find only rows of the same primary key equal.) *)
Theorem validateInsertAndUpdateRows_reports (fuel : nat)
  (rows : list (rowChange (value := value))) (cond : Cond)
  (upIt downIt : Batch.RowDataIterator RowData) (failed : list (list string)) :
  (forall u d, yields upIt u -> yields downIt d -> foundEqual cond u d ->
     getPkValues u cond = getPkValues d cond) ->
  upstreamRows rows cond = Value (inl upIt) ->
  downstream_GetRows cond = inl downIt ->
  validateInsertAndUpdateRows fuel rows cond = Some (Value (failed, None)) ->
  (forall u p, yields upIt u -> getPkValues u cond = Value p ->
     (forall d, yields downIt d -> getPkValues d cond <> Value p) ->
     In p failed) /\
  (forall u d p, yields upIt u -> yields downIt d ->
     getPkValues u cond = Value p -> getPkValues d cond = Value p ->
     ~ foundEqual cond u d ->
     (forall d', yields downIt d' -> getPkValues d' cond = Value p -> d' = d) ->
     In p failed) /\
  (forall p, In p failed ->
     exists u, yields upIt u /\ getPkValues u cond = Value p).
Proof.
  intros Hsame Hup Hdown. unfold validateInsertAndUpdateRows.
  rewrite Hup, Hdown. intros Hrun.
  destruct (validateLoop_reports _ _ _ _ _ _ _ _ Hrun) as (_ & Hall & Honly).
  assert (Hp : forall it r, pending None it r <-> yields it r)
    by (unfold pending; intros it r; split; [intros [[=] | H]; exact H | auto]).
  split; [ | split].
  - intros u p Hu Hpk Hno.
    destruct (Hall u) as (p' & Hpk' & Hin); [apply Hp, Hu | | congruence].
    intros d Hd Heq. apply Hp in Hd.
    apply (Hno d Hd). rewrite <- (Hsame u d Hu Hd Heq). exact Hpk.
  - intros u d p Hu Hd Hpku Hpkd Hdiff Huniq.
    destruct (Hall u) as (p' & Hpk' & Hin); [apply Hp, Hu | | congruence].
    intros d' Hd' Heq. apply Hp in Hd'.
    assert (d' = d) as -> by (apply Huniq; [exact Hd' | ];
      rewrite <- (Hsame u d' Hu Hd' Heq); exact Hpku).
    exact (Hdiff Heq).
  - intros p Hin. destruct (Honly p Hin) as [[] | (u & Hu & Hpk)].
    exists u. split; [apply Hp, Hu | exact Hpk].
Qed.

(** The merge ends when [CompareData] answers 1, -1 or 0 for rows it finds
    different. *)
Definition cmpIsSign : Prop :=
  forall tbl u d cmp,
    CompareData tbl u d = (false, cmp, None) -> cmp = 1 \/ cmp = -1 \/ cmp = 0.

Lemma validateLoop_returns (Hsign : cmpIsSign) (cond : Cond) (fuel : nat) :
  forall lastUp lastDown upIt downIt acc,
    (Batch.held lastUp + Batch.held lastDown + length upIt + length downIt < fuel)%nat ->
    exists out, validateLoop fuel cond lastUp lastDown upIt downIt acc = Some out.
Proof.
  induction fuel as [|fuel IH]; intros lastUp lastDown upIt downIt acc Hfuel; [lia | ].
  cbn [validateLoop].
  destruct (Batch.fetch lastUp upIt) as [[u upIt']|e] eqn:Hup; [ | eauto].
  destruct (Batch.fetch lastDown downIt) as [[d downIt']|e] eqn:Hdown; [ | eauto].
  apply Batch.fetch_measure in Hup, Hdown.
  destruct u as [u|], d as [d|]; eauto.
  destruct (CompareData (Cond_Table cond) u d) as [[eq cmp] oe] eqn:Hcmp.
  cbn [Batch.held] in Hup, Hdown.
  destruct eq, oe as [e|]; eauto.
  - apply IH. cbn [Batch.held]. lia.
  - destruct (Hsign _ _ _ _ Hcmp) as [-> | [-> | ->]]; cbn;
      try (destruct (getPkValues u cond); [ | eauto]);
      apply IH; cbn [Batch.held]; lia.
Qed.

(** [validateInsertAndUpdateRows] returns: with more fuel than the two
    iterators hold results, and a [CompareData] that answers 1, -1 or 0 for
    rows it finds different, the merge loop ends. *)
Theorem validateInsertAndUpdateRows_returns (Hsign : cmpIsSign) (fuel : nat)
  (rows : list (rowChange (value := value))) (cond : Cond) :
  (forall upIt downIt,
     upstreamRows rows cond = Value (inl upIt) ->
     downstream_GetRows cond = inl downIt ->
     (length upIt + length downIt < fuel)%nat) ->
  exists out, validateInsertAndUpdateRows fuel rows cond = Some out.
Proof.
  intros Hfuel. unfold validateInsertAndUpdateRows.
  destruct (upstreamRows rows cond) as [[upIt|e]|msg]; [ | eauto | eauto].
  destruct (downstream_GetRows cond) as [downIt|e]; [ | eauto].
  apply validateLoop_returns; [exact Hsign | ].
  cbn [Batch.held]. specialize (Hfuel upIt downIt eq_refl eq_refl). lia.
Qed.

(** *** What [getRowChangeIterator] yields *)

Lemma mapGo_Forall2 {A B : Type} (f : A -> go B) (l : list A) :
  forall bs, mapGo f l = Value bs -> List.Forall2 (fun a b => f a = Value b) l bs.
Proof.
  induction l as [|a l IH]; intros bs; cbn [mapGo].
  - intros [= <-]. constructor.
  - destruct (f a) as [b|msg] eqn:Hf; cbn [bind]; [ | discriminate].
    destruct (mapGo f l) as [bs'|msg]; cbn [bind]; [ | discriminate].
    intros [= <-]. constructor; [exact Hf | apply IH; reflexivity].
Qed.

(** *** [Diff.validateDeletedRows] (diff.go) *)

(** The loop over [downstreamRowsIterator.Next()]. *)
Fixpoint collectFailed (cond : Cond) (it : Batch.RowDataIterator RowData)
  (failedRows : list (list string)) : go validated :=
  match it with
  | [] => Value (failedRows, None)
  | Batch.NextErr e :: _ => Value ([], Some e)
  | Batch.NextRow data :: it' =>
    do pkValues <- getPkValues data cond;
    collectFailed cond it' (failedRows ++ [pkValues])
  end.

Definition validateDeletedRows (cond : Cond) : go validated :=
  match downstream_GetRows cond with
  | inr err => Value ([], Some (Trace err))
  | inl downstreamRowsIterator => collectFailed cond downstreamRowsIterator []
  end.

(** The result of [Next] is a row whose key is [pkValues]. *)
Definition rowOfKey (cond : Cond) (result : Batch.NextResult RowData)
  (pkValues : list string) : Prop :=
  exists data, result = Batch.NextRow data /\ getPkValues data cond = Value pkValues.

Lemma collectFailed_reports (cond : Cond) (it : Batch.RowDataIterator RowData) :
  forall acc failed,
    collectFailed cond it acc = Value (failed, None) ->
    exists new, failed = acc ++ new /\ List.Forall2 (rowOfKey cond) it new.
Proof.
  induction it as [|[data|e] it IH]; intros acc failed; cbn [collectFailed].
  - intros [= <-]. exists []. rewrite app_nil_r. split; [reflexivity | constructor].
  - destruct (getPkValues data cond) as [pkValues|msg] eqn:Hpk; cbn [bind];
      [ | discriminate].
    intros Hrest. destruct (IH _ _ Hrest) as (new & -> & Hall).
    exists (pkValues :: new). rewrite <- app_assoc. split; [reflexivity | ].
    constructor; [exists data; auto | exact Hall].
  - discriminate.
Qed.

(** When [validateDeletedRows] returns without error, the failed rows are
    the keys of the rows the downstream still returns for the deleted keys,
    one per row and in order; no row is reported exactly when the downstream
    returns none. *)
Theorem validateDeletedRows_reports (cond : Cond)
  (downIt : Batch.RowDataIterator RowData) (failed : list (list string)) :
  downstream_GetRows cond = inl downIt ->
  validateDeletedRows cond = Value (failed, None) ->
  List.Forall2 (rowOfKey cond) downIt failed /\
  (failed = [] <-> downIt = []).
Proof.
  intros Hdown. unfold validateDeletedRows. rewrite Hdown. intros Hrun.
  destruct (collectFailed_reports _ _ _ _ Hrun) as (new & -> & Hall).
  cbn [app]. split; [exact Hall | ].
  destruct Hall; split; intros Heq; congruence.
Qed.

(** *** The validator: [validateChanges], [validateTableChange],
    [updateFailedChanges] (diff.go) *)

(** A pointer to a [rowChange]: [None] is [nil]. *)
Abbreviation rowPtr := (option (rowChange (value := value))).

(** A [tableChange] on the validator's side.  Its rows are pointers, and
    [validateTableChange] stores [v.rows[key]] whether or not the batch has
    the key: an entry may be [nil] ([None]). *)
Record tableChange' := mkTableChange' {
  table' : TableDiff;
  rows' : gmap string (rowPtr)
}.

(** A table change as the accumulator sends it: no row is [nil]. *)
Definition sent (c : tableChange (value := value)) : tableChange' :=
  mkTableChange' (table c) (Some <$> rows c).

(** Go ranges over a map in an order it does not specify.  The order is a
    parameter: every theorem below holds for every order. *)
Variable rangeTables : gmap string tableChange' -> list (string * tableChange').
Variable rangeRows :
  gmap string (rowPtr)
  -> list (string * rowPtr).

Definition rangesAreOrders : Prop :=
  (forall m, Permutation (rangeTables m) (map_to_list m)) /\
  (forall m, Permutation (rangeRows m) (map_to_list m)).

Definition nilDereference : string :=
  "invalid memory address or nil pointer dereference".

(** [getRowCount] on the validator's maps. *)
Definition getRowCount' (c : gmap string tableChange') : Z :=
  map_fold (fun _ v res => res + Z.of_nat (size (rows' v))) 0 c.

(** [validateChanges]: an error of the validation is a panic. *)
Definition validateChanges (fuel : nat) (tbl : TableDiff)
  (rows : list (rowChange (value := value))) (deleteChange : bool)
  : option (go (list (list string))) :=
  let pkValues := List.map pk rows in
  let cond := mkCond tbl pkValues in
  let res :=
    if deleteChange then Some (validateDeletedRows cond)
    else validateInsertAndUpdateRows fuel rows cond in
  match res with
  | None => None
  | Some (Panic msg) => Some (Panic msg)
  | Some (Value (_, Some err)) => Some (Panic err)
  | Some (Value (failedRows, None)) => Some (Value failedRows)
  end.

(** [for _, r := range v.rows]: the deleted rows apart from the others. *)
Definition splitByType (rs : list (string * rowPtr))
  : go (list (rowChange (value := value)) * list (rowChange (value := value))) :=
  foldGo (fun (acc : list (rowChange (value := value)) * list (rowChange (value := value)))
              (kr : string * rowPtr) =>
            match kr.2 with
            | None => Panic nilDereference
            | Some r =>
              match theType r with
              | rowDeleted => Value (acc.1, acc.2 ++ [r])
              | _ => Value (acc.1 ++ [r], acc.2)
              end
            end) rs ([], []).

(** [for _, pk := range failedRows { key := strings.Join(pk, "-");
    rows[key] = v.rows[key] }]. *)
Definition recordFailed (v : tableChange') (failedRows : list (list string))
  (rows : gmap string (rowPtr)) : gmap string (rowPtr) :=
  List.fold_left
    (fun (rows : gmap string (rowPtr)) pk =>
       let key := Join pk "-" in
       <[key := default None (rows' v !! key)]> rows)
    failedRows rows.

(** [if len(changes) > 0 { failedRows := df.validateChanges(...); ... }]. *)
Definition validateKind (fuel : nat) (v : tableChange')
  (changes : list (rowChange (value := value))) (deleteChange : bool)
  (rows : gmap string (rowPtr))
  : option (go (gmap string (rowPtr))) :=
  if Nat.ltb 0 (length changes) then
    match validateChanges fuel (table' v) changes deleteChange with
    | None => None
    | Some (Panic msg) => Some (Panic msg)
    | Some (Value failedRows) => Some (Value (recordFailed v failedRows rows))
    end
  else Some (Value rows).

(** The body of the loop over the tables: the [rows] of the failed keys. *)
Definition validateTable (fuel : nat) (v : tableChange')
  : option (go (gmap string (rowPtr))) :=
  match splitByType (rangeRows (rows' v)) with
  | Panic msg => Some (Panic msg)
  | Value (insertUpdateChanges, deleteChanges) =>
    match validateKind fuel v insertUpdateChanges false ∅ with
    | Some (Value rows) => validateKind fuel v deleteChanges true rows
    | other => other
    end
  end.

Fixpoint validateTables (fuel : nat) (tables : list (string * tableChange'))
  (failedChanges : gmap string tableChange')
  : option (go (gmap string tableChange')) :=
  match tables with
  | [] => Some (Value failedChanges)
  | (k, v) :: tables' =>
    match validateTable fuel v with
    | None => None
    | Some (Panic msg) => Some (Panic msg)
    | Some (Value rows) =>
      validateTables fuel tables'
        (if Nat.ltb 0 (size rows)
         then <[k := mkTableChange' (table' v) rows]> failedChanges
         else failedChanges)
    end
  end.

Definition validateTableChange (fuel : nat) (tableChanges : gmap string tableChange')
  : option (go (gmap string tableChange')) :=
  validateTables fuel (rangeTables tableChanges) ∅.

(** [for _, r := range v.rows { key := strings.Join(r.pk, "-");
    delete(prevFailed.rows, key) }]. *)
Definition forgetRows (rs : list (string * rowPtr))
  (prevRows : gmap string (rowPtr)) : go (gmap string (rowPtr)) :=
  foldGo (fun (prevRows : gmap string (rowPtr))
              (kr : string * rowPtr) =>
            match kr.2 with
            | None => Panic nilDereference
            | Some r => Value (delete (Join (pk r) "-") prevRows)
            end) rs prevRows.

(** [for _, r := range v.rows { key := strings.Join(r.pk, "-");
    prevFailed.rows[key] = r }]. *)
Definition keepRows (rs : list (string * rowPtr))
  (prevRows : gmap string (rowPtr)) : go (gmap string (rowPtr)) :=
  foldGo (fun (prevRows : gmap string (rowPtr))
              (kr : string * rowPtr) =>
            match kr.2 with
            | None => Panic nilDereference
            | Some r => Value (<[Join (pk r) "-" := Some r]> prevRows)
            end) rs prevRows.

(** The first loop of [updateFailedChanges], over [all]. *)
Definition forgetTables (all : list (string * tableChange'))
  (failedChanges : gmap string tableChange') : go (gmap string tableChange') :=
  foldGo (fun (failedChanges : gmap string tableChange') (kv : string * tableChange') =>
            match failedChanges !! kv.1 with
            | None => Value failedChanges
            | Some prevFailed =>
              do prevRows <- forgetRows (rangeRows (rows' kv.2)) (rows' prevFailed);
              Value (<[kv.1 := mkTableChange' (table' prevFailed) prevRows]> failedChanges)
            end) all failedChanges.

(** The second loop, over [failed]. *)
Definition keepTables (failed : list (string * tableChange'))
  (failedChanges : gmap string tableChange') : go (gmap string tableChange') :=
  foldGo (fun (failedChanges : gmap string tableChange') (kv : string * tableChange') =>
            let prevFailed :=
              match failedChanges !! kv.1 with
              | Some prevFailed => prevFailed
              | None => mkTableChange' (table' kv.2) ∅
              end in
            do prevRows <- keepRows (rangeRows (rows' kv.2)) (rows' prevFailed);
            Value (<[kv.1 := mkTableChange' (table' prevFailed) prevRows]> failedChanges))
         failed failedChanges.

(** [df.updateFailedChanges(all, failed)], on [df.failedChanges]. *)
Definition updateFailedChanges (all failed failedChanges : gmap string tableChange')
  : go (gmap string tableChange') :=
  do failedChanges <- forgetTables (rangeTables all) failedChanges;
  keepTables (rangeTables failed) failedChanges.

(** *** What [validateTableChange] reports *)

(** What a range over a map visits: its entries, each key once. *)
Lemma range_entries {A : Type} (l : list (string * A)) (m : gmap string A) :
  Permutation l (map_to_list m) ->
  NoDup l.*1 /\ forall k x, (k, x) ∈ l <-> m !! k = Some x.
Proof.
  intros Hperm. split.
  - rewrite Hperm. apply NoDup_fst_map_to_list.
  - intros k x. rewrite Hperm. apply elem_of_map_to_list.
Qed.

(** Every entry of [rows] is the entry of the batch under the same key. *)
Definition fromBatch (v : tableChange') (rows : gmap string rowPtr) : Prop :=
  forall key entry, rows !! key = Some entry -> entry = default None (rows' v !! key).

Lemma recordFailed_fromBatch (v : tableChange') (failedRows : list (list string)) :
  forall rows,
    fromBatch v rows ->
    fromBatch v (recordFailed v failedRows rows) /\
    (forall key, is_Some (rows !! key) ->
       is_Some (recordFailed v failedRows rows !! key)) /\
    (forall pk, In pk failedRows ->
       is_Some (recordFailed v failedRows rows !! Join pk "-")).
Proof.
  unfold recordFailed.
  induction failedRows as [|pk0 failedRows IH]; intros rows Hrows; cbn [List.fold_left].
  - split; [exact Hrows | split; [auto | intros pk []]].
  - assert (Hstep : fromBatch v (<[Join pk0 "-" := default None (rows' v !! Join pk0 "-")]> rows)).
    { intros key entry. destruct (decide (Join pk0 "-" = key)) as [<- | Hne].
      - rewrite lookup_insert_eq. intros [= <-]. reflexivity.
      - rewrite lookup_insert_ne by exact Hne. apply Hrows. }
    destruct (IH _ Hstep) as (Hfrom & Hkeep & Hnew).
    split; [exact Hfrom | split].
    + intros key Hkey. apply Hkeep.
      destruct (decide (Join pk0 "-" = key)) as [<- | Hne].
      * rewrite lookup_insert_eq. eauto.
      * rewrite lookup_insert_ne by exact Hne. exact Hkey.
    + intros pk [<- | Hin]; [ | apply Hnew, Hin].
      apply Hkeep. rewrite lookup_insert_eq. eauto.
Qed.

Lemma validateKind_fromBatch (fuel : nat) (v : tableChange')
  (changes : list (rowChange (value := value))) (deleteChange : bool)
  (rows rows2 : gmap string rowPtr) :
  validateKind fuel v changes deleteChange rows = Some (Value rows2) ->
  fromBatch v rows ->
  fromBatch v rows2 /\
  (forall key, is_Some (rows !! key) -> is_Some (rows2 !! key)) /\
  (forall failedRows pk,
     changes <> [] ->
     validateChanges fuel (table' v) changes deleteChange = Some (Value failedRows) ->
     In pk failedRows -> is_Some (rows2 !! Join pk "-")).
Proof.
  unfold validateKind. intros Hrun Hrows.
  destruct changes as [|c changes]; cbn [length Nat.ltb Nat.leb] in Hrun.
  - injection Hrun as <-. split; [exact Hrows | split; [auto | ]].
    intros failedRows pk Hne. destruct (Hne eq_refl).
  - destruct (validateChanges fuel (table' v) (c :: changes) deleteChange)
      as [[failedRows|msg]|]; try discriminate.
    injection Hrun as <-.
    destruct (recordFailed_fromBatch v failedRows rows Hrows) as (Hfrom & Hkeep & Hnew).
    split; [exact Hfrom | split; [exact Hkeep | ]].
    intros failedRows' pk _ [= <-]. apply Hnew.
Qed.

(** The entries of the rows [validateTable] returns are the batch's, and
    each failed key either kind of validation reported has an entry. *)
Lemma validateTable_fromBatch (fuel : nat) (v : tableChange')
  (rows : gmap string rowPtr) :
  validateTable fuel v = Some (Value rows) ->
  fromBatch v rows /\
  forall insertUpdateChanges deleteChanges (deleteChange : bool) failedRows pk,
    splitByType (rangeRows (rows' v)) = Value (insertUpdateChanges, deleteChanges) ->
    let changes := if deleteChange then deleteChanges else insertUpdateChanges in
    changes <> [] ->
    validateChanges fuel (table' v) changes deleteChange = Some (Value failedRows) ->
    In pk failedRows -> is_Some (rows !! Join pk "-").
Proof.
  unfold validateTable.
  destruct (splitByType (rangeRows (rows' v))) as [[iu del]|msg]; [ | discriminate].
  destruct (validateKind fuel v iu false ∅) as [[rows1|msg]|] eqn:H1; try discriminate.
  intros H2.
  assert (Hempty : fromBatch v ∅) by (intros key entry; rewrite lookup_empty; discriminate).
  destruct (validateKind_fromBatch _ _ _ _ _ _ H1 Hempty) as (Hfrom1 & _ & Hnew1).
  destruct (validateKind_fromBatch _ _ _ _ _ _ H2 Hfrom1) as (Hfrom2 & Hkeep2 & Hnew2).
  split; [exact Hfrom2 | ].
  intros iu' del' deleteChange failedRows pk [= <- <-]. cbv zeta.
  destruct deleteChange; intros Hne Hrun Hin.
  - exact (Hnew2 _ _ Hne Hrun Hin).
  - apply Hkeep2. exact (Hnew1 _ _ Hne Hrun Hin).
Qed.

Lemma validateTables_lookup (fuel : nat) (tables : list (string * tableChange')) :
  forall acc failed,
    NoDup tables.*1 ->
    validateTables fuel tables acc = Some (Value failed) ->
    forall k,
      ((k ∉ tables.*1) -> failed !! k = acc !! k) /\
      (forall v, (k, v) ∈ tables ->
         exists rows,
           validateTable fuel v = Some (Value rows) /\
           failed !! k = if Nat.ltb 0 (size rows)
                         then Some (mkTableChange' (table' v) rows)
                         else acc !! k).
Proof.
  induction tables as [|[k0 v0] tables IH]; intros acc failed Hnodup; cbn [validateTables].
  - intros [= <-] k. split; [reflexivity | ].
    intros v Hin. apply elem_of_nil in Hin. destruct Hin.
  - cbn [fmap list_fmap fst] in Hnodup. apply NoDup_cons in Hnodup as [Hfresh Hnodup].
    destruct (validateTable fuel v0) as [[rows0|msg]|] eqn:Hv0; try discriminate.
    intros Hrest k. destruct (IH _ _ Hnodup Hrest k) as [Hout Hin].
    assert (Hacc : k <> k0 ->
              (if Nat.ltb 0 (size rows0)
               then <[k0 := mkTableChange' (table' v0) rows0]> acc else acc) !! k
              = acc !! k).
    { intros Hne. destruct (Nat.ltb 0 (size rows0)); [ | reflexivity].
      apply lookup_insert_ne. congruence. }
    split.
    + cbn [fmap list_fmap fst]. rewrite not_elem_of_cons. intros [Hne Hnot].
      rewrite (Hout Hnot). exact (Hacc Hne).
    + intros v Hv. apply elem_of_cons in Hv as [[= -> ->] | Hv].
      * exists rows0. split; [exact Hv0 | ]. rewrite (Hout Hfresh).
        destruct (Nat.ltb 0 (size rows0)); [apply lookup_insert_eq | reflexivity].
      * destruct (Hin v Hv) as (rows & Hrows & Hk). exists rows. split; [exact Hrows | ].
        rewrite Hk. destruct (Nat.ltb 0 (size rows)); [reflexivity | ].
        apply Hacc. intros ->. apply Hfresh.
        apply list_elem_of_fmap. exists (k0, v). auto.
Qed.

Lemma validateTableChange_sound (fuel : nat)
  (tableChanges failed : gmap string tableChange') :
  (forall m, Permutation (rangeTables m) (map_to_list m)) ->
  validateTableChange fuel tableChanges = Some (Value failed) ->
  forall k ft,
    failed !! k = Some ft ->
    exists v,
      tableChanges !! k = Some v /\ table' ft = table' v /\
      rows' ft <> ∅ /\ fromBatch v (rows' ft).
Proof.
  intros Horder. unfold validateTableChange. intros Hrun.
  destruct (range_entries _ _ (Horder tableChanges)) as [Hnodup Hentries].
  pose proof (validateTables_lookup _ _ _ _ Hnodup Hrun) as Hlookup.
  intros k ft Hk. destruct (Hlookup k) as [Hout Hin].
  destruct (decide (k ∈ (rangeTables tableChanges).*1)) as [Hmem | Hnot].
  - apply list_elem_of_fmap in Hmem as ([k' v] & -> & Hmem). cbn [fst] in *.
    destruct (Hin v Hmem) as (rows & Hrows & Hfailed).
    rewrite Hk in Hfailed.
    destruct (Nat.ltb_spec 0 (size rows)) as [Hpos | Hzero];
      [ | rewrite lookup_empty in Hfailed; discriminate].
    injection Hfailed as ->. exists v. cbn [table' rows'].
    split; [apply Hentries, Hmem | split; [reflexivity | split]].
    + intros ->. rewrite map_size_empty in Hpos. lia.
    + exact (proj1 (validateTable_fromBatch _ _ _ Hrows)).
  - rewrite (Hout Hnot), lookup_empty in Hk. discriminate.
Qed.

(** What [validateTableChange] returns when it returns.  It invents
    nothing: each table of the result is a table of the batch, with at least
    one entry, and each entry is the batch's entry under the same key, [nil]
    when the batch has none.  And it forgets nothing: each failed key that
    [validateChanges] reported for a table, for its deleted rows or for the
    others, has its entry in the result. *)
Theorem validateTableChange_reports (fuel : nat)
  (tableChanges failed : gmap string tableChange') :
  (forall m, Permutation (rangeTables m) (map_to_list m)) ->
  validateTableChange fuel tableChanges = Some (Value failed) ->
  (forall k ft,
     failed !! k = Some ft ->
     exists v,
       tableChanges !! k = Some v /\ table' ft = table' v /\
       rows' ft <> ∅ /\ fromBatch v (rows' ft)) /\
  (forall k v insertUpdateChanges deleteChanges (deleteChange : bool) failedRows pk,
     tableChanges !! k = Some v ->
     splitByType (rangeRows (rows' v)) = Value (insertUpdateChanges, deleteChanges) ->
     let changes := if deleteChange then deleteChanges else insertUpdateChanges in
     changes <> [] ->
     validateChanges fuel (table' v) changes deleteChange = Some (Value failedRows) ->
     In pk failedRows ->
     exists ft,
       failed !! k = Some ft /\
       rows' ft !! Join pk "-" = Some (default None (rows' v !! Join pk "-"))).
Proof.
  intros Horder Hrun.
  split; [exact (validateTableChange_sound _ _ _ Horder Hrun) | ].
  unfold validateTableChange in Hrun.
  destruct (range_entries _ _ (Horder tableChanges)) as [Hnodup Hentries].
  pose proof (validateTables_lookup _ _ _ _ Hnodup Hrun) as Hlookup.
  intros k v iu del deleteChange failedRows pk Hv Hsplit. cbv zeta.
  intros Hne Hval Hpk.
  destruct (Hlookup k) as [_ Hin].
  destruct (Hin v (proj2 (Hentries k v) Hv)) as (rows & Hrows & Hfailed).
  destruct (validateTable_fromBatch _ _ _ Hrows) as [Hfrom Hnew].
  destruct (Hnew iu del deleteChange failedRows pk Hsplit Hne Hval Hpk) as [entry Hentry].
  assert (Hpos : Nat.ltb 0 (size rows) = true).
  { apply Nat.ltb_lt. destruct (size rows) eqn:Hsize; [ | lia].
    apply map_size_empty_inv in Hsize. rewrite Hsize, lookup_empty in Hentry.
    discriminate. }
  rewrite Hpos in Hfailed. eexists. split; [exact Hfailed | ]. cbn [rows'].
  rewrite Hentry. f_equal. exact (Hfrom _ _ Hentry).
Qed.

(** *** What [updateFailedChanges] leaves in [df.failedChanges] *)

(** The entry of a key of a table. *)
Definition rowAt (c : gmap string tableChange') (name key : string) : option rowPtr :=
  match c !! name with
  | Some change => rows' change !! key
  | None => None
  end.

(** Every row is filed under the join of its own [pk]. *)
Definition keyedByPk' (c : gmap string tableChange') : Prop :=
  forall name change key r,
    c !! name = Some change -> rows' change !! key = Some (Some r) ->
    key = Join (pk r) "-".

Definition keyedRows (rs : list (string * rowPtr)) : Prop :=
  forall key r, (key, Some r) ∈ rs -> key = Join (pk r) "-".

Lemma forgetRows_lookup (rs : list (string * rowPtr)) :
  forall prevRows prevRows',
    keyedRows rs ->
    forgetRows rs prevRows = Value prevRows' ->
    forall key,
      prevRows' !! key = if decide (key ∈ rs.*1) then None else prevRows !! key.
Proof.
  unfold forgetRows.
  induction rs as [|[k [r|]] rs IH]; intros prevRows prevRows' Hkeyed; cbn [foldGo snd].
  - intros [= <-] key. destruct (decide (key ∈ [].*1)) as [Hin | _]; [ | reflexivity].
    apply elem_of_nil in Hin. destruct Hin.
  - cbn [bind]. intros Hrest key.
    assert (Hk : k = Join (pk r) "-") by (apply Hkeyed; left).
    rewrite <- Hk in Hrest.
    rewrite (IH _ _ (fun key' r' Hin => Hkeyed key' r' (list_elem_of_further _ _ _ Hin))
                Hrest key).
    cbn [fmap list_fmap fst].
    destruct (decide (key ∈ rs.*1)) as [Hin | Hnot];
      destruct (decide (key ∈ k :: rs.*1)) as [Hin' | Hnot']; try reflexivity.
    + destruct Hnot'. right. exact Hin.
    + apply elem_of_cons in Hin' as [-> | Hin']; [apply lookup_delete_eq | contradiction].
    + apply lookup_delete_ne. intros ->. apply Hnot'. left.
  - discriminate.
Qed.

Lemma keepRows_lookup (rs : list (string * rowPtr)) :
  forall prevRows prevRows',
    keyedRows rs -> NoDup rs.*1 ->
    keepRows rs prevRows = Value prevRows' ->
    forall key,
      (forall entry, (key, entry) ∈ rs -> prevRows' !! key = Some entry) /\
      ((key ∉ rs.*1) -> prevRows' !! key = prevRows !! key).
Proof.
  unfold keepRows.
  induction rs as [|[k [r|]] rs IH]; intros prevRows prevRows' Hkeyed Hnodup;
    cbn [foldGo snd].
  - intros [= <-] key. split; [ | reflexivity].
    intros entry Hin. apply elem_of_nil in Hin. destruct Hin.
  - cbn [bind]. intros Hrest key.
    cbn [fmap list_fmap fst] in Hnodup. apply NoDup_cons in Hnodup as [Hfresh Hnodup].
    assert (Hk : k = Join (pk r) "-") by (apply Hkeyed; left).
    rewrite <- Hk in Hrest.
    destruct (IH _ _ (fun key' r' Hin => Hkeyed key' r' (list_elem_of_further _ _ _ Hin))
                 Hnodup Hrest key) as [Hin Hout].
    split.
    + intros entry Hentry. apply elem_of_cons in Hentry as [[= -> ->] | Hentry].
      * rewrite (Hout Hfresh). apply lookup_insert_eq.
      * exact (Hin entry Hentry).
    + cbn [fmap list_fmap fst]. rewrite not_elem_of_cons. intros [Hne Hnot].
      rewrite (Hout Hnot). apply lookup_insert_ne. congruence.
  - discriminate.
Qed.

Lemma range_keyed (m : gmap string rowPtr) :
  Permutation (rangeRows m) (map_to_list m) ->
  (forall key r, m !! key = Some (Some r) -> key = Join (pk r) "-") ->
  keyedRows (rangeRows m).
Proof.
  intros Hperm Hkeyed key r Hin. apply Hkeyed.
  exact (proj1 (proj2 (range_entries _ _ Hperm) key (Some r)) Hin).
Qed.

Lemma range_member {A : Type} (l : list (string * A)) (m : gmap string A) (key : string) :
  Permutation l (map_to_list m) -> (key ∈ l.*1 <-> is_Some (m !! key)).
Proof.
  intros Hperm. destruct (range_entries _ _ Hperm) as [_ Hentries].
  rewrite list_elem_of_fmap. split.
  - intros ([k x] & -> & Hin). exists x. apply Hentries, Hin.
  - intros [x Hx]. exists (key, x). split; [reflexivity | apply Hentries, Hx].
Qed.

Lemma forgetTables_rowAt (Hrows : forall m, Permutation (rangeRows m) (map_to_list m))
  (all : list (string * tableChange')) :
  forall failedChanges failedChanges',
    NoDup all.*1 ->
    (forall name v key r, (name, v) ∈ all -> rows' v !! key = Some (Some r) ->
       key = Join (pk r) "-") ->
    forgetTables all failedChanges = Value failedChanges' ->
    forall name,
      ((name ∉ all.*1) -> failedChanges' !! name = failedChanges !! name) /\
      (forall v key, (name, v) ∈ all ->
         rowAt failedChanges' name key
         = match rows' v !! key with
           | Some _ => None
           | None => rowAt failedChanges name key
           end).
Proof.
  unfold forgetTables.
  induction all as [|[k0 v0] all IH]; intros fc fc' Hnodup Hkeyed; cbn [foldGo fst snd].
  - intros [= <-] name. split; [reflexivity | ].
    intros v key Hin. apply elem_of_nil in Hin. destruct Hin.
  - cbn [fmap list_fmap fst] in Hnodup. apply NoDup_cons in Hnodup as [Hfresh Hnodup].
    assert (Hkeyed' : forall name v key r, (name, v) ∈ all ->
              rows' v !! key = Some (Some r) -> key = Join (pk r) "-")
      by (intros name v key r Hin; apply (Hkeyed name v); right; exact Hin).
    destruct (fc !! k0) as [prevFailed|] eqn:Hprev.
    + destruct (forgetRows (rangeRows (rows' v0)) (rows' prevFailed))
        as [prevRows|msg] eqn:Hforget; cbn [bind]; [ | discriminate].
      intros Hrest name. destruct (IH _ _ Hnodup Hkeyed' Hrest name) as [Hout Hin].
      split.
      * cbn [fmap list_fmap fst]. rewrite not_elem_of_cons. intros [Hne Hnot].
        rewrite (Hout Hnot). apply lookup_insert_ne. congruence.
      * intros v key Hv. apply elem_of_cons in Hv as [[= -> ->] | Hv].
        -- unfold rowAt. rewrite (Hout Hfresh), lookup_insert_eq, Hprev. cbn [rows'].
           rewrite (forgetRows_lookup _ _ _
                      (range_keyed _ (Hrows _) (fun key' r' => Hkeyed k0 v0 key' r'
                         (list_elem_of_here _ _))) Hforget key).
           destruct (decide (key ∈ (rangeRows (rows' v0)).*1)) as [Hmem | Hnot].
           ++ apply (range_member _ _ _ (Hrows _)) in Hmem as [x ->]. reflexivity.
           ++ destruct (rows' v0 !! key) as [x|] eqn:Hx; [ | reflexivity].
              destruct Hnot. apply (range_member _ _ _ (Hrows _)). eauto.
        -- rewrite (Hin v key Hv). destruct (rows' v !! key); [reflexivity | ].
           unfold rowAt. rewrite lookup_insert_ne; [reflexivity | ].
           intros ->. apply Hfresh. apply list_elem_of_fmap. exists (name, v). auto.
    + cbn [bind]. intros Hrest name. destruct (IH _ _ Hnodup Hkeyed' Hrest name) as [Hout Hin].
      split.
      * cbn [fmap list_fmap fst]. rewrite not_elem_of_cons. intros [Hne Hnot].
        exact (Hout Hnot).
      * intros v key Hv. apply elem_of_cons in Hv as [[= -> ->] | Hv].
        -- unfold rowAt. rewrite (Hout Hfresh), Hprev.
           destruct (rows' v0 !! key); reflexivity.
        -- exact (Hin v key Hv).
Qed.

Lemma keepTables_rowAt (Hrows : forall m, Permutation (rangeRows m) (map_to_list m))
  (failed : list (string * tableChange')) :
  forall failedChanges failedChanges',
    NoDup failed.*1 ->
    (forall name v key r, (name, v) ∈ failed -> rows' v !! key = Some (Some r) ->
       key = Join (pk r) "-") ->
    keepTables failed failedChanges = Value failedChanges' ->
    forall name,
      ((name ∉ failed.*1) -> failedChanges' !! name = failedChanges !! name) /\
      (forall v key, (name, v) ∈ failed ->
         rowAt failedChanges' name key
         = match rows' v !! key with
           | Some entry => Some entry
           | None => rowAt failedChanges name key
           end).
Proof.
  unfold keepTables.
  induction failed as [|[k0 v0] failed IH]; intros fc fc' Hnodup Hkeyed;
    cbn [foldGo fst snd].
  - intros [= <-] name. split; [reflexivity | ].
    intros v key Hin. apply elem_of_nil in Hin. destruct Hin.
  - cbn [fmap list_fmap fst] in Hnodup. apply NoDup_cons in Hnodup as [Hfresh Hnodup].
    assert (Hkeyed' : forall name v key r, (name, v) ∈ failed ->
              rows' v !! key = Some (Some r) -> key = Join (pk r) "-")
      by (intros name v key r Hin; apply (Hkeyed name v); right; exact Hin).
    set (prevFailed := match fc !! k0 with
                       | Some prevFailed => prevFailed
                       | None => mkTableChange' (table' v0) ∅
                       end).
    assert (Hprev : forall key, rows' prevFailed !! key = rowAt fc k0 key).
    { intros key. unfold prevFailed, rowAt. destruct (fc !! k0); [reflexivity | ].
      cbn [rows']. apply lookup_empty. }
    destruct (keepRows (rangeRows (rows' v0)) (rows' prevFailed))
      as [prevRows|msg] eqn:Hkeep; cbn [bind]; [ | discriminate].
    intros Hrest name. destruct (IH _ _ Hnodup Hkeyed' Hrest name) as [Hout Hin].
    split.
    + cbn [fmap list_fmap fst]. rewrite not_elem_of_cons. intros [Hne Hnot].
      rewrite (Hout Hnot). apply lookup_insert_ne. congruence.
    + intros v key Hv. apply elem_of_cons in Hv as [[= -> ->] | Hv].
      * unfold rowAt at 1. rewrite (Hout Hfresh), lookup_insert_eq. cbn [rows'].
        destruct (range_entries _ _ (Hrows (rows' v0))) as [Hnd Hentries].
        destruct (keepRows_lookup _ _ _
                    (range_keyed _ (Hrows _) (fun key' r' => Hkeyed k0 v0 key' r'
                       (list_elem_of_here _ _))) Hnd Hkeep key) as [Hthere Habsent].
        destruct (rows' v0 !! key) as [entry|] eqn:Hentry.
        -- apply Hthere, Hentries, Hentry.
        -- rewrite Habsent; [apply Hprev | ].
           rewrite (range_member _ _ _ (Hrows _)), Hentry. intros [x [=]].
      * rewrite (Hin v key Hv). destruct (rows' v !! key); [reflexivity | ].
        unfold rowAt. rewrite lookup_insert_ne; [reflexivity | ].
        intros ->. apply Hfresh. apply list_elem_of_fmap. exists (name, v). auto.
Qed.

Lemma updateFailedChanges_rowAt (all failed failedChanges failedChanges' :
    gmap string tableChange') :
  rangesAreOrders ->
  keyedByPk' all -> keyedByPk' failed ->
  updateFailedChanges all failed failedChanges = Value failedChanges' ->
  forall name key,
    rowAt failedChanges' name key
    = match rowAt failed name key with
      | Some entry => Some entry
      | None =>
        match rowAt all name key with
        | Some _ => None
        | None => rowAt failedChanges name key
        end
      end.
Proof.
  intros [Htables Hrows] Hall Hfailed. unfold updateFailedChanges.
  destruct (forgetTables (rangeTables all) failedChanges) as [fc1|msg] eqn:Hforget;
    cbn [bind]; [ | discriminate].
  intros Hkeep name key.
  destruct (range_entries _ _ (Htables all)) as [Hnd1 Hent1].
  destruct (range_entries _ _ (Htables failed)) as [Hnd2 Hent2].
  destruct (forgetTables_rowAt Hrows _ _ _ Hnd1
              (fun name v key r Hin => Hall name v key r (proj1 (Hent1 name v) Hin))
              Hforget name) as [Hout1 Hin1].
  destruct (keepTables_rowAt Hrows _ _ _ Hnd2
              (fun name v key r Hin => Hfailed name v key r (proj1 (Hent2 name v) Hin))
              Hkeep name) as [Hout2 Hin2].
  assert (H1 : rowAt fc1 name key
               = match rowAt all name key with
                 | Some _ => None
                 | None => rowAt failedChanges name key
                 end).
  { unfold rowAt at 2. destruct (all !! name) as [v|] eqn:Hv.
    - apply Hin1, Hent1, Hv.
    - unfold rowAt. rewrite Hout1; [reflexivity | ].
      rewrite (range_member _ _ _ (Htables all)), Hv. intros [x [=]]. }
  rewrite <- H1. unfold rowAt at 2. destruct (failed !! name) as [v|] eqn:Hv.
  - apply Hin2, Hent2, Hv.
  - unfold rowAt. rewrite Hout2; [reflexivity | ].
    rewrite (range_member _ _ _ (Htables failed)), Hv. intros [x [=]].
Qed.

Lemma keepRows_nil (rs : list (string * rowPtr)) (key : string) :
  (key, None) ∈ rs -> forall prevRows, isPanic (keepRows rs prevRows).
Proof.
  unfold keepRows.
  induction rs as [|[k [r|]] rs IH]; intros Hin prevRows; cbn [foldGo snd bind].
  - apply elem_of_nil in Hin. destruct Hin.
  - apply elem_of_cons in Hin as [[=] | Hin]. apply IH, Hin.
  - exact I.
Qed.

Lemma keepTables_nil (failed : list (string * tableChange')) (k key : string)
  (ft : tableChange') :
  (k, ft) ∈ failed -> (key, None) ∈ rangeRows (rows' ft) ->
  forall failedChanges, isPanic (keepTables failed failedChanges).
Proof.
  unfold keepTables.
  induction failed as [|[k0 v0] failed IH]; intros Hin Hnil fc; cbn [foldGo fst snd].
  - apply elem_of_nil in Hin. destruct Hin.
  - apply elem_of_cons in Hin as [[= <- <-] | Hin].
    + pose proof (keepRows_nil _ _ Hnil
                    (rows' match fc !! k with
                           | Some prevFailed => prevFailed
                           | None => mkTableChange' (table' ft) ∅
                           end)) as Hpanic.
      destruct (keepRows _ _); [destruct Hpanic | exact I].
    + destruct (keepRows _ _); cbn [bind]; [ | exact I]. apply IH; assumption.
Qed.

Lemma updateFailedChanges_nil (all failed failedChanges :
    gmap string tableChange') (k key : string) (ft : tableChange') :
  rangesAreOrders ->
  failed !! k = Some ft -> rows' ft !! key = Some None ->
  isPanic (updateFailedChanges all failed failedChanges).
Proof.
  intros [Htables Hrows] Hft Hnil. unfold updateFailedChanges.
  destruct (forgetTables (rangeTables all) failedChanges) as [fc1|msg]; cbn [bind];
    [ | exact I].
  apply (keepTables_nil _ k key ft).
  - apply (range_entries _ _ (Htables failed)), Hft.
  - apply (range_entries _ _ (Hrows (rows' ft))), Hnil.
Qed.

(** [updateFailedChanges(all, failed)] panics when a failed row is [nil],
    which is what [validateTableChange] stores for a failed key that is not a
    key of the batch.  When it returns, [df.failedChanges] holds, table by
    table and key by key: the row of [failed], where there is one; nothing,
    for a key of [all] that is not in [failed]; and what it held before, for
    every other key.  (The rows of [all] and of [failed] are filed under the
    join of their [pk], as the accumulator files them.) *)
Theorem updateFailedChanges_spec (all failed failedChanges : gmap string tableChange') :
  rangesAreOrders ->
  (forall k ft key,
     failed !! k = Some ft -> rows' ft !! key = Some None ->
     isPanic (updateFailedChanges all failed failedChanges)) /\
  (keyedByPk' all -> keyedByPk' failed ->
   forall failedChanges',
     updateFailedChanges all failed failedChanges = Value failedChanges' ->
     forall name key,
       rowAt failedChanges' name key
       = match rowAt failed name key with
         | Some entry => Some entry
         | None =>
           match rowAt all name key with
           | Some _ => None
           | None => rowAt failedChanges name key
           end
         end).
Proof.
  intros Horders. split.
  - intros k ft key. apply updateFailedChanges_nil, Horders.
  - intros Hall Hfailed failedChanges'. apply updateFailedChanges_rowAt; assumption.
Qed.

(** *** [Diff.getContinueValidationSummary] (diff.go) *)

Definition MaxInt64 : Z := 2 ^ 63 - 1.

(** [for _, r := range v.rows { if r.lastMeetTs < minTs { minTs = r.lastMeetTs } }]. *)
Definition oldest (rs : list (string * rowPtr)) (minTs : Z) : go Z :=
  foldGo (fun (minTs : Z) (kr : string * rowPtr) =>
            match kr.2 with
            | None => Panic nilDereference
            | Some r => Value (if lastMeetTs r <? minTs then lastMeetTs r else minTs)
            end) rs minTs.

(** The number of failed rows and the oldest [lastMeetTs] among them. *)
Definition getContinueValidationSummary (failedChanges : gmap string tableChange')
  : go (Z * Z) :=
  foldGo (fun (res : Z * Z) (kv : string * tableChange') =>
            let count := res.1 + Z.of_nat (size (rows' kv.2)) in
            do minTs <- oldest (rangeRows (rows' kv.2)) res.2;
            Value (count, minTs))
         (rangeTables failedChanges) (0, MaxInt64).

Lemma oldest_spec (rs : list (string * rowPtr)) :
  forall start minTs,
    oldest rs start = Value minTs ->
    minTs <= start /\
    (forall key entry, (key, entry) ∈ rs ->
       exists r, entry = Some r /\ minTs <= lastMeetTs r) /\
    (minTs = start \/ exists key r, (key, Some r) ∈ rs /\ lastMeetTs r = minTs).
Proof.
  unfold oldest.
  induction rs as [|[k [r|]] rs IH]; intros start minTs; cbn [foldGo snd bind].
  - intros [= <-]. split; [lia | split; [ | auto]].
    intros key entry Hin. apply elem_of_nil in Hin. destruct Hin.
  - intros Hrest. destruct (IH _ _ Hrest) as (Hle & Hall & Hwho).
    assert (Hstep : (if lastMeetTs r <? start then lastMeetTs r else start) <= start /\
                    (if lastMeetTs r <? start then lastMeetTs r else start) <= lastMeetTs r)
      by (destruct (Z.ltb_spec (lastMeetTs r) start); lia).
    split; [lia | split].
    + intros key entry Hin. apply elem_of_cons in Hin as [[= -> ->] | Hin].
      * exists r. split; [reflexivity | lia].
      * exact (Hall key entry Hin).
    + destruct Hwho as [Heq | (key & r' & Hin & Hts)].
      * destruct (Z.ltb_spec (lastMeetTs r) start); [ | auto].
        right. exists k, r. split; [left | congruence].
      * right. exists key, r'. split; [right; exact Hin | exact Hts].
  - discriminate.
Qed.

Lemma oldest_nil (rs : list (string * rowPtr)) (key : string) :
  (key, None) ∈ rs -> forall start, isPanic (oldest rs start).
Proof.
  unfold oldest.
  induction rs as [|[k [r|]] rs IH]; intros Hin start; cbn [foldGo snd bind].
  - apply elem_of_nil in Hin. destruct Hin.
  - apply elem_of_cons in Hin as [[=] | Hin]. apply IH, Hin.
  - exact I.
Qed.

(** The rows of the tables of a list. *)
Definition rowsIn (l : list (string * tableChange')) : Z :=
  List.fold_right (fun kv res => res + Z.of_nat (size (rows' kv.2))) 0 l.

Lemma rowsIn_perm (l l' : list (string * tableChange')) :
  Permutation l l' -> rowsIn l = rowsIn l'.
Proof.
  induction 1 as [| x l l' _ IH | x y l | l l' l'' _ IH1 _ IH2]; cbn [rowsIn List.fold_right].
  - reflexivity.
  - fold (rowsIn l) (rowsIn l'). rewrite IH. reflexivity.
  - lia.
  - congruence.
Qed.

Lemma getRowCount'_range (c : gmap string tableChange') (l : list (string * tableChange')) :
  Permutation l (map_to_list c) -> getRowCount' c = rowsIn l.
Proof.
  intros Hperm. rewrite (rowsIn_perm _ _ Hperm).
  unfold getRowCount'. rewrite map_fold_foldr.
  generalize (map_to_list c). clear Hperm. intros entries.
  induction entries as [|[k v] rest IH]; [reflexivity | ].
  cbn [foldr rowsIn List.fold_right uncurry snd]. fold (rowsIn rest). rewrite IH.
  reflexivity.
Qed.

Lemma summary_spec (tables : list (string * tableChange')) :
  forall start count minTs,
    foldGo (fun (res : Z * Z) (kv : string * tableChange') =>
              let count := res.1 + Z.of_nat (size (rows' kv.2)) in
              do minTs <- oldest (rangeRows (rows' kv.2)) res.2;
              Value (count, minTs)) tables start = Value (count, minTs) ->
    count = start.1 + rowsIn tables /\
    minTs <= start.2 /\
    (forall name change key entry,
       (name, change) ∈ tables -> (key, entry) ∈ rangeRows (rows' change) ->
       exists r, entry = Some r /\ minTs <= lastMeetTs r) /\
    (minTs = start.2 \/
     exists name change key r,
       (name, change) ∈ tables /\ (key, Some r) ∈ rangeRows (rows' change) /\
       lastMeetTs r = minTs).
Proof.
  induction tables as [|[k v] tables IH]; intros [count0 minTs0] count minTs;
    cbn [foldGo fst snd].
  - intros [= <- <-]. cbn [rowsIn List.fold_right]. split; [lia | split; [lia | split]].
    + intros name change key entry Hin. apply elem_of_nil in Hin. destruct Hin.
    + auto.
  - destruct (oldest (rangeRows (rows' v)) minTs0) as [minTs1|msg] eqn:Hold; cbn [bind];
      [ | discriminate].
    intros Hrest. destruct (IH _ _ _ Hrest) as (Hcount & Hle & Hall & Hwho).
    destruct (oldest_spec _ _ _ Hold) as (Hle1 & Hall1 & Hwho1).
    cbn [fst snd] in *. cbn [rowsIn List.fold_right snd]. fold (rowsIn tables).
    split; [lia | split; [lia | split]].
    + intros name change key entry Hin Hentry.
      apply elem_of_cons in Hin as [[= -> ->] | Hin].
      * destruct (Hall1 key entry Hentry) as (r & -> & Hr). exists r. split; [reflexivity | lia].
      * exact (Hall name change key entry Hin Hentry).
    + destruct Hwho as [Heq | (name & change & key & r & Hin & Hentry & Hts)].
      * destruct Hwho1 as [Heq1 | (key & r & Hentry & Hts)]; [left; lia | ].
        right. exists k, v, key, r. split; [left | split; [exact Hentry | lia]].
      * right. exists name, change, key, r. split; [right; exact Hin | auto].
Qed.

Lemma summary_nil (tables : list (string * tableChange')) (name key : string)
  (change : tableChange') :
  (name, change) ∈ tables -> (key, None) ∈ rangeRows (rows' change) ->
  forall start,
    isPanic (foldGo (fun (res : Z * Z) (kv : string * tableChange') =>
                       let count := res.1 + Z.of_nat (size (rows' kv.2)) in
                       do minTs <- oldest (rangeRows (rows' kv.2)) res.2;
                       Value (count, minTs)) tables start).
Proof.
  induction tables as [|[k v] tables IH]; intros Hin Hnil start; cbn [foldGo fst snd].
  - apply elem_of_nil in Hin. destruct Hin.
  - apply elem_of_cons in Hin as [[= <- <-] | Hin].
    + pose proof (oldest_nil _ _ Hnil start.2) as Hpanic.
      destruct (oldest _ _); [destruct Hpanic | exact I].
    + destruct (oldest _ _); cbn [bind]; [ | exact I]. apply IH; assumption.
Qed.

(** [getContinueValidationSummary] panics when a failed row is [nil].  When
    it returns, no failed row is [nil], the count is the number of failed
    rows, and the timestamp is not above the [lastMeetTs] of any failed row
    and is that of some failed row unless it still is [math.MaxInt64]. *)
Theorem getContinueValidationSummary_spec (failedChanges : gmap string tableChange') :
  rangesAreOrders ->
  (forall name change key,
     failedChanges !! name = Some change -> rows' change !! key = Some None ->
     isPanic (getContinueValidationSummary failedChanges)) /\
  (forall count minTs,
     getContinueValidationSummary failedChanges = Value (count, minTs) ->
     count = getRowCount' failedChanges /\
     (forall name change key entry,
        failedChanges !! name = Some change -> rows' change !! key = Some entry ->
        exists r, entry = Some r /\ minTs <= lastMeetTs r) /\
     (minTs = MaxInt64 \/
      exists name change key r,
        failedChanges !! name = Some change /\ rows' change !! key = Some (Some r) /\
        lastMeetTs r = minTs)).
Proof.
  intros [Htables Hrows]. unfold getContinueValidationSummary.
  destruct (range_entries _ _ (Htables failedChanges)) as [_ Hent].
  split.
  - intros name change key Hchange Hnil.
    apply (summary_nil _ name key change); [apply Hent, Hchange | ].
    apply (range_entries _ _ (Hrows (rows' change))), Hnil.
  - intros count minTs Hrun.
    destruct (summary_spec _ _ _ _ Hrun) as (Hcount & _ & Hall & Hwho).
    cbn [fst snd] in *. split; [ | split].
    + rewrite (getRowCount'_range _ _ (Htables failedChanges)). lia.
    + intros name change key entry Hchange Hentry.
      apply (Hall name change key entry); [apply Hent, Hchange | ].
      apply (range_entries _ _ (Hrows (rows' change))), Hentry.
    + destruct Hwho as [-> | (name & change & key & r & Hin & Hentry & Hts)]; [auto | ].
      right. exists name, change, key, r.
      split; [apply Hent, Hin | split; [ | exact Hts]].
      apply (range_entries _ _ (Hrows (rows' change))), Hentry.
Qed.

(** *** The three goroutines: [rowsEventProcessRoutine], [validateGoRoutine],
    [retryFailedRows] (diff.go) *)

(** [sources.GetTable(schemaName, tableName)]. *)
Variable GetTable : string -> string -> option TableDiff.

(** The validator's share of [Diff]; [taken] counts the batches it has
    received from [pendingChangeCh]. *)
Record Validator := mkValidator {
  failedChanges : gmap string tableChange';
  failedRowCnt : Z;
  taken : nat
}.

(** [case change := <-df.pendingChangeCh] of [validateGoRoutine]: the new
    [pendingRowCnt] and the validator's state. *)
Definition onPendingChange (fuel : nat) (change : gmap string tableChange')
  (pending : Z) (vd : Validator) : option (go (Z * Validator)) :=
  match validateTableChange fuel change with
  | None => None
  | Some (Panic msg) => Some (Panic msg)
  | Some (Value failed) =>
    match updateFailedChanges change failed (failedChanges vd) with
    | Panic msg => Some (Panic msg)
    | Value failedChanges =>
      Some (Value (pending - getRowCount' change,
                   mkValidator failedChanges (getRowCount' failedChanges) (S (taken vd))))
    end
  end.

(** The logging loop of [retryFailedRows], which reads [r.pk], [r.theType]
    and [r.lastMeetTs] of every failed row. *)
Definition logFailedRows (failedChanges : gmap string tableChange') : go unit :=
  foldGo (fun (_ : unit) (kv : string * tableChange') =>
            foldGo (fun (_ : unit) (kr : string * rowPtr) =>
                      match kr.2 with
                      | None => Panic nilDereference
                      | Some _ => Value tt
                      end) (rangeRows (rows' kv.2)) tt)
         (rangeTables failedChanges) tt.

(** One turn of the loop of [retryFailedRows]; what it prints is left out. *)
Definition retryFailedRows (fuel : nat) (vd : Validator) : option (go Validator) :=
  match validateTableChange fuel (failedChanges vd) with
  | None => None
  | Some (Panic msg) => Some (Panic msg)
  | Some (Value failedChanges) =>
    let failedRowCnt := getRowCount' failedChanges in
    Some (do _ <- (if failedRowCnt <? 5 then logFailedRows failedChanges else Value tt);
          do _ <- getContinueValidationSummary failedChanges;
          Value (mkValidator failedChanges failedRowCnt (taken vd)))
  end.

(** Whose turn it is.  The routine and the validator share the channel and
    the atomic counter [pendingRowCnt]; the validator and the retry loop
    share [failedChanges] under the lock of [df], so a turn of either is
    atomic for the other. *)
Inductive turn :=
| RoutineTurn (input : routineInput (value := value))
| ValidatorTurn
| RetryTurn.

Definition systemStep (fuel : nat) (s : Diff (value := value) * Validator) (t : turn)
  : option (go (Diff (value := value) * Validator)) :=
  match t with
  | RoutineTurn input =>
    Some (do df <- routineStep fmt_v GetTable s.1 input; Value (df, s.2))
  | ValidatorTurn =>
    match pendingChangeCh s.1 !! taken s.2 with
    | None => Some (Value s)
    | Some change =>
      match onPendingChange fuel (sent <$> change) (pendingRowCnt s.1) s.2 with
      | None => None
      | Some (Panic msg) => Some (Panic msg)
      | Some (Value (pending, vd)) =>
        Some (Value (mkDiff (accumulatedChanges s.1) pending (changeEventCount s.1)
                            (pendingChangeCh s.1), vd))
      end
    end
  | RetryTurn =>
    match retryFailedRows fuel s.2 with
    | None => None
    | Some (Panic msg) => Some (Panic msg)
    | Some (Value vd) => Some (Value (s.1, vd))
    end
  end.

Fixpoint runSystem (fuel : nat) (turns : list turn)
  (s : Diff (value := value) * Validator)
  : option (go (Diff (value := value) * Validator)) :=
  match turns with
  | [] => Some (Value s)
  | t :: turns' =>
    match systemStep fuel s t with
    | None => None
    | Some (Panic msg) => Some (Panic msg)
    | Some (Value s') => runSystem fuel turns' s'
    end
  end.

(** The state [NewDiff] sets up. *)
Definition newSystem : Diff (value := value) * Validator :=
  (mkDiff ∅ 0 (replicate 4 0) [], mkValidator ∅ 0 0).

Lemma getRowCount'_sent (c : gmap string (tableChange (value := value))) :
  getRowCount' (sent <$> c) = getRowCount c.
Proof.
  unfold getRowCount', getRowCount. rewrite map_fold_fmap, !map_fold_foldr.
  generalize (map_to_list c). intros entries.
  induction entries as [|[k v] rest IH]; [reflexivity | ].
  cbn [foldr uncurry compose]. rewrite IH. cbn [sent rows'].
  now rewrite map_size_fmap.
Qed.

Lemma keyedByPk'_sent (batch : gmap string (tableChange (value := value))) :
  keyedByPk batch -> keyedByPk' (sent <$> batch).
Proof.
  intros Hkeyed name change key r. rewrite lookup_fmap.
  destruct (batch !! name) as [c|] eqn:Hc; cbn; [ | discriminate].
  intros [= <-]. cbn [sent rows']. rewrite lookup_fmap.
  destruct (rows c !! key) as [r'|] eqn:Hr; cbn; [ | discriminate].
  intros [= <-]. exact (Hkeyed name c key r' Hc Hr).
Qed.

(** What one batch does to the validator's state.  When [validateGoRoutine]
    has handled a batch whose rows are filed under the join of their [pk]:
    [pendingRowCnt] is down by the rows of the batch, [failedRowCnt] is the
    number of rows of [failedChanges], and [failedChanges] holds, of the rows
    of the batch, exactly those [validateTableChange] reported as failed,
    and, under every key that is not in the batch, what it held before. *)
Theorem onPendingChange_spec (fuel : nat)
  (batch : gmap string (tableChange (value := value))) (pending pending' : Z)
  (vd vd' : Validator) :
  rangesAreOrders ->
  keyedByPk batch ->
  onPendingChange fuel (sent <$> batch) pending vd = Some (Value (pending', vd')) ->
  pending' = pending - getRowCount batch /\
  failedRowCnt vd' = getRowCount' (failedChanges vd') /\
  taken vd' = S (taken vd) /\
  exists failed,
    validateTableChange fuel (sent <$> batch) = Some (Value failed) /\
    forall name key,
      rowAt (failedChanges vd') name key
      = match rowAt (sent <$> batch) name key with
        | Some row =>
          match rowAt failed name key with
          | Some _ => Some row
          | None => None
          end
        | None => rowAt (failedChanges vd) name key
        end.
Proof.
  intros Horders Hkeyed. unfold onPendingChange.
  destruct (validateTableChange fuel (sent <$> batch)) as [[failed|msg]|] eqn:Hval;
    try discriminate.
  destruct (updateFailedChanges (sent <$> batch) failed (failedChanges vd))
    as [fc|msg] eqn:Hupd; [ | discriminate].
  intros [= <- <-]. cbn [failedRowCnt failedChanges taken].
  rewrite getRowCount'_sent.
  split; [reflexivity | split; [reflexivity | split; [reflexivity | ]]].
  exists failed. split; [reflexivity | ].
  pose proof (keyedByPk'_sent _ Hkeyed) as Hall.
  pose proof (validateTableChange_sound _ _ _ (proj1 Horders) Hval) as Hsound.
  assert (Hsub : forall name key entry,
            rowAt failed name key = Some entry ->
            rowAt (sent <$> batch) name key = Some entry).
  { intros name key entry. unfold rowAt.
    destruct (failed !! name) as [ft|] eqn:Hft; [ | discriminate].
    intros Hentry. destruct (Hsound name ft Hft) as (v & Hv & _ & _ & Hfrom).
    rewrite Hv. pose proof (Hfrom key entry Hentry) as He.
    destruct (rows' v !! key) as [e|]; cbn [default] in He; subst entry; [reflexivity | ].
    pose proof (updateFailedChanges_nil (sent <$> batch) failed (failedChanges vd)
                  name key ft Horders Hft Hentry) as Hpanic.
    rewrite Hupd in Hpanic. destruct Hpanic. }
  assert (Hfailed : keyedByPk' failed).
  { intros name ft key r Hft Hr.
    destruct (Hsound name ft Hft) as (v & Hv & _).
    pose proof (Hsub name key (Some r)) as Hrow. unfold rowAt in Hrow.
    rewrite Hft, Hv in Hrow. exact (Hall name v key r Hv (Hrow Hr)). }
  intros name key.
  rewrite (updateFailedChanges_rowAt _ _ _ _ Horders Hall Hfailed Hupd name key).
  destruct (rowAt failed name key) as [entry|] eqn:Hentry.
  - rewrite (Hsub name key entry Hentry). reflexivity.
  - destruct (rowAt (sent <$> batch) name key); reflexivity.
Qed.

(** What holds of the system between two turns: [pendingRowCnt] counts the
    rows accumulated and the rows of the batches sent and not yet validated;
    [failedRowCnt] counts the rows of [failedChanges]; fewer than
    [batchRowCount] rows are accumulated, each under the join of its [pk];
    and every batch sent holds at least one row and at most [batchRowCount],
    each under the join of its [pk]. *)
Definition accounted (s : Diff (value := value) * Validator) : Prop :=
  pendingRowCnt s.1
    = getRowCount (accumulatedChanges s.1)
      + rowsSent (drop (taken s.2) (pendingChangeCh s.1)) /\
  failedRowCnt s.2 = getRowCount' (failedChanges s.2) /\
  (taken s.2 <= length (pendingChangeCh s.1))%nat /\
  getRowCount (accumulatedChanges s.1) < batchRowCount /\
  keyedByPk (accumulatedChanges s.1) /\
  List.Forall goodBatch (pendingChangeCh s.1).

Lemma systemStep_accounted (fuel : nat) (s s' : Diff (value := value) * Validator)
  (t : turn) :
  accounted s -> systemStep fuel s t = Some (Value s') -> accounted s'.
Proof.
  destruct s as [df vd]. unfold accounted. cbn [fst snd].
  intros (Hpending & Hfailed & Htaken & Hbound & Hkeyed & Hgood).
  destruct t as [input | | ]; cbn [systemStep fst snd].
  - destruct (routineStep fmt_v GetTable df input) as [df1|msg] eqn:Hstep; cbn [bind];
      [ | discriminate].
    intros [= <-]. cbn [fst snd].
    assert (Hinv : routineInv df df).
    { split; [exact Hbound | split; [exact Hkeyed | ]].
      exists []. rewrite app_nil_r. split; [reflexivity | split; [constructor | cbn; lia]]. }
    destruct (routineStep_inv fmt_v GetTable df df df1 input Hinv Hstep)
      as (Hbound1 & Hkeyed1 & new & Hsent & Hnew & Hcount).
    rewrite Hsent. rewrite drop_app_le by exact Htaken. rewrite rowsSent_app.
    split; [lia | split; [exact Hfailed | split]].
    + rewrite List.length_app. lia.
    + split; [exact Hbound1 | split; [exact Hkeyed1 | ]].
      apply List.Forall_app. auto.
  - destruct (pendingChangeCh df !! taken vd) as [change|] eqn:Hchange.
    + unfold onPendingChange.
      destruct (validateTableChange fuel (sent <$> change)) as [[failed|msg]|];
        try discriminate.
      destruct (updateFailedChanges (sent <$> change) failed (failedChanges vd))
        as [fc|msg]; [ | discriminate].
      intros [= <-]. cbn [fst snd pendingRowCnt accumulatedChanges pendingChangeCh
                            failedRowCnt failedChanges taken].
      rewrite getRowCount'_sent.
      rewrite (drop_S _ _ _ Hchange) in Hpending.
      cbn [rowsSent List.fold_right] in Hpending. fold (rowsSent (drop (S (taken vd)) (pendingChangeCh df))) in Hpending.
      apply lookup_lt_Some in Hchange.
      split; [lia | split; [reflexivity | split; [lia | auto]]].
    + intros [= <-]. cbn [fst snd]. auto 10.
  - unfold retryFailedRows.
    destruct (validateTableChange fuel (failedChanges vd)) as [[fc|msg]|]; try discriminate.
    destruct (if getRowCount' fc <? 5 then logFailedRows fc else Value tt); cbn [bind];
      [ | discriminate].
    destruct (getContinueValidationSummary fc); cbn [bind]; [ | discriminate].
    intros [= <-]. cbn [fst snd failedRowCnt failedChanges taken]. auto 10.
Qed.

(** Whatever the turns of the three goroutines, as long as none panics:
    [pendingRowCnt] is the number of rows accumulated plus the rows of the
    batches sent and not yet validated, [failedRowCnt] is the number of rows
    of [failedChanges], and every batch the validator is sent holds at least
    one row and at most [batchRowCount], each filed under the join of its
    [pk]. *)
Theorem runSystem_accounted (fuel : nat) (turns : list turn)
  (s : Diff (value := value) * Validator) :
  runSystem fuel turns newSystem = Some (Value s) ->
  pendingRowCnt s.1
    = getRowCount (accumulatedChanges s.1)
      + rowsSent (drop (taken s.2) (pendingChangeCh s.1)) /\
  failedRowCnt s.2 = getRowCount' (failedChanges s.2) /\
  List.Forall goodBatch (pendingChangeCh s.1).
Proof.
  assert (Hgen : forall turns s0, accounted s0 ->
            runSystem fuel turns s0 = Some (Value s) -> accounted s).
  { clear turns. induction turns as [|t turns IH]; intros s0 Hs0; cbn [runSystem].
    - intros [= <-]. exact Hs0.
    - destruct (systemStep fuel s0 t) as [[s1|msg]|] eqn:Hstep; try discriminate.
      apply IH. exact (systemStep_accounted _ _ _ _ Hs0 Hstep). }
  intros Hrun.
  destruct (Hgen turns newSystem) as (Hpending & Hfailed & _ & _ & _ & Hgood);
    [ | exact Hrun | auto].
  unfold accounted, newSystem. cbn [fst snd pendingRowCnt accumulatedChanges
    pendingChangeCh failedRowCnt failedChanges taken drop rowsSent List.fold_right length].
  assert (Hacc : getRowCount (value := value) ∅ = 0) by apply getRowCount_empty.
  assert (Hfc : getRowCount' ∅ = 0) by apply map_fold_empty.
  unfold batchRowCount.
  split; [lia | split; [lia | split; [lia | split; [lia | ]]]].
  split; [ | constructor].
  intros name change key r Hname. rewrite lookup_empty in Hname. discriminate.
Qed.

(** *** The keys [validateInsertAndUpdateRows] reports from the binlog *)

(** A table whose [ColumnMap] agrees with its columns, whose column names
    are distinct, and whose key columns are its first columns, in order. *)
Definition keyLeads (tbl : TableDiff) (pkInfo : IndexInfo) : Prop :=
  PrimaryKey tbl = Some pkInfo /\
  NoDup (Name_O <$> Info_Columns tbl) /\
  (forall name c, ColumnMap tbl !! name = Some c ->
     c ∈ Info_Columns tbl /\ Name_O c = name) /\
  pkIndicesOf tbl (Columns pkInfo) = Value (List.seq 0 (length (Columns pkInfo))).

(** A row change as the accumulator files it, [pk] being the [pkValue] of
    its row, of which no key value is [nil]. *)
Definition filedByKey (pkInfo : IndexInfo) (r : rowChange (value := value)) : Prop :=
  pkValueOf fmt_v (length (Columns pkInfo)) (List.seq 0 (length (Columns pkInfo))) (data r)
    = Value (pk r) /\
  List.Forall (fun x => x <> None) (take (length (Columns pkInfo)) (data r)).

(** The [colMap] entry of a binlog value. *)
Definition columnOf (x : option value) : ColumnData :=
  mkColumnData (match x with Some v => fmt_v v | None => "" end)
               (match x with Some _ => false | None => true end).

Lemma colMapOf_fold (r : rowChange (value := value)) (cs : list ColumnInfo) :
  forall colMap acc : RowData,
    foldGo (fun (colMap : RowData) c =>
              match data r !! Offset c with
              | None => Panic "index out of range"
              | Some x =>
                let colData := match x with Some v => fmt_v v | None => "" end in
                let isNull := match x with Some _ => false | None => true end in
                Value (<[Name_O c := mkColumnData colData isNull]> colMap)
              end) cs acc = Value colMap ->
    NoDup (Name_O <$> cs) ->
    (forall c, c ∈ cs ->
       exists x, data r !! Offset c = Some x /\ colMap !! Name_O c = Some (columnOf x)) /\
    (forall name : string, name ∉ (Name_O <$> cs) -> colMap !! name = acc !! name).
Proof.
  induction cs as [|c0 cs IH]; intros colMap acc; cbn [foldGo].
  - intros [= <-] _. split; [ | reflexivity].
    intros c Hc. apply elem_of_nil in Hc. destruct Hc.
  - destruct (data r !! Offset c0) as [x0|] eqn:Hx0; cbn [bind]; [ | discriminate].
    intros Hrest Hnodup. cbn [fmap list_fmap] in Hnodup.
    apply NoDup_cons in Hnodup as [Hfresh Hnodup].
    destruct (IH _ _ Hrest Hnodup) as [Hin Hout]. split.
    + intros c Hc. apply elem_of_cons in Hc as [-> | Hc]; [ | exact (Hin c Hc)].
      exists x0. split; [exact Hx0 | ].
      rewrite (Hout _ Hfresh). apply lookup_insert_eq.
    + intros name. cbn [fmap list_fmap]. rewrite not_elem_of_cons. intros [Hne Hnot].
      rewrite (Hout name Hnot). apply lookup_insert_ne. congruence.
Qed.

Lemma colMapOf_lookup (tbl : TableDiff) (r : rowChange (value := value))
  (colMap : RowData) :
  colMapOf tbl r = Value colMap ->
  NoDup (Name_O <$> Info_Columns tbl) ->
  forall c, c ∈ Info_Columns tbl ->
    exists x, data r !! Offset c = Some x /\ colMap !! Name_O c = Some (columnOf x).
Proof.
  unfold colMapOf. intros Hrun Hnodup.
  exact (proj1 (colMapOf_fold _ _ _ _ Hrun Hnodup)).
Qed.

Lemma mapGo_of_Forall2 {A B : Type} (f : A -> go B) (l : list A) (bs : list B) :
  List.Forall2 (fun a b => f a = Value b) l bs -> mapGo f l = Value bs.
Proof.
  induction 1 as [|a b l bs Hf _ IH]; cbn [mapGo]; [reflexivity | ].
  rewrite Hf, IH. reflexivity.
Qed.

(** The key [getPkValues] reads off the [colMap] of a row change is the
    [pk] the accumulator filed it under. *)
Lemma getPkValues_colMapOf (pkInfo : IndexInfo) (r : rowChange (value := value))
  (colMap : RowData) (cond : Cond) :
  keyLeads (Cond_Table cond) pkInfo ->
  filedByKey pkInfo r ->
  colMapOf (Cond_Table cond) r = Value colMap ->
  getPkValues colMap cond = Value (pk r).
Proof.
  intros (Hpk & Hnodup & Hmap & Hidx) [Hfiled Hnonnil] HcolMap.
  unfold getPkValues. rewrite Hpk.
  set (n := length (Columns pkInfo)) in *.
  apply mapGo_Forall2 in Hidx.
  assert (Hcol : forall i name,
            Columns pkInfo !! i = Some name ->
            exists x, data r !! i = Some x /\ colMap !! name = Some (columnOf x)).
  { intros i name Hname.
    destruct (Forall2_lookup_l _ _ _ _ _ Hidx Hname) as (j & Hj & Hoff).
    apply lookup_seq in Hj as [-> _]. cbn [Nat.add] in Hoff.
    destruct (ColumnMap (Cond_Table cond) !! name) as [c|] eqn:Hc; [ | discriminate].
    injection Hoff as Hoff. destruct (Hmap name c Hc) as [Hin <-].
    destruct (colMapOf_lookup _ _ _ HcolMap Hnodup c Hin) as (x & Hx & Hentry).
    rewrite Hoff in Hx. eauto. }
  assert (Hlen : (n <= length (data r))%nat).
  { destruct n as [|m] eqn:Hn; [lia | ].
    destruct (lookup_lt_is_Some_2 (Columns pkInfo) m) as [name Hname];
      [fold n in Hn; unfold n in Hn; lia | ].
    destruct (Hcol m name Hname) as (x & Hx & _).
    apply lookup_lt_Some in Hx. lia. }
  rewrite (pkValueOf_leading fmt_v n (data r) Hlen) in Hfiled.
  injection Hfiled as <-.
  apply mapGo_of_Forall2. apply Forall2_same_length_lookup_2.
  - rewrite List.length_map, length_take. fold n. lia.
  - intros i name b Hname Hb.
    change (List.map (Sprintf_v fmt_v) (take n (data r)))
      with (Sprintf_v fmt_v <$> take n (data r)) in Hb.
    rewrite list_lookup_fmap in Hb.
    destruct (take n (data r) !! i) as [x|] eqn:Hx; [ | discriminate].
    injection Hb as <-.
    assert (Hx' : x <> None).
    { rewrite List.Forall_forall in Hnonnil. apply Hnonnil.
      apply list_elem_of_In. eapply list_elem_of_lookup_2. exact Hx. }
    apply lookup_take_Some in Hx as [Hx _].
    destruct (Hcol i name Hname) as (x0 & Hx0 & ->).
    rewrite Hx in Hx0. injection Hx0 as <-.
    destruct x as [v|]; [reflexivity | destruct (Hx' eq_refl)].
Qed.

(** With [UseBinlogForCompare], on a table whose key columns lead, every
    failed row [validateInsertAndUpdateRows] reports is the [pk] of one of
    the row changes it was given. *)
Theorem validateInsertAndUpdateRows_binlog_keys (fuel : nat)
  (rows : list (rowChange (value := value))) (cond : Cond) (pkInfo : IndexInfo)
  (failed : list (list string)) :
  UseBinlogForCompare = true ->
  keyLeads (Cond_Table cond) pkInfo ->
  (forall r, In r rows -> filedByKey pkInfo r) ->
  validateInsertAndUpdateRows fuel rows cond = Some (Value (failed, None)) ->
  forall p, In p failed -> exists r, In r rows /\ p = pk r.
Proof.
  intros Hbinlog Hleads Hfiled. unfold validateInsertAndUpdateRows, upstreamRows.
  rewrite Hbinlog.
  destruct (getRowChangeIterator (Cond_Table cond) rows) as [its|msg] eqn:Hits;
    cbn [bind]; [ | discriminate].
  destruct (downstream_GetRows cond) as [downIt|e]; [ | discriminate].
  intros Hrun p Hp.
  destruct (validateLoop_reports _ _ _ _ _ _ _ _ Hrun) as (_ & _ & Honly).
  destruct (Honly p Hp) as [[] | (u & [[=] | Hu] & Hpk)].
  unfold yields in Hu. apply List.in_map_iff in Hu as (u' & [= ->] & Hu).
  unfold getRowChangeIterator in Hits. apply mapGo_Forall2 in Hits.
  apply list_elem_of_In, list_elem_of_lookup_1 in Hu as [i Hi].
  destruct (Forall2_lookup_r _ _ _ _ _ Hits Hi) as (r & Hr & HcolMap).
  assert (Hin : In r rows).
  { apply (Permutation_in _
             (sort_Slice_perm (fun left right => pkLess (pk left) (pk right)) rows)).
    apply list_elem_of_In. eapply list_elem_of_lookup_2. exact Hr. }
  exists r. split; [exact Hin | ].
  rewrite (getPkValues_colMapOf pkInfo r u cond Hleads (Hfiled r Hin) HcolMap) in Hpk.
  congruence.
Qed.

End Validate.

(** [b] does not come before [a]. *)
Definition notBefore {A : Type} (less : A -> A -> bool) (a b : A) : Prop :=
  less b a = false.

Lemma insertBy_sorted {A : Type} (less : A -> A -> bool)
  (Hasym : forall a b, less a b = true -> less b a = false) (x : A) (l : list A) :
  Sorted (notBefore less) l -> Sorted (notBefore less) (insertBy less x l).
Proof.
  induction l as [|y l IH]; cbn [insertBy]; intros Hs.
  - repeat constructor.
  - destruct (less y x) eqn:Hyx.
    + apply Sorted_inv in Hs as [Hs Hhd]. constructor; [apply IH, Hs | ].
      destruct l as [|z l]; cbn [insertBy].
      * constructor. apply Hasym, Hyx.
      * destruct (less z x); constructor.
        -- apply HdRel_inv in Hhd. exact Hhd.
        -- apply Hasym, Hyx.
    + constructor; [exact Hs | constructor; exact Hyx].
Qed.

Lemma sort_Slice_sorted {A : Type} (less : A -> A -> bool)
  (Hasym : forall a b, less a b = true -> less b a = false) (l : list A) :
  Sorted (notBefore less) (sort_Slice less l).
Proof.
  induction l as [|x l IH]; cbn; [constructor | ].
  apply insertBy_sorted; assumption.
Qed.

Lemma ltb_asym (a b : string) : String.ltb a b = true -> String.ltb b a = false.
Proof.
  unfold String.ltb. rewrite (String.compare_antisym a b).
  destruct (String.compare b a); cbn; congruence.
Qed.

Lemma pkLess_asym (a : list string) :
  forall b, pkLess a b = true -> pkLess b a = false.
Proof.
  induction a as [|x a IH]; intros [|y b]; cbn [pkLess]; try congruence.
  rewrite (String.eqb_sym y x). destruct (String.eqb x y); [apply IH | apply ltb_asym].
Qed.

(** [getRowChangeIterator] yields one row per row change, built from the
    row changes taken in an order in which no [pk] is [pkLess] than the one
    before it. *)
Lemma getRowChangeIterator_sorted {value : Type} (fmt_v : value -> string)
  (tbl : TableDiff) (rows : list (rowChange (value := value))) (its : list RowData) :
  getRowChangeIterator fmt_v tbl rows = Value its ->
  exists sorted,
    Permutation sorted rows /\
    Sorted (notBefore (fun left right => pkLess (pk left) (pk right))) sorted /\
    List.Forall2 (fun r it => colMapOf fmt_v tbl r = Value it) sorted its.
Proof.
  unfold getRowChangeIterator. intros Hmap.
  exists (sort_Slice (fun left right => pkLess (pk left) (pk right)) rows).
  split; [apply sort_Slice_perm | split].
  - apply sort_Slice_sorted. intros a b. apply pkLess_asym.
  - apply mapGo_Forall2, Hmap.
Qed.

Lemma getRowChangeIterator_length {value : Type} (fmt_v : value -> string)
  (tbl : TableDiff) (rows : list (rowChange (value := value))) (its : list RowData) :
  getRowChangeIterator fmt_v tbl rows = Value its -> length its = length rows.
Proof.
  unfold getRowChangeIterator. intros Hmap. apply mapGo_Forall2 in Hmap.
  rewrite <- (Permutation_length
                (sort_Slice_perm (fun left right => pkLess (pk left) (pk right)) rows)).
  symmetry. eapply Forall2_length. exact Hmap.
Qed.

End Continuous.

(** ** Continuous mode on concrete tables *)

Module ContinuousScenario.
Import Continuous.

(** Table [test.t(id INT PRIMARY KEY, v VARCHAR)]; a binlog value is shown
    by its [%v] text. *)
Definition t : TableDiff :=
  mkTableDiff "test" "t"
    [mkColumnInfo "id" 0; mkColumnInfo "v" 1]
    (Some (mkIndexInfo ["id"]))
    {[ "id" := mkColumnInfo "id" 0; "v" := mkColumnInfo "v" 1 ]}.

(** Table [test.s(v VARCHAR, id INT PRIMARY KEY)]: the key is the second
    column. *)
Definition s : TableDiff :=
  mkTableDiff "test" "s"
    [mkColumnInfo "v" 0; mkColumnInfo "id" 1]
    (Some (mkIndexInfo ["id"]))
    {[ "v" := mkColumnInfo "v" 0; "id" := mkColumnInfo "id" 1 ]}.

Definition tables (schema name : string) : option TableDiff :=
  if String.eqb schema "test" && String.eqb name "t" then Some t
  else if String.eqb schema "test" && String.eqb name "s" then Some s
  else None.

Definition shown (v : string) : string := v.

Definition emptyDiff : Diff (value := string) := mkDiff ∅ 0 [0; 0; 0; 0] [].

(** A row of [t] as a source returns it. *)
Definition rowOf (id v : string) : RowData :=
  {[ "id" := mkColumnData id false; "v" := mkColumnData v false ]}.

(** The row change of an insert of [(id, v)] into [t]. *)
Definition inserted (id v : string) : rowChange (value := string) :=
  mkRowChange [id] [Some id; Some v] rowInsert 1600000000.

Definition sameColumn (name : string) (u d : RowData) : bool :=
  match u !! name, d !! name with
  | Some a, Some b => String.eqb (Data a) (Data b) && Bool.eqb (IsNull a) (IsNull b)
  | _, _ => false
  end.

(** A [CompareData] for tables keyed by the integer column [id]: rows are
    equal when all columns are, and otherwise compare by the number in
    [id]. *)
Definition compareByNumber (tbl : TableDiff) (u d : RowData)
  : bool * Z * option error :=
  if List.forallb (fun c => sameColumn (Name_O c) u d) (Info_Columns tbl)
  then (true, 0, None)
  else
    match u !! "id", d !! "id" with
    | Some a, Some b =>
      match Atoi (Data a), Atoi (Data b) with
      | Some x, Some y =>
        (false, if x =? y then 0 else if x <? y then -1 else 1, None)
      | _, _ => (false, 0, Some "convert to float failed")
      end
    | _, _ => (false, 0, Some "don't have key id")
    end.

Definition answerRows (rows : list RowData) (_ : Cond)
  : Batch.RowDataIterator RowData + error :=
  inl (List.map Batch.NextRow rows).

Definition condOf (ids : list string) : Cond :=
  mkCond t (List.map (fun id => [id]) ids).

(** C5, as stated, fails: the batch holds key 7; when the rows are queried
    the upstream no longer has it and the downstream still does, so the key is
    present downstream only, and no row is reported as failed. *)
Lemma validate_skips_downstream_only :
  validateInsertAndUpdateRows shown false
    (answerRows []) (answerRows [rowOf "7" "a"]) compareByNumber
    5 [inserted "7" "a"] (condOf ["7"])
  = Some (Value ([], None)) /\
  getPkValues (rowOf "7" "a") (condOf ["7"]) = Value ["7"].
Proof. split; reflexivity. Qed.

(** The amended C5 on a batch of keys 6, 7 and 8: upstream holds [(6,c)],
    [(7,a)] and [(8,b)], downstream holds [(6,c)] and [(7,x)]; key 8
    (upstream only) and key 7 (different rows) are both reported. *)
Lemma validateInsertAndUpdateRows_reports_witness :
  exists failed,
    validateInsertAndUpdateRows shown false
      (answerRows [rowOf "6" "c"; rowOf "7" "a"; rowOf "8" "b"])
      (answerRows [rowOf "6" "c"; rowOf "7" "x"])
      compareByNumber 6
      [inserted "6" "c"; inserted "7" "a"; inserted "8" "b"] (condOf ["6"; "7"; "8"])
    = Some (Value (failed, None)) /\
    In ["8"] failed /\ In ["7"] failed.
Proof.
  eexists. split; [reflexivity | ].
  assert (Hsame : forall u d,
    yields (List.map Batch.NextRow [rowOf "6" "c"; rowOf "7" "a"; rowOf "8" "b"]) u ->
    yields (List.map Batch.NextRow [rowOf "6" "c"; rowOf "7" "x"]) d ->
    foundEqual compareByNumber (condOf ["6"; "7"; "8"]) u d ->
    getPkValues u (condOf ["6"; "7"; "8"]) = getPkValues d (condOf ["6"; "7"; "8"])).
  { intros u d [Hu | [Hu | [Hu | []]]] [Hd | [Hd | []]] [cmp Hcmp];
      injection Hu as <-; injection Hd as <-;
      try (vm_compute in Hcmp; discriminate); reflexivity. }
  destruct (validateInsertAndUpdateRows_reports shown false
              (answerRows [rowOf "6" "c"; rowOf "7" "a"; rowOf "8" "b"])
              (answerRows [rowOf "6" "c"; rowOf "7" "x"])
              compareByNumber 6
              [inserted "6" "c"; inserted "7" "a"; inserted "8" "b"]
              (condOf ["6"; "7"; "8"])
              _ _ _ Hsame eq_refl eq_refl eq_refl) as (Honly & Hdiff & _).
  split.
  - apply (Honly (rowOf "8" "b")); [right; right; left; reflexivity | reflexivity | ].
    intros d [Hd | [Hd | []]]; injection Hd as <-; vm_compute; discriminate.
  - apply (Hdiff (rowOf "7" "a") (rowOf "7" "x"));
      [right; left; reflexivity | right; left; reflexivity | reflexivity | reflexivity | | ].
    + intros [cmp Hcmp]. vm_compute in Hcmp. discriminate.
    + intros d' [Hd | [Hd | []]]; injection Hd as <-; [vm_compute; discriminate | reflexivity].
Defined.

(** C10 at keys 9 and 10 of the integer column [id].  Both sides hold the
    same two rows.  [getRowChangeIterator] yields key 10 before key 9; the
    downstream, sorted by primary key, yields 9 before 10; and the merge of
    [validateInsertAndUpdateRows] reports key 9 as failed. *)
Lemma binlog_order_false_failure :
  getRowChangeIterator shown t [inserted "9" "a"; inserted "10" "b"]
    = Value [rowOf "10" "b"; rowOf "9" "a"] /\
  validateInsertAndUpdateRows shown true
    (answerRows []) (answerRows [rowOf "9" "a"; rowOf "10" "b"]) compareByNumber
    5 [inserted "9" "a"; inserted "10" "b"] (condOf ["9"; "10"])
  = Some (Value ([["9"]], None)) /\
  validateInsertAndUpdateRows shown false
    (answerRows [rowOf "9" "a"; rowOf "10" "b"])
    (answerRows [rowOf "9" "a"; rowOf "10" "b"]) compareByNumber
    5 [inserted "9" "a"; inserted "10" "b"] (condOf ["9"; "10"])
  = Some (Value ([], None)).
Proof. repeat split; vm_compute; reflexivity. Qed.

(** C6 at an insert of [(v, id) = (5, 7)] into table [s], whose key is the
    second column: [pkValue] has one entry and is indexed by the key's
    offset 1, so [processEventRows] panics; on table [t], whose key is the
    first column, the same insert is recorded under key ["7"]. *)
Lemma processEventRows_key_offset_panics :
  processEventRows shown tables emptyDiff
    (mkEventHeader 1600000000 WRITE_ROWS_EVENTv2)
    (mkRowsEvent "test" "s" [[Some "5"; Some "7"]] [])
  = Panic "index out of range" /\
  exists df,
    processEventRows shown tables emptyDiff
      (mkEventHeader 1600000000 WRITE_ROWS_EVENTv2)
      (mkRowsEvent "test" "t" [[Some "7"; Some "5"]] [])
    = Value (df, None) /\
    (rows <$> accumulatedChanges df !! "test.t") =
      Some {[ "7" := mkRowChange ["7"] [Some "7"; Some "5"] rowInsert 1600000000 ]}.
Proof.
  split; [reflexivity | ]. eexists. split; [reflexivity | ].
  vm_compute. reflexivity.
Qed.

(** *** The further properties on the concrete tables *)

Lemma keyedByPk_empty : keyedByPk (value := string) ∅.
Proof. intros name change key r Hname. rewrite lookup_empty in Hname. discriminate. Defined.

Lemma compareByNumber_sign : cmpIsSign compareByNumber.
Proof.
  intros tbl u d cmp. unfold compareByNumber.
  destruct (List.forallb _ _); [discriminate | ].
  destruct (u !! "id") as [a|]; [ | discriminate].
  destruct (d !! "id") as [b|]; [ | discriminate].
  destruct (Atoi (Data a)) as [x|]; [ | discriminate].
  destruct (Atoi (Data b)) as [y|]; [ | discriminate].
  destruct (x =? y); [intros [= <-]; auto | ].
  destruct (x <? y); intros [= <-]; auto.
Qed.

(** C9 on table [t], whose primary key is the single column [id], with
    three keys. *)
Lemma GetWhere_spec_witness :
  PrimaryKey (Cond_Table (condOf ["7"; "8"; "9"])) = Some (mkIndexInfo ["id"]) /\
  ~ isPanic (GetWhere (condOf ["7"; "8"; "9"])) /\
  GetWhere (condOf ["7"; "8"; "9"]) = Value "id in (?, ?, ?)".
Proof.
  assert (Hcolumns : Columns (mkIndexInfo ["id"]) <> []) by discriminate.
  destruct (GetWhere_spec (condOf ["7"; "8"; "9"]) (mkIndexInfo ["id"]) eq_refl Hcolumns)
    as (Hpanic & _ & Hvalue).
  split; [reflexivity | split].
  - intros Hp. apply Hpanic in Hp. cbn in Hp. lia.
  - exact (Hvalue "id" eq_refl).
Defined.

(** Over a primary key of two columns [GetWhere] panics. *)
Example GetWhere_two_columns_panics :
  GetWhere (mkCond (mkTableDiff "test" "u"
                      [mkColumnInfo "a" 0; mkColumnInfo "b" 1]
                      (Some (mkIndexInfo ["a"; "b"]))
                      {[ "a" := mkColumnInfo "a" 0; "b" := mkColumnInfo "b" 1 ]})
                   [["1"; "2"]])
  = Panic "should be one".
Proof. reflexivity. Qed.

Lemma GetWhere_GetArgs_arity_witness :
  exists where_,
    GetWhere (condOf ["7"; "8"; "9"]) = Value where_ /\
    countOf "?" where_ = (countOf "?" "id" + length (GetArgs (condOf ["7"; "8"; "9"])))%nat.
Proof.
  apply (GetWhere_GetArgs_arity (condOf ["7"; "8"; "9"]) "id"); [reflexivity | ].
  repeat constructor.
Defined.

(** An update of row 7 of [t] and the insert of row 8, as the binlog sends
    them. *)
Definition updateOf7 : RowsEvent (value := string) :=
  mkRowsEvent "test" "t" [[Some "7"; Some "a"]; [Some "7"; Some "b"]] [].

Definition insertOf8 : RowsEvent (value := string) :=
  mkRowsEvent "test" "t" [[Some "8"; Some "c"]] [].

(** The decimal text of a row's id. *)
Definition idText (n : nat) : string := NilZero.string_of_uint (Nat.to_uint n).

(** The accumulator holds row 7 of [t], and no batch was sent yet. *)
Definition holding7 : Diff (value := string) :=
  mkDiff {[ "test.t" := mkTableChange t {[ "7" := inserted "7" "a" ]} ]} 1 [0; 1; 0; 0] [].

(** One insert event with the 200 rows of ids 100 to 299. *)
Definition insertOf200 : RowsEvent (value := string) :=
  mkRowsEvent "test" "t"
    (List.map (fun n => [Some (idText n); Some "x"]) (List.seq 100 200)) [].

Definition insertedAt (ts : Z) (n : nat) : rowChange (value := string) :=
  mkRowChange [idText n] [Some (idText n); Some "x"] rowInsert ts.

(** The batch that fills up at row 298: row 7 and the rows 100 to 298. *)
Definition batch200 : gmap string (tableChange (value := string)) :=
  {[ "test.t" :=
       mkTableChange t
         (list_to_map
            (("7", inserted "7" "a")
             :: List.map (fun n => (idText n, insertedAt 1600000002 n))
                  (List.seq 100 199))) ]}.

(** Row 299 starts the next batch. *)
Definition after200 : Diff (value := string) :=
  mkDiff {[ "test.t" := mkTableChange t {[ "299" := insertedAt 1600000002 299 ]} ]}
    201 [0; 2; 0; 0] [batch200].

Lemma holding7_keyed : keyedByPk (accumulatedChanges holding7).
Proof.
  intros name change key r Hname Hkey. cbn [accumulatedChanges holding7] in Hname.
  apply lookup_singleton_Some in Hname as [<- <-]. cbn [rows] in Hkey.
  apply lookup_singleton_Some in Hkey as [<- <-]. reflexivity.
Qed.

(** The event fills the batch begun with row 7: the batch is sent with its
    200 rows, row 299 is accumulated, and 200 rows are new. *)
Lemma processEventRows_batches_witness :
  getRowCount (accumulatedChanges holding7) = 1 /\
  processEventRows shown tables holding7
    (mkEventHeader 1600000002 WRITE_ROWS_EVENTv2) insertOf200 = Value (after200, None) /\
  getRowCount batch200 = 200 /\
  getRowCount (accumulatedChanges after200) < batchRowCount /\
  keyedByPk (accumulatedChanges after200) /\
  exists new,
    pendingChangeCh after200 = pendingChangeCh holding7 ++ new /\
    List.Forall (fun b => getRowCount b = batchRowCount /\ keyedByPk b) new /\
    pendingRowCnt after200 - pendingRowCnt holding7
      = getRowCount (accumulatedChanges after200) + batchRowCount * Z.of_nat (length new)
        - getRowCount (accumulatedChanges holding7).
Proof.
  assert (Hrun : processEventRows shown tables holding7
                   (mkEventHeader 1600000002 WRITE_ROWS_EVENTv2) insertOf200
                 = Value (after200, None)) by (vm_compute; reflexivity).
  split; [reflexivity | ]. split; [exact Hrun | ].
  split; [vm_compute; reflexivity | ].
  exact (processEventRows_batches shown tables holding7
           (mkEventHeader 1600000002 WRITE_ROWS_EVENTv2) insertOf200 after200 None
           eq_refl holding7_keyed Hrun).
Defined.

Definition received : list (routineInput (value := string)) :=
  [GotRowsEvent (mkEventHeader 1600000000 UPDATE_ROWS_EVENTv2) updateOf7;
   TimerFired;
   GotRowsEvent (mkEventHeader 1600000001 WRITE_ROWS_EVENTv2) insertOf8].

Lemma rowsEventProcessRoutine_batches_witness :
  exists df',
    rowsEventProcessRoutine shown tables received emptyDiff = Value df' /\
    getRowCount (accumulatedChanges df') < batchRowCount /\
    keyedByPk (accumulatedChanges df') /\
    exists new,
      pendingChangeCh df' = pendingChangeCh emptyDiff ++ new /\
      List.Forall goodBatch new /\
      pendingRowCnt df' - pendingRowCnt emptyDiff
        = getRowCount (accumulatedChanges df') + rowsSent new
          - getRowCount (accumulatedChanges emptyDiff).
Proof.
  eexists. split; [reflexivity | ].
  exact (rowsEventProcessRoutine_batches shown tables received emptyDiff _
           eq_refl keyedByPk_empty eq_refl).
Defined.

Lemma validateInsertAndUpdateRows_returns_witness :
  exists out,
    validateInsertAndUpdateRows shown false
      (answerRows [rowOf "6" "c"; rowOf "7" "a"]) (answerRows [rowOf "7" "x"])
      compareByNumber 4 [inserted "6" "c"; inserted "7" "a"] (condOf ["6"; "7"])
    = Some out.
Proof.
  apply (validateInsertAndUpdateRows_returns shown false
           (answerRows [rowOf "6" "c"; rowOf "7" "a"]) (answerRows [rowOf "7" "x"])
           compareByNumber compareByNumber_sign 4).
  intros upIt downIt [= <-] [= <-]. cbn. lia.
Defined.

(** Keys 7 and 8 were deleted upstream; the downstream still has row 7. *)
Lemma validateDeletedRows_reports_witness :
  validateDeletedRows (answerRows [rowOf "7" "a"]) (condOf ["7"; "8"])
    = Value ([["7"]], None) /\
  List.Forall2 (rowOfKey (condOf ["7"; "8"])) [Batch.NextRow (rowOf "7" "a")] [["7"]] /\
  ([["7"]] = [] <-> [Batch.NextRow (rowOf "7" "a")] = []).
Proof.
  split; [reflexivity | ].
  exact (validateDeletedRows_reports (answerRows [rowOf "7" "a"]) (condOf ["7"; "8"])
           _ _ eq_refl eq_refl).
Defined.

Lemma getRowChangeIterator_sorted_witness :
  exists sorted,
    Permutation sorted [inserted "9" "a"; inserted "10" "b"; inserted "8" "c"] /\
    Sorted (notBefore (fun left right => pkLess (pk left) (pk right))) sorted /\
    List.Forall2 (fun r it => colMapOf shown t r = Value it) sorted
      [rowOf "10" "b"; rowOf "8" "c"; rowOf "9" "a"].
Proof.
  exact (getRowChangeIterator_sorted shown t
           [inserted "9" "a"; inserted "10" "b"; inserted "8" "c"] _ eq_refl).
Defined.

(** On table [s] the key column [id] has offset 1 and the key has one
    column: an insert panics. *)
Lemma processEventRows_panics_iff_witness :
  isPanic (processEventRows shown tables emptyDiff
             (mkEventHeader 1600000000 WRITE_ROWS_EVENTv2)
             (mkRowsEvent "test" "s" [[Some "5"; Some "7"]] []))
  <-> exists idx, In idx [1%nat] /\ (length (Columns (mkIndexInfo ["id"])) <= idx)%nat.
Proof.
  apply (processEventRows_panics_iff shown tables emptyDiff
           (mkEventHeader 1600000000 WRITE_ROWS_EVENTv2)
           (mkRowsEvent "test" "s" [[Some "5"; Some "7"]] [])
           s (mkIndexInfo ["id"]) [1%nat]); try reflexivity.
  - intros row idx [<- | []] [<- | []]. cbn. lia.
  - cbn. discriminate.
Defined.

(** *** The validator on the concrete table *)

(** The order in which the maps are ranged over: here, that of
    [map_to_list]. *)
Lemma anyOrder :
  rangesAreOrders (value := string) map_to_list map_to_list.
Proof. split; intros m; reflexivity. Qed.

(** A batch with the inserts of rows 7 and 8 of [t]. *)
Definition batch78 : gmap string (tableChange (value := string)) :=
  {[ "test.t" := mkTableChange t {[ "7" := inserted "7" "a"; "8" := inserted "8" "c" ]} ]}.

(** The upstream holds both rows; the downstream holds row 8 and another
    row 7. *)
Definition upstream78 := answerRows [rowOf "7" "a"; rowOf "8" "c"].
Definition downstream78 := answerRows [rowOf "7" "x"; rowOf "8" "c"].

(** Row 7 failed. *)
Definition failed7 : gmap string (tableChange' (value := string)) :=
  {[ "test.t" := mkTableChange' t {[ "7" := Some (inserted "7" "a") ]} ]}.

(** Row 8 had failed before. *)
Definition failed8 : gmap string (tableChange' (value := string)) :=
  {[ "test.t" := mkTableChange' t {[ "8" := Some (inserted "8" "b") ]} ]}.

Lemma batch78_keyed : keyedByPk batch78.
Proof.
  intros name change key r Hname Hkey. unfold batch78 in Hname.
  apply lookup_singleton_Some in Hname as [<- <-]. cbn [rows] in Hkey.
  apply lookup_insert_Some in Hkey as [[<- <-] | [_ Hkey]]; [reflexivity | ].
  apply lookup_singleton_Some in Hkey as [<- <-]. reflexivity.
Qed.

Lemma failed7_keyed : keyedByPk' failed7.
Proof.
  intros name change key r Hname Hkey. unfold failed7 in Hname.
  apply lookup_singleton_Some in Hname as [<- <-]. cbn [rows'] in Hkey.
  apply lookup_singleton_Some in Hkey as [<- [= <-]]. reflexivity.
Qed.

Lemma validateTableChange_reports_witness :
  validateTableChange shown false upstream78 downstream78 compareByNumber
    map_to_list map_to_list 5 (sent <$> batch78) = Some (Value failed7) /\
  forall k ft,
    failed7 !! k = Some ft ->
    exists v,
      (sent <$> batch78) !! k = Some v /\ table' ft = table' v /\
      rows' ft <> ∅ /\ fromBatch v (rows' ft).
Proof.
  split; [reflexivity | ].
  exact (proj1 (validateTableChange_reports shown false upstream78 downstream78
                  compareByNumber map_to_list map_to_list 5 (sent <$> batch78) failed7
                  (fun m => Permutation_refl _) eq_refl)).
Defined.

Lemma updateFailedChanges_spec_witness :
  updateFailedChanges map_to_list map_to_list (sent <$> batch78) failed7 failed8
    = Value failed7 /\
  forall name key,
    rowAt failed7 name key
    = match rowAt failed7 name key with
      | Some entry => Some entry
      | None =>
        match rowAt (sent <$> batch78) name key with
        | Some _ => None
        | None => rowAt failed8 name key
        end
      end.
Proof.
  assert (Hrun : updateFailedChanges map_to_list map_to_list (sent <$> batch78)
                   failed7 failed8 = Value failed7) by (vm_compute; reflexivity).
  split; [exact Hrun | ].
  exact (proj2 (updateFailedChanges_spec map_to_list map_to_list
                  (sent <$> batch78) failed7 failed8 anyOrder)
               (keyedByPk'_sent batch78 batch78_keyed) failed7_keyed failed7 Hrun).
Defined.

Lemma getContinueValidationSummary_spec_witness :
  getContinueValidationSummary map_to_list map_to_list failed7 = Value (1, 1600000000) /\
  1 = getRowCount' failed7 /\
  (forall name change key entry,
     failed7 !! name = Some change -> rows' change !! key = Some entry ->
     exists r, entry = Some r /\ 1600000000 <= lastMeetTs r) /\
  (1600000000 = MaxInt64 \/
   exists name change key r,
     failed7 !! name = Some change /\ rows' change !! key = Some (Some r) /\
     lastMeetTs r = 1600000000).
Proof.
  split; [reflexivity | ].
  exact (proj2 (getContinueValidationSummary_spec map_to_list map_to_list failed7 anyOrder)
               1 1600000000 eq_refl).
Defined.

Lemma onPendingChange_spec_witness :
  exists pending' vd',
    onPendingChange shown false upstream78 downstream78 compareByNumber
      map_to_list map_to_list 5 (sent <$> batch78) 2 (mkValidator failed8 1 0)
      = Some (Value (pending', vd')) /\
    pending' = 2 - getRowCount batch78 /\
    failedRowCnt vd' = getRowCount' (failedChanges vd') /\
    taken vd' = 1%nat /\
    exists failed,
      validateTableChange shown false upstream78 downstream78 compareByNumber
        map_to_list map_to_list 5 (sent <$> batch78) = Some (Value failed) /\
      forall name key,
        rowAt (failedChanges vd') name key
        = match rowAt (sent <$> batch78) name key with
          | Some row =>
            match rowAt failed name key with
            | Some _ => Some row
            | None => None
            end
          | None => rowAt failed8 name key
          end.
Proof.
  do 2 eexists. split; [reflexivity | ].
  exact (onPendingChange_spec shown false upstream78 downstream78 compareByNumber
           map_to_list map_to_list 5 batch78 2 _ (mkValidator failed8 1 0) _
           anyOrder batch78_keyed eq_refl).
Defined.

Definition insertOf7 : RowsEvent (value := string) :=
  mkRowsEvent "test" "t" [[Some "7"; Some "a"]] [].

(** Two inserts, a tick of the timer, the validation of the batch and a
    retry of what failed. *)
Definition turns78 : list (turn (value := string)) :=
  [RoutineTurn (GotRowsEvent (mkEventHeader 1600000000 WRITE_ROWS_EVENTv2) insertOf7);
   RoutineTurn (GotRowsEvent (mkEventHeader 1600000000 WRITE_ROWS_EVENTv2) insertOf8);
   RoutineTurn TimerFired;
   ValidatorTurn;
   RetryTurn].

(** The state after these turns: both rows were counted as inserts, the
    batch was sent and validated, and row 7 is among the failed rows. *)
Definition after78 : Diff (value := string) * Validator (value := string) :=
  (mkDiff ∅ 0 [0; 2; 0; 0] [batch78], mkValidator failed7 1 1).

Lemma runSystem_accounted_witness :
  runSystem shown false upstream78 downstream78 compareByNumber
    map_to_list map_to_list tables 5 turns78 newSystem = Some (Value after78) /\
  pendingRowCnt after78.1
    = getRowCount (accumulatedChanges after78.1)
      + rowsSent (drop (taken after78.2) (pendingChangeCh after78.1)) /\
  failedRowCnt after78.2 = getRowCount' (failedChanges after78.2) /\
  List.Forall goodBatch (pendingChangeCh after78.1).
Proof.
  assert (Hrun : runSystem shown false upstream78 downstream78 compareByNumber
                   map_to_list map_to_list tables 5 turns78 newSystem
                 = Some (Value after78)) by (vm_compute; reflexivity).
  split; [exact Hrun | ].
  exact (runSystem_accounted shown false upstream78 downstream78 compareByNumber
           map_to_list map_to_list tables 5 turns78 after78 Hrun).
Defined.

Lemma t_keyLeads : keyLeads t (mkIndexInfo ["id"]).
Proof.
  split; [reflexivity | split; [ | split; [ | reflexivity]]].
  - apply (bool_decide_unpack _). reflexivity.
  - intros name c Hc. unfold t in Hc. cbn [ColumnMap] in Hc.
    apply lookup_insert_Some in Hc as [[<- <-] | [_ Hc]].
    + split; [left | reflexivity].
    + apply lookup_singleton_Some in Hc as [<- <-].
      split; [right; left | reflexivity].
Qed.

Lemma inserted_filedByKey (id v : string) :
  filedByKey shown (mkIndexInfo ["id"]) (inserted id v).
Proof. split; [reflexivity | repeat constructor; discriminate]. Qed.

(** The batch of C10 in binlog mode: the failed key 9 is the key of a row
    change of the batch. *)
Lemma validateInsertAndUpdateRows_binlog_keys_witness :
  validateInsertAndUpdateRows shown true
    (answerRows []) (answerRows [rowOf "9" "a"; rowOf "10" "b"]) compareByNumber
    5 [inserted "9" "a"; inserted "10" "b"] (condOf ["9"; "10"])
  = Some (Value ([["9"]], None)) /\
  forall p, In p [["9"]] ->
    exists r, In r [inserted "9" "a"; inserted "10" "b"] /\ p = pk r.
Proof.
  assert (Hrun : validateInsertAndUpdateRows shown true
                   (answerRows []) (answerRows [rowOf "9" "a"; rowOf "10" "b"])
                   compareByNumber 5 [inserted "9" "a"; inserted "10" "b"]
                   (condOf ["9"; "10"])
                 = Some (Value ([["9"]], None))) by (vm_compute; reflexivity).
  split; [exact Hrun | ].
  apply (validateInsertAndUpdateRows_binlog_keys shown true
           (answerRows []) (answerRows [rowOf "9" "a"; rowOf "10" "b"]) compareByNumber
           5 [inserted "9" "a"; inserted "10" "b"] (condOf ["9"; "10"])
           (mkIndexInfo ["id"]) [["9"]] eq_refl t_keyLeads).
  - intros r [<- | [<- | []]]; apply inserted_filedByKey.
  - exact Hrun.
Defined.

End ContinuousScenario.

(** ** The snapshot kept from GC: [Diff.startGCKeeperForTiDB] (diff.go) *)

Module GCKeeper.



Lemma ltb_irrefl (a : string) : String.ltb a a = false.
Proof.
  unfold String.ltb. pose proof (String.compare_antisym a a) as Hanti.
  destruct (String.compare a a); cbn in Hanti; congruence.
Qed.



End GCKeeper.

(** ** The stale-file purge: [Diff.removeSQLFiles] (diff.go) *)

Module FixSQL.

(** [strings.Contains(s, substr)]. *)
Definition Contains (s substr : string) : bool :=
  match String.index 0 substr s with
  | Some _ => true
  | None => false
  end.

(** [strings.HasSuffix(s, suffix)]. *)
Definition HasSuffix (s suffix : string) : bool :=
  Nat.leb (String.length suffix) (String.length s)
  && String.eqb (String.substring (String.length s - String.length suffix)
                                  (String.length suffix) s) suffix.

Definition inCutset (cutset : string) (c : ascii) : bool :=
  List.existsb (Ascii.eqb c) (list_ascii_of_string cutset).

Fixpoint dropWhileIn (cutset : string) (l : list ascii) : list ascii :=
  match l with
  | [] => []
  | c :: l' => if inCutset cutset c then dropWhileIn cutset l' else l
  end.

(** [strings.TrimRight(s, cutset)]: every trailing character that occurs in
    [cutset] is removed. *)
Definition TrimRight (s cutset : string) : string :=
  string_of_list_ascii
    (List.rev (dropWhileIn cutset (List.rev (list_ascii_of_string s)))).

(** The part of [s] before the first [sep] and the part after it. *)
Fixpoint cut (sep : ascii) (s : string) : option (string * string) :=
  match s with
  | EmptyString => None
  | String c s' =>
    if Ascii.eqb c sep then Some (EmptyString, s')
    else match cut sep s' with
         | Some (before, after) => Some (String c before, after)
         | None => None
         end
  end.

(** [strings.SplitN(s, sep, n)] for a separator of one character and
    [n > 0]: at most [n] substrings, the last being the unsplit remainder. *)
Fixpoint SplitN (s : string) (sep : ascii) (n : nat) : list string :=
  match n with
  | O => []
  | S O => [s]
  | S n' =>
    match cut sep s with
    | Some (before, after) => before :: SplitN after sep n'
    | None => [s]
    end
  end.

(** [filepath.Join(dir, rel)] on clean paths. *)
Definition filepath_Join (dir rel : string) : string :=
  (dir ++ "/" ++ rel)%string.

(** [chunk.ChunkID]. *)
Record ChunkID := mkChunkID {
  TableIndex : Z;
  BucketIndexLeft : Z;
  BucketIndexRight : Z;
  ChunkIndex : Z;
  ChunkCnt : Z
}.

(** [fs.FileInfo], as far as the walk reads it. *)
Record FileInfo := mkFileInfo {
  Name : string;
  IsDir : bool
}.

(** One call of the function handed to [filepath.Walk]: the path relative to
    [FixSQLDir], the file information ([nil] when it could not be read) and
    the error of the walk, with whether [os.IsNotExist] holds of it.
    [filepath.Walk] visits the tree in lexical order and stops at the first
    call that returns an error. *)
Record WalkEntry := mkWalkEntry {
  relPath : string;
  info : option FileInfo;
  walkErr : option (bool * error)
}.

(** What one call does: go on, go on after a rename, or stop the walk. *)
Inductive visitResult :=
| Continue
| Moved (oldPath newPath : string)
| Stop (err : error).

(** [common.TableDiff], as far as [writeSQLs] reads it. *)
Record TableDiff := mkTableDiff {
  Schema : string;
  Table : string;
  NeedUnifiedTimeZone : bool
}.

(** What [writeSQLs] ends with: the channel was closed and it returned,
    [log.Fatal] ended the process, or it panicked. *)
Inductive ended (A : Type) :=
| Done (a : A)
| Fatal
| Panicked (msg : string).
Arguments Done {A} a.
Arguments Fatal {A}.
Arguments Panicked {A} msg.

(** The line feed and the double quote. *)
Definition newline : string := String (Ascii.ascii_of_nat 10) EmptyString.
Definition doubleQuote : string := String (Ascii.ascii_of_nat 34) EmptyString.

Section Purge.

(** [utils.GetChunkIDFromSQLFileName] and [ChunkID.Compare]. *)
Variable GetChunkIDFromSQLFileName : string -> (Z * Z * Z * Z) + error.
Variable Compare : ChunkID -> ChunkID -> Z.

(** [os.Rename(oldPath, newPath)]: the error, if any. *)
Variable Rename : string -> string -> option error.

(** [df.FixSQLDir] and the trash folder [FixSQLDir/.trash-<timestamp>]. *)
Variable FixSQLDir : string.
Variable timestamp : string.

Definition folderPath : string :=
  filepath_Join FixSQLDir (".trash-" ++ timestamp)%string.

(** The chunk ID read off a file name, when the name ends in [.sql], has
    three fields and its third field decodes. *)
Definition fileIDOf (name : string) : option (ChunkID + error) :=
  if HasSuffix name ".sql" then
    let fileIDStr := TrimRight name ".sql" in
    let fileIDSubstrs := SplitN fileIDStr ":" 3 in
    match fileIDSubstrs with
    | [_; _; third] =>
      match GetChunkIDFromSQLFileName third with
      | inr err => Some (inr err)
      | inl (tableIndex, bucketIndexLeft, bucketIndexRight, chunkIndex) =>
        Some (inl (mkChunkID tableIndex bucketIndexLeft bucketIndexRight chunkIndex 0))
      end
    | _ => None
    end
  else None.

(** The function handed to [filepath.Walk]. *)
Definition visit (checkPointId : ChunkID) (e : WalkEntry) : visitResult :=
  match walkErr e with
  | Some (true, _) => Continue
  | Some (false, err) => Stop (Trace err)
  | None =>
    match info e with
    | None => Continue
    | Some f =>
      if IsDir f then Continue
      else
        let oldPath := filepath_Join FixSQLDir (relPath e) in
        let newPath := filepath_Join folderPath (relPath e) in
        if Contains oldPath ".trash" then Continue
        else
          match fileIDOf (Name f) with
          | None => Continue
          | Some (inr err) => Stop (Trace err)
          | Some (inl fileID) =>
            if 0 <? Compare fileID checkPointId then
              match Rename oldPath newPath with
              | Some err => Stop (Trace err)
              | None => Moved oldPath newPath
              end
            else Continue
          end
    end
  end.

(** [filepath.Walk] over the entries it will visit: the renames done, in
    order, and the error that stopped it. *)
Fixpoint walk (checkPointId : ChunkID) (entries : list WalkEntry)
  (moves : list (string * string)) : list (string * string) * option error :=
  match entries with
  | [] => (moves, None)
  | e :: rest =>
    match visit checkPointId e with
    | Continue => walk checkPointId rest moves
    | Moved oldPath newPath => walk checkPointId rest (moves ++ [(oldPath, newPath)])
    | Stop err => (moves, Some (Trace err))
    end
  end.

(** [mkdirErr] is the error of creating the trash folder, if any. *)
Definition removeSQLFiles (mkdirErr : option error) (entries : list WalkEntry)
  (checkPointId : ChunkID) : list (string * string) * option error :=
  match mkdirErr with
  | Some err => ([], Some (Trace err))
  | None => walk checkPointId entries []
  end.

(** The files the purge is after: regular files read without error, whose
    path under [FixSQLDir] does not contain [.trash], whose name yields a
    chunk ID, and whose chunk ID compares greater than the floor. *)
Definition stale (checkPointId : ChunkID) (e : WalkEntry) : bool :=
  match walkErr e, info e with
  | None, Some f =>
    negb (IsDir f)
    && negb (Contains (filepath_Join FixSQLDir (relPath e)) ".trash")
    && match fileIDOf (Name f) with
       | Some (inl fileID) => 0 <? Compare fileID checkPointId
       | _ => false
       end
  | _, _ => false
  end.

Definition moveOf (e : WalkEntry) : string * string :=
  (filepath_Join FixSQLDir (relPath e), filepath_Join folderPath (relPath e)).

(** *** Properties of the purge *)

Lemma visit_stale (checkPointId : ChunkID) (e : WalkEntry) :
  match visit checkPointId e with
  | Continue => stale checkPointId e = false
  | Moved oldPath newPath =>
    stale checkPointId e = true /\ (oldPath, newPath) = moveOf e
  | Stop _ => True
  end.
Proof.
  unfold visit, stale, moveOf.
  destruct (walkErr e) as [[[|] err]|]; [reflexivity | exact I | ].
  destruct (info e) as [f|]; [ | reflexivity].
  destruct (IsDir f); [reflexivity | ].
  destruct (Contains _ ".trash"); [reflexivity | ].
  destruct (fileIDOf (Name f)) as [[fileID|err]|]; [ | exact I | reflexivity].
  destruct (0 <? Compare fileID checkPointId); [ | reflexivity].
  destruct (Rename _ _); [exact I | split; reflexivity].
Qed.

Lemma walk_moves (checkPointId : ChunkID) (entries : list WalkEntry) :
  forall moves,
    ((walk checkPointId entries moves).2 = None ->
       (walk checkPointId entries moves).1
         = moves ++ List.map moveOf (List.filter (stale checkPointId) entries)) /\
    exists rest,
      moves ++ List.map moveOf (List.filter (stale checkPointId) entries)
        = (walk checkPointId entries moves).1 ++ rest.
Proof.
  induction entries as [|e entries IH]; intros moves; cbn [walk List.filter List.map].
  - cbn [fst snd]. rewrite app_nil_r. split; [reflexivity | exists []; now rewrite app_nil_r].
  - pose proof (visit_stale checkPointId e) as Hvisit.
    destruct (visit checkPointId e) as [|oldPath newPath|err].
    + rewrite Hvisit. apply IH.
    + destruct Hvisit as [-> Hmove]. cbn [List.map]. rewrite <- Hmove.
      destruct (IH (moves ++ [(oldPath, newPath)])) as [Hall [rest Hrest]].
      rewrite <- app_assoc in Hall, Hrest. cbn [app] in Hall, Hrest.
      split; [exact Hall | exists rest; exact Hrest].
    + cbn [fst snd]. split; [discriminate | eauto].
Qed.

(** The first file with three fields and an undecodable ID stops the walk. *)
Lemma walk_stops (checkPointId : ChunkID) (before after : list WalkEntry)
  (e : WalkEntry) (err : error) :
  (walk checkPointId before []).2 = None ->
  visit checkPointId e = Stop err ->
  walk checkPointId (before ++ e :: after) []
    = (List.map moveOf (List.filter (stale checkPointId) before), Some err).
Proof.
  intros Hbefore Hstop.
  assert (Hgen : forall moves,
    (walk checkPointId before moves).2 = None ->
    walk checkPointId (before ++ e :: after) moves
      = (moves ++ List.map moveOf (List.filter (stale checkPointId) before), Some err)).
  { clear Hbefore. induction before as [|b before IH]; intros moves; cbn [walk app].
    - intros _. rewrite Hstop. cbn. now rewrite app_nil_r.
    - pose proof (visit_stale checkPointId b) as Hvisit.
      cbn [List.filter]. destruct (visit checkPointId b) as [|oldPath newPath|err'].
      + rewrite Hvisit. apply IH.
      + destruct Hvisit as [-> Hmove]. cbn [List.map]. rewrite <- Hmove.
        intros Hnone. rewrite (IH _ Hnone), <- app_assoc. reflexivity.
      + discriminate. }
  exact (Hgen [] Hbefore).
Qed.

(** The renames [removeSQLFiles] does are, in the order of the walk, the
    first of the files that pass the tests of [visit] (the [stale] entries);
    when the walk ends without error they are all of them.  A file of three
    fields whose third field does not decode stops the walk with an error:
    the files visited after it are left in place, stale or not. *)
Theorem removeSQLFiles_moves (mkdirErr : option error) (entries : list WalkEntry)
  (checkPointId : ChunkID) :
  ((removeSQLFiles mkdirErr entries checkPointId).2 = None ->
     (removeSQLFiles mkdirErr entries checkPointId).1
       = List.map moveOf (List.filter (stale checkPointId) entries)) /\
  (exists rest,
     List.map moveOf (List.filter (stale checkPointId) entries)
       = (removeSQLFiles mkdirErr entries checkPointId).1 ++ rest) /\
  (forall before e after f err,
     mkdirErr = None ->
     entries = before ++ e :: after ->
     (walk checkPointId before []).2 = None ->
     walkErr e = None -> info e = Some f -> IsDir f = false ->
     Contains (filepath_Join FixSQLDir (relPath e)) ".trash" = false ->
     fileIDOf (Name f) = Some (inr err) ->
     removeSQLFiles mkdirErr entries checkPointId
       = (List.map moveOf (List.filter (stale checkPointId) before), Some err)).
Proof.
  unfold removeSQLFiles. destruct mkdirErr as [err0|].
  - cbn [fst snd]. split; [discriminate | split; [eauto | discriminate]].
  - destruct (walk_moves checkPointId entries []) as [Hall Hprefix].
    split; [exact Hall | split; [exact Hprefix | ]].
    intros before e after f err _ -> Hbefore Herr Hinfo Hdir Htrash Hid.
    apply walk_stops; [exact Hbefore | ].
    unfold visit. rewrite Herr, Hinfo, Hdir, Htrash, Hid. reflexivity.
Qed.

(** *** The names [writeSQLs] gives its files, read back by the purge *)

Section Names.

(** [utils.GetSQLFileName]. *)
Variable GetSQLFileName : ChunkID -> string.

(** [fmt.Sprintf("%s:%s:%s.sql", tableDiff.Schema, tableDiff.Table,
    utils.GetSQLFileName(dml.node.GetID()))] of [writeSQLs]. *)
Definition sqlFileName (schema table : string) (id : ChunkID) : string :=
  (schema ++ ":" ++ table ++ ":" ++ GetSQLFileName id ++ ".sql")%string.

(** The character does not occur in the string. *)
Definition free (c : ascii) (s : string) : bool :=
  negb (List.existsb (Ascii.eqb c) (list_ascii_of_string s)).

(** The string is empty or its last character is not in [cutset]. *)
Definition endsOutside (cutset s : string) : bool :=
  match List.rev (list_ascii_of_string s) with
  | [] => true
  | c :: _ => negb (inCutset cutset c)
  end.

Lemma append_cons (c : ascii) (a b : string) :
  (String c a ++ b)%string = String c (a ++ b)%string.
Proof. reflexivity. Qed.

Lemma length_append (a b : string) :
  String.length (a ++ b)%string = (String.length a + String.length b)%nat.
Proof.
  induction a as [|c a IH]; [reflexivity | ].
  rewrite append_cons. cbn [String.length]. now rewrite IH.
Qed.

Lemma substring_all (b : string) : String.substring 0 (String.length b) b = b.
Proof. induction b as [|c b IH]; [reflexivity | ]. cbn. now rewrite IH. Qed.

Lemma substring_append (a b : string) :
  String.substring (String.length a) (String.length b) (a ++ b)%string = b.
Proof.
  induction a as [|c a IH]; [apply substring_all | ].
  rewrite append_cons. cbn [String.length String.substring]. exact IH.
Qed.

Lemma HasSuffix_append (a suffix : string) : HasSuffix (a ++ suffix)%string suffix = true.
Proof.
  unfold HasSuffix. rewrite length_append.
  replace (String.length a + String.length suffix - String.length suffix)%nat
    with (String.length a) by lia.
  rewrite substring_append, String.eqb_refl, andb_true_r.
  apply Nat.leb_le. lia.
Qed.

Lemma list_ascii_of_append (a b : string) :
  list_ascii_of_string (a ++ b)%string
  = list_ascii_of_string a ++ list_ascii_of_string b.
Proof.
  induction a as [|c a IH]; [reflexivity | ].
  rewrite append_cons. cbn [list_ascii_of_string app]. now rewrite IH.
Qed.

Lemma string_of_list_app (x y : list ascii) :
  string_of_list_ascii (x ++ y)
  = (string_of_list_ascii x ++ string_of_list_ascii y)%string.
Proof.
  induction x as [|c x IH]; [reflexivity | ].
  cbn [app string_of_list_ascii]. rewrite append_cons. now rewrite IH.
Qed.

Lemma dropWhileIn_stops (cutset : string) (c : ascii) (l2 : list ascii) :
  inCutset cutset c = false ->
  forall l1, dropWhileIn cutset (l1 ++ c :: l2) = dropWhileIn cutset l1 ++ c :: l2.
Proof.
  intros Hc. induction l1 as [|x l1 IH]; cbn [app dropWhileIn].
  - now rewrite Hc.
  - destruct (inCutset cutset x); [exact IH | reflexivity].
Qed.

(** Trimming stops at a character outside the cutset: what stands before
    it, and the character, stay. *)
Lemma TrimRight_after (a : string) (c : ascii) (b cutset : string) :
  inCutset cutset c = false ->
  TrimRight (a ++ String c b)%string cutset
  = (a ++ String c (TrimRight b cutset))%string.
Proof.
  intros Hc. unfold TrimRight.
  rewrite list_ascii_of_append. cbn [list_ascii_of_string].
  rewrite List.rev_app_distr. cbn [List.rev]. rewrite <- app_assoc. cbn [app].
  rewrite (dropWhileIn_stops cutset c _ Hc).
  rewrite List.rev_app_distr. cbn [List.rev]. rewrite List.rev_involutive.
  rewrite <- app_assoc. cbn [app].
  rewrite string_of_list_app, string_of_list_ascii_of_string.
  reflexivity.
Qed.

Lemma TrimRight_suffix (a : string) :
  TrimRight (a ++ ".sql")%string ".sql" = TrimRight a ".sql".
Proof.
  unfold TrimRight. rewrite list_ascii_of_append, List.rev_app_distr. reflexivity.
Qed.

Lemma TrimRight_endsOutside (cutset s : string) :
  endsOutside cutset s = true -> TrimRight s cutset = s.
Proof.
  unfold endsOutside, TrimRight.
  assert (Hs : s = string_of_list_ascii (List.rev (List.rev (list_ascii_of_string s))))
    by (now rewrite List.rev_involutive, string_of_list_ascii_of_string).
  destruct (List.rev (list_ascii_of_string s)) as [|c l].
  - intros _. symmetry. exact Hs.
  - intros Hc. apply negb_true_iff in Hc. cbn [dropWhileIn]. rewrite Hc.
    symmetry. exact Hs.
Qed.

Lemma cut_free (sep : ascii) (a b : string) :
  free sep a = true -> cut sep (a ++ String sep b)%string = Some (a, b).
Proof.
  unfold free. induction a as [|c a IH].
  - intros _. cbn [cut]. change ("" ++ String sep b)%string with (String sep b).
    cbn [cut]. now rewrite Ascii.eqb_refl.
  - cbn [list_ascii_of_string List.existsb]. rewrite negb_orb.
    intros [Hc Ha]%andb_true_iff. rewrite append_cons. cbn [cut].
    rewrite Ascii.eqb_sym. apply negb_true_iff in Hc. rewrite Hc.
    now rewrite (IH Ha).
Qed.

(** The purge reads back the ID under which [writeSQLs] filed the fix SQL:
    when neither the schema nor the table name holds a [:] and the text of
    the ID does not end in one of the characters [.], [s], [q], [l], the ID
    handed to [utils.GetChunkIDFromSQLFileName] is the text
    [utils.GetSQLFileName] gave. *)
Theorem fileIDOf_sqlFileName (schema table : string) (id : ChunkID) :
  free ":" schema = true ->
  free ":" table = true ->
  endsOutside ".sql" (GetSQLFileName id) = true ->
  fileIDOf (sqlFileName schema table id)
  = Some match GetChunkIDFromSQLFileName (GetSQLFileName id) with
         | inr err => inr err
         | inl (tableIndex, bucketIndexLeft, bucketIndexRight, chunkIndex) =>
           inl (mkChunkID tableIndex bucketIndexLeft bucketIndexRight chunkIndex 0)
         end.
Proof.
  intros Hschema Htable Hid. unfold fileIDOf, sqlFileName.
  assert (Hname : (schema ++ ":" ++ table ++ ":" ++ GetSQLFileName id ++ ".sql")%string
                  = ((schema ++ ":" ++ table ++ ":" ++ GetSQLFileName id) ++ ".sql")%string).
  { rewrite <- !Continuous.append_assoc. reflexivity. }
  rewrite Hname, HasSuffix_append, TrimRight_suffix.
  change (schema ++ ":" ++ table ++ ":" ++ GetSQLFileName id)%string
    with (schema ++ String ":" (table ++ String ":" (GetSQLFileName id)))%string.
  rewrite (TrimRight_after schema ":" _ ".sql" eq_refl).
  rewrite (TrimRight_after table ":" _ ".sql" eq_refl).
  rewrite (TrimRight_endsOutside _ _ Hid).
  cbn [SplitN]. rewrite (cut_free ":" schema _ Hschema).
  rewrite (cut_free ":" table _ Htable).
  destruct (GetChunkIDFromSQLFileName (GetSQLFileName id)) as [[[[a b] c] d]|err];
    reflexivity.
Qed.

(** *** [Diff.writeSQLs] (diff.go) *)

Section Writer.

Context {R : Type}.

(** [dml.node.GetTableIndex()], [dml.node.GetID()] and
    [dml.node.ChunkRange.ToMeta()]. *)
Variable GetTableIndex : Batch.Node R -> Z.
Variable GetID : Batch.Node R -> ChunkID.
Variable ToMeta : R -> string.

(** [df.downstream.GetTables()] and [source.UnifiedTimeZone]. *)
Variable tables : list TableDiff.
Variable UnifiedTimeZone : string.

(** The error of [os.Create(path)] and of [fixSQLFile.WriteString(text)],
    if any. *)
Variable Create : string -> option error.
Variable WriteString : string -> string -> option error.

(** The files of the fix directory, each with the texts written to it, and
    the nodes inserted into the checkpoint. *)
Definition written := (gmap string (list string) * list (Batch.Node R))%type.

(** A write whose error is not looked at; a write that fails is taken to
    write nothing. *)
Definition tryWrite (path text : string) (content : list string) : list string :=
  match WriteString path text with
  | Some _ => content
  | None => content ++ [text]
  end.

(** [for _, sql := range dml.sqls { _, err = fixSQLFile.WriteString(...);
    if err != nil { log.Fatal(...) } }]: [None] is the fatal exit. *)
Fixpoint writeLines (path : string) (sqls : list string) (content : list string)
  : option (list string) :=
  match sqls with
  | [] => Some content
  | sql :: sqls' =>
    match WriteString path (sql ++ newline)%string with
    | Some _ => None
    | None => writeLines path sqls' (content ++ [(sql ++ newline)%string])
    end
  end.

Definition tableOf (node : Batch.Node R) : option TableDiff :=
  if GetTableIndex node <? 0 then None else tables !! Z.to_nat (GetTableIndex node).

Definition fixSQLPath (tableDiff : TableDiff) (node : Batch.Node R) : string :=
  filepath_Join FixSQLDir (sqlFileName (Schema tableDiff) (Table tableDiff) (GetID node)).

Definition metaOf (tableDiff : TableDiff) (node : Batch.Node R) : string :=
  ("-- table: " ++ Schema tableDiff ++ "." ++ Table tableDiff ++ newline
   ++ "-- " ++ ToMeta (Batch.ChunkRange node) ++ newline)%string.

Definition timeZoneOf : string :=
  ("set @@session.time_zone = " ++ doubleQuote ++ UnifiedTimeZone ++ doubleQuote
   ++ ";" ++ newline)%string.

(** One [dml] received from [df.sqlCh]. *)
Definition writeOne (st : written) (dml : Batch.ChunkDML R) : ended written :=
  let '(files, cp) := st in
  if Nat.ltb 0 (length (Batch.sqls dml)) then
    match tableOf (Batch.node dml) with
    | None => Panicked "index out of range"
    | Some tableDiff =>
      let path := fixSQLPath tableDiff (Batch.node dml) in
      match files !! path with
      | Some _ => Fatal
      | None =>
        match Create path with
        | Some _ => Fatal
        | None =>
          let content := tryWrite path (metaOf tableDiff (Batch.node dml)) [] in
          let content :=
            if NeedUnifiedTimeZone tableDiff then tryWrite path timeZoneOf content
            else content in
          match writeLines path (Batch.sqls dml) content with
          | None => Fatal
          | Some content => Done (<[path := content]> files, cp ++ [Batch.node dml])
          end
        end
      end
    end
  else Done (files, cp ++ [Batch.node dml]).

(** [writeSQLs] over the [dml]s sent before the channel was closed. *)
Fixpoint writeSQLs (dmls : list (Batch.ChunkDML R)) (st : written) : ended written :=
  match dmls with
  | [] => Done st
  | dml :: dmls' =>
    match writeOne st dml with
    | Done st' => writeSQLs dmls' st'
    | Fatal => Fatal
    | Panicked msg => Panicked msg
    end
  end.

Lemma writeLines_appends (path : string) (sqls : list string) :
  forall content content',
    writeLines path sqls content = Some content' ->
    content' = content ++ List.map (fun sql => (sql ++ newline)%string) sqls.
Proof.
  induction sqls as [|sql sqls IH]; intros content content'; cbn [writeLines List.map].
  - intros [= <-]. now rewrite app_nil_r.
  - destruct (WriteString path (sql ++ newline)%string); [discriminate | ].
    intros Hrest. rewrite (IH _ _ Hrest), <- app_assoc. reflexivity.
Qed.

(** The fix SQL of a [dml] is in its file: after whatever the two header
    writes left, its statements, one per line and in order. *)
Definition filed (files : gmap string (list string)) (dml : Batch.ChunkDML R) : Prop :=
  exists tableDiff header,
    tableOf (Batch.node dml) = Some tableDiff /\
    files !! fixSQLPath tableDiff (Batch.node dml)
      = Some (header ++ List.map (fun sql => (sql ++ newline)%string) (Batch.sqls dml)).

Lemma writeOne_done (st st' : written) (dml : Batch.ChunkDML R) :
  writeOne st dml = Done st' ->
  st'.2 = st.2 ++ [Batch.node dml] /\
  (forall path content, st.1 !! path = Some content -> st'.1 !! path = Some content) /\
  (Batch.sqls dml <> [] -> filed st'.1 dml).
Proof.
  destruct st as [files cp]. unfold writeOne.
  destruct (Batch.sqls dml) as [|sql sqls] eqn:Hsqls; cbn [length Nat.ltb Nat.leb].
  - intros [= <-]. cbn [fst snd]. split; [reflexivity | split; [auto | ]].
    intros Hne. destruct (Hne eq_refl).
  - destruct (tableOf (Batch.node dml)) as [tableDiff|] eqn:Htable; [ | discriminate].
    destruct (files !! fixSQLPath tableDiff (Batch.node dml)) eqn:Hfresh; [discriminate | ].
    destruct (Create _); [discriminate | ].
    destruct (writeLines _ _ _) as [content|] eqn:Hlines; [ | discriminate].
    intros [= <-]. cbn [fst snd]. split; [reflexivity | split].
    + intros path content0 Hpath. rewrite lookup_insert_ne; [exact Hpath | ].
      intros <-. congruence.
    + intros _. unfold filed. rewrite Hsqls. exists tableDiff. eexists.
      split; [exact Htable | ].
      rewrite lookup_insert_eq, (writeLines_appends _ _ _ _ Hlines). reflexivity.
Qed.

(** When [writeSQLs] returns: every node received was inserted into the
    checkpoint, in the order received, with or without fix SQL; no file that
    was there was touched; and the fix SQL of every [dml] that has some is in
    its own file.  (A second [dml] for the same file ends the process.) *)
Theorem writeSQLs_done (dmls : list (Batch.ChunkDML R)) (st st' : written) :
  writeSQLs dmls st = Done st' ->
  st'.2 = st.2 ++ List.map Batch.node dmls /\
  (forall path content, st.1 !! path = Some content -> st'.1 !! path = Some content) /\
  (forall dml, In dml dmls -> Batch.sqls dml <> [] -> filed st'.1 dml).
Proof.
  revert st. induction dmls as [|dml dmls IH]; intros st; cbn [writeSQLs List.map].
  - intros [= <-]. rewrite app_nil_r. split; [reflexivity | split; [auto | ]].
    intros dml [].
  - destruct (writeOne st dml) as [st1| |msg] eqn:Hone; try discriminate.
    intros Hrest. destruct (writeOne_done _ _ _ Hone) as (Hcp1 & Hkeep1 & Hfiled1).
    destruct (IH _ Hrest) as (Hcp & Hkeep & Hfiled).
    split; [rewrite Hcp, Hcp1, <- app_assoc; reflexivity | split].
    + intros path content Hpath. apply Hkeep, Hkeep1, Hpath.
    + intros dml' [<- | Hin] Hne; [ | exact (Hfiled dml' Hin Hne)].
      destruct (Hfiled1 Hne) as (tableDiff & header & Htable & Hfile).
      exists tableDiff, header. split; [exact Htable | apply Hkeep, Hfile].
Qed.

End Writer.

End Names.

End Purge.

End FixSQL.

(** ** The purge on a concrete directory *)

Module FixSQLScenario.
Import FixSQL.

(** A chunk ID is written [table:left-right:chunk], in decimal. *)
Definition decodeChunkID (fileIDStr : string) : (Z * Z * Z * Z) + error :=
  match SplitN fileIDStr ":" 4 with
  | [tableIndex; buckets; chunkIndex] =>
    match SplitN buckets "-" 3 with
    | [bucketLeft; bucketRight] =>
      match Atoi tableIndex, Atoi bucketLeft, Atoi bucketRight, Atoi chunkIndex with
      | Some t, Some l, Some r, Some c => inl (t, l, r, c)
      | _, _, _, _ => inr "invalid syntax"
      end
    | _ => inr "invalid syntax"
    end
  | _ => inr "invalid syntax"
  end.

(** Chunk IDs compare as tuples, field by field. *)
Definition compareID (a b : ChunkID) : Z :=
  let fields (c : ChunkID) :=
    [TableIndex c; BucketIndexLeft c; BucketIndexRight c; ChunkIndex c; ChunkCnt c] in
  (fix byField (x y : list Z) : Z :=
     match x, y with
     | i :: x', j :: y' => if i <? j then -1 else if j <? i then 1 else byField x' y'
     | _, _ => 0
     end) (fields a) (fields b).

Definition renameOk (_ _ : string) : option error := None.

Definition file (path name : string) : WalkEntry :=
  mkWalkEntry path (Some (mkFileInfo name false)) None.

Definition dir (path name : string) : WalkEntry :=
  mkWalkEntry path (Some (mkFileInfo name true)) None.

Definition purge (entries : list WalkEntry) (floor : ChunkID)
  : list (string * string) * option error :=
  removeSQLFiles decodeChunkID compareID renameOk "fix" "2021-11-01T10:00:00Z"
    None entries floor.

(** The floor used when no checkpoint was found. *)
Definition noCheckpoint : ChunkID := mkChunkID (-1) (-1) (-1) (-1) 0.

(** The walk stops at a name it cannot decode.  [s:t:0:0-0:5.sql] lies
    outside any trash folder, ends in [.sql], has three fields, a decodable
    ID, and that ID is greater than the floor; it is not moved, because the
    walk stopped with an error at [a:b:zzz.sql], whose ID does not decode.
    And [db.trash:t:0:0-0:5.sql], a file of schema [db.trash] that lies in
    [FixSQLDir] itself, is not moved either, because its path contains
    [.trash]. *)
Lemma removeSQLFiles_stops_at_undecodable :
  stale decodeChunkID compareID "fix" noCheckpoint
    (file "s:t:0:0-0:5.sql" "s:t:0:0-0:5.sql") = true /\
  purge [dir "." "fix"; file "a:b:zzz.sql" "a:b:zzz.sql";
         file "s:t:0:0-0:5.sql" "s:t:0:0-0:5.sql"] noCheckpoint
    = ([], Some "invalid syntax") /\
  fileIDOf decodeChunkID "db.trash:t:0:0-0:5.sql" = Some (inl (mkChunkID 0 0 0 5 0)) /\
  0 < compareID (mkChunkID 0 0 0 5 0) noCheckpoint /\
  purge [dir "." "fix"; file "db.trash:t:0:0-0:5.sql" "db.trash:t:0:0-0:5.sql"]
        noCheckpoint
    = ([], None).
Proof. repeat split; reflexivity. Qed.

(** [strings.TrimRight] trims a set of characters, not the suffix: a name
    whose ID part ends in one of [.], [s], [q], [l] loses more than [.sql].
    The IDs the tool writes end in a digit. *)
Example TrimRight_trims_a_set :
  TrimRight "s:t:0:0-0:5.sql" ".sql" = "s:t:0:0-0:5" /\
  TrimRight "s:t:0:0-0:5l.sql" ".sql" = "s:t:0:0-0:5".
Proof. split; reflexivity. Qed.

(** Without an undecodable name the purge moves the stale files only. *)
Example purge_moves_stale_files :
  purge [dir "." "fix";
         dir ".trash-2021-10-01T10:00:00Z" ".trash-2021-10-01T10:00:00Z";
         file ".trash-2021-10-01T10:00:00Z/db:t:0:0-0:9.sql" "db:t:0:0-0:9.sql";
         file "README.sql" "README.sql";
         file "db:t:0:0-0:1.sql" "db:t:0:0-0:1.sql";
         file "db:t:0:0-0:2.sql" "db:t:0:0-0:2.sql";
         file "notes.txt" "notes.txt"]
        (mkChunkID 0 0 0 1 3)
  = ([("fix/db:t:0:0-0:2.sql",
       "fix/.trash-2021-11-01T10:00:00Z/db:t:0:0-0:2.sql")], None).
Proof. reflexivity. Qed.

(** [strconv.Itoa], and the text of a chunk ID that [decodeChunkID] reads. *)
Definition Itoa (z : Z) : string := NilZero.string_of_int (Z.to_int z).

Definition encodeChunkID (id : ChunkID) : string :=
  (Itoa (TableIndex id) ++ ":" ++ Itoa (BucketIndexLeft id) ++ "-"
   ++ Itoa (BucketIndexRight id) ++ ":" ++ Itoa (ChunkIndex id))%string.

(** C8.  The purge takes a path for a trash path as soon as [.trash] occurs
    anywhere in it, and it strips the extension with [strings.TrimRight],
    which trims a set of characters.  [db.trash:t:0:0-0:5.sql] is the file
    [writeSQLs] writes for chunk [0:0-0:5] of table [t] of schema [db.trash];
    it lies in [FixSQLDir] itself, its name has three fields of which the
    third decodes, and its ID is above the floor: it is left in place, where
    the file of the same chunk of schema [db] is moved.  The third field of
    [s:t:0:0-0:5l.sql] is [0:0-0:5l], which does not decode: the file is
    moved, as chunk [0:0-0:5], and the walk goes on. *)
Lemma removeSQLFiles_misjudges_names :
  sqlFileName encodeChunkID "db.trash" "t" (mkChunkID 0 0 0 5 0)
    = "db.trash:t:0:0-0:5.sql" /\
  HasSuffix "db.trash:t:0:0-0:5.sql" ".sql" = true /\
  SplitN "db.trash:t:0:0-0:5" ":" 3 = ["db.trash"; "t"; "0:0-0:5"] /\
  decodeChunkID "0:0-0:5" = inl (0, 0, 0, 5) /\
  0 < compareID (mkChunkID 0 0 0 5 0) noCheckpoint /\
  purge [dir "." "fix"; file "db.trash:t:0:0-0:5.sql" "db.trash:t:0:0-0:5.sql"]
        noCheckpoint
    = ([], None) /\
  purge [dir "." "fix"; file "db:t:0:0-0:5.sql" "db:t:0:0-0:5.sql"] noCheckpoint
    = ([("fix/db:t:0:0-0:5.sql",
         "fix/.trash-2021-11-01T10:00:00Z/db:t:0:0-0:5.sql")], None) /\
  HasSuffix "s:t:0:0-0:5l.sql" ".sql" = true /\
  SplitN "s:t:0:0-0:5l" ":" 3 = ["s"; "t"; "0:0-0:5l"] /\
  decodeChunkID "0:0-0:5l" = inr "invalid syntax" /\
  purge [dir "." "fix"; file "s:t:0:0-0:5l.sql" "s:t:0:0-0:5l.sql";
         file "s:t:0:0-0:6.sql" "s:t:0:0-0:6.sql"] noCheckpoint
    = ([("fix/s:t:0:0-0:5l.sql",
         "fix/.trash-2021-11-01T10:00:00Z/s:t:0:0-0:5l.sql");
        ("fix/s:t:0:0-0:6.sql",
         "fix/.trash-2021-11-01T10:00:00Z/s:t:0:0-0:6.sql")], None).
Proof. repeat split; reflexivity. Qed.

Lemma fileIDOf_sqlFileName_witness :
  sqlFileName encodeChunkID "db" "t" (mkChunkID 0 1 2 5 7) = "db:t:0:1-2:5.sql" /\
  fileIDOf decodeChunkID (sqlFileName encodeChunkID "db" "t" (mkChunkID 0 1 2 5 7))
  = Some match decodeChunkID (encodeChunkID (mkChunkID 0 1 2 5 7)) with
         | inr err => inr err
         | inl (tableIndex, bucketIndexLeft, bucketIndexRight, chunkIndex) =>
           inl (mkChunkID tableIndex bucketIndexLeft bucketIndexRight chunkIndex 0)
         end.
Proof.
  split; [reflexivity | ].
  exact (fileIDOf_sqlFileName decodeChunkID encodeChunkID "db" "t" (mkChunkID 0 1 2 5 7)
           eq_refl eq_refl eq_refl).
Defined.

(** A schema name may hold a [:]; the fields of the file name then shift,
    the third one is not the ID, and the file stops the walk of the purge. *)
Example sqlFileName_of_schema_with_colon :
  fileIDOf decodeChunkID (sqlFileName encodeChunkID "a:b" "t" (mkChunkID 0 1 2 5 7))
    = Some (inr "invalid syntax") /\
  purge [file "a:b:t:0:1-2:5.sql" (sqlFileName encodeChunkID "a:b" "t" (mkChunkID 0 1 2 5 7));
         file "db:t:0:1-2:6.sql" "db:t:0:1-2:6.sql"] noCheckpoint
    = ([], Some "invalid syntax").
Proof. split; reflexivity. Qed.

(** *** [writeSQLs] on two chunks of table [db.t] *)

(** A node is told by its chunk ID here. *)
Definition nodeOf (id : ChunkID) (state : Batch.NodeState) : Batch.Node ChunkID :=
  Batch.mkNode id state.

Definition runWriteSQLs (dmls : list (Batch.ChunkDML ChunkID))
  (st : written (R := ChunkID)) : ended (written (R := ChunkID)) :=
  writeSQLs "fix" encodeChunkID
    (fun node => TableIndex (Batch.ChunkRange node)) Batch.ChunkRange encodeChunkID
    [mkTableDiff "db" "t" true] "+00:00" (fun _ => None) (fun _ _ => None) dmls st.

Definition dmls12 : list (Batch.ChunkDML ChunkID) :=
  [Batch.mkChunkDML (nodeOf (mkChunkID 0 0 0 1 2) Batch.FailedState)
     ["REPLACE INTO t VALUES (1);"; "DELETE FROM t WHERE id = 2;"] 1 2;
   Batch.mkChunkDML (nodeOf (mkChunkID 0 0 0 2 2) Batch.SuccessState) [] 0 0].

Lemma writeSQLs_done_witness :
  exists st',
    runWriteSQLs dmls12 (∅, []) = Done st' /\
    st'.1 !! "fix/db:t:0:0-0:1.sql"
      = Some ["-- table: db.t" ++ newline ++ "-- 0:0-0:1" ++ newline;
              "set @@session.time_zone = " ++ doubleQuote ++ "+00:00" ++ doubleQuote
                ++ ";" ++ newline;
              "REPLACE INTO t VALUES (1);" ++ newline;
              "DELETE FROM t WHERE id = 2;" ++ newline]%string /\
    st'.2 = [] ++ List.map Batch.node dmls12 /\
    (forall path content,
       (∅ : gmap string (list string)) !! path = Some content ->
       st'.1 !! path = Some content) /\
    (forall dml, In dml dmls12 -> Batch.sqls dml <> [] ->
       filed "fix" encodeChunkID
         (fun node => TableIndex (Batch.ChunkRange node)) Batch.ChunkRange
         [mkTableDiff "db" "t" true] st'.1 dml).
Proof.
  eexists. split; [reflexivity | ]. split; [reflexivity | ].
  exact (writeSQLs_done "fix" encodeChunkID
           (fun node => TableIndex (Batch.ChunkRange node)) Batch.ChunkRange encodeChunkID
           [mkTableDiff "db" "t" true] "+00:00" (fun _ => None) (fun _ _ => None)
           dmls12 (∅, []) _ eq_refl).
Defined.

End FixSQLScenario.
